(** * pyxem.utils.expt_utils: beam-centre estimation and polar reprojection

    A shallow embedding of the numerical core of [expt_utils.py].
    Floating-point numbers are modelled as real numbers ([R]), so there
    is no rounding, no signed zero and no nan; arrays are arrays of
    floats (dtype [float64]): what numpy does when a value is stored
    into an array of integers (truncation, wrap-around, refusal of nan)
    is outside the model.  Array indices and radii are integers ([Z])
    or naturals where the code can only hold a count.  Python
    exceptions are values of [result]. *)

From Stdlib Require Import Reals Lra Lia ZArith List Bool String.
From stdpp Require Import base list gmap fin_map_dom.
Import ListNotations.

Local Open Scope R_scope.

(** ** Exceptions *)

Inductive exn : Type :=
| ValueError
| NotImplementedError
| AttributeError
| IndexError
| UnboundLocalError
| ZeroDivisionError.

Inductive result (A : Type) : Type :=
| Ok (a : A)
| Raise (e : exn).
Arguments Ok {A} a.
Arguments Raise {A} e.

Definition result_bind {A B : Type} (m : result A) (k : A -> result B) : result B :=
  match m with
  | Ok a => k a
  | Raise e => Raise e
  end.

Notation "'let*' x ':=' m 'in' k" := (result_bind m (fun x => k))
  (at level 10, x name, m at level 100, k at level 200, only parsing).

(** ** Coordinate transforms *)

Module CoordinateTransform.

(** [np.arctan2(y, x)]: the angle of the point [(x, y)], in (-PI, PI].
    The reals have one zero; for the negative zero of the floats numpy
    returns [-PI] at [x < 0], a case the model does not have. *)
Definition arctan2 (y x : R) : R :=
  if Rlt_dec 0 x then atan (y / x)
  else if Rlt_dec x 0 then
    if Rle_dec 0 y then atan (y / x) + PI else atan (y / x) - PI
  else if Rlt_dec 0 y then PI / 2
  else if Rlt_dec y 0 then - (PI / 2)
  else 0.

Definition _cart2polar (x y : R) : R * R :=
  let r := sqrt (x ^ 2 + y ^ 2) in
  let theta := - arctan2 y x in
  (r, theta).

Definition _polar2cart (r theta : R) : R * R :=
  let x := r * cos theta in
  let y := - r * sin theta in
  (x, y).

End CoordinateTransform.


(** ** The numpy operations the module relies on *)

Module Numpy.

(** A two-dimensional array: its shape and its entries in row-major
    order, as numpy stores them. *)
Record ndarray : Type := mk_ndarray {
  shape : nat * nat;
  flat : list R
}.

Definition nrows (a : ndarray) : nat := fst (shape a).
Definition ncols (a : ndarray) : nat := snd (shape a).

(** [a[i, j]] for indices within bounds. *)
Definition get (a : ndarray) (i j : nat) : R :=
  nth (i * ncols a + j) (flat a) 0.

Definition wf_ndarray (a : ndarray) : Prop :=
  length (flat a) = (nrows a * ncols a)%nat.

(** The entries [f i j] of an [n] by [m] array, row by row. *)
Definition tabulate (n m : nat) (f : nat -> nat -> R) : list R :=
  flat_map (fun i => map (f i) (seq 0 m)) (seq 0 n).

(** [np.arange(start, stop, 1)] on integers. *)
Definition arange (start stop : Z) : list Z :=
  map (fun k => (start + Z.of_nat k)%Z) (seq 0 (Z.to_nat (stop - start))).

(** [np.linspace(start, stop, num)] with the default [endpoint=True]:
    [num] samples, the last of which is [stop] itself. *)
Definition linspace_nat (start stop : R) (num : nat) : list R :=
  match num with
  | 1%nat => [start]
  | _ =>
    let step := (stop - start) / INR (num - 1) in
    map (fun k => start + INR k * step) (seq 0 num)
  end.

Definition linspace (start stop : R) (num : Z) : result (list R) :=
  if (num <? 0)%Z then Raise ValueError
  else Ok (linspace_nat start stop (Z.to_nat num)).

(** [np.mat(l)] of a flat list: one row. *)
Definition mat (l : list R) : ndarray :=
  mk_ndarray (1%nat, length l) l.

Definition transpose (a : ndarray) : ndarray :=
  mk_ndarray (ncols a, nrows a)
    (tabulate (ncols a) (nrows a) (fun j i => get a i j)).

Fixpoint dot (a b : ndarray) (i j k : nat) : R :=
  match k with
  | O => 0
  | S k' => dot a b i j k' + get a i k' * get b k' j
  end.

(** The product [a * b] of two [np.matrix] values. *)
Definition matmul (a b : ndarray) : result ndarray :=
  if Nat.eqb (ncols a) (nrows b) then
    Ok (mk_ndarray (nrows a, ncols b)
          (tabulate (nrows a) (ncols b) (fun i j => dot a b i j (ncols a))))
  else Raise ValueError.

(** [a * s] and [np.add(a, s)] for a scalar [s]. *)
Definition scale (a : ndarray) (s : R) : ndarray :=
  mk_ndarray (shape a) (map (fun v => v * s) (flat a)).

Definition add_scalar (a : ndarray) (s : R) : ndarray :=
  mk_ndarray (shape a) (map (fun v => v + s) (flat a)).

(** Entry-wise operations on arrays of one shape. *)
Definition map2 (f : R -> R -> R) (a b : ndarray) : ndarray :=
  mk_ndarray (shape a) (zip_with f (flat a) (flat b)).

(** [np.reshape(a, (d0, d1))]: one dimension may be negative (usually
    [-1]) and is then inferred; otherwise the sizes must agree. *)
Definition reshape (a : ndarray) (d0 d1 : Z) : result ndarray :=
  let size := Z.of_nat (length (flat a)) in
  if ((d0 <? 0) && (d1 <? 0))%Z then Raise ValueError
  else if (d0 <? 0)%Z then
    if ((d1 =? 0) || negb (size mod d1 =? 0))%Z then Raise ValueError
    else Ok (mk_ndarray (Z.to_nat (size / d1), Z.to_nat d1) (flat a))
  else if (d1 <? 0)%Z then
    if ((d0 =? 0) || negb (size mod d0 =? 0))%Z then Raise ValueError
    else Ok (mk_ndarray (Z.to_nat d0, Z.to_nat (size / d0)) (flat a))
  else if (d0 * d1 =? size)%Z then
    Ok (mk_ndarray (Z.to_nat d0, Z.to_nat d1) (flat a))
  else Raise ValueError.

(** [a[a < 0] = v]. *)
Definition assign_where_negative (a : ndarray) (v : R) : ndarray :=
  mk_ndarray (shape a)
    (map (fun x => if Rlt_dec x 0 then v else x) (flat a)).

(** [buf[mask] = v] for a boolean mask of the shape of [buf]. *)
Definition assign_where_mask (buf : list R) (mask : list bool) (v : R)
    : result (list R) :=
  if Nat.eqb (length mask) (length buf) then
    Ok (zip_with (fun (b : bool) x => if b then v else x) mask buf)
  else Raise IndexError.

(** [np.argmin] and [np.argmax] of a flat array: the first index at
    which the extreme value occurs. *)
Fixpoint argmin_from (best : nat) (best_v : R) (i : nat) (l : list R) : nat :=
  match l with
  | [] => best
  | x :: t =>
    if Rlt_dec x best_v then argmin_from i x (S i) t
    else argmin_from best best_v (S i) t
  end.

Definition argmin (l : list R) : result nat :=
  match l with
  | [] => Raise ValueError
  | x :: t => Ok (argmin_from 0 x 1 t)
  end.

Fixpoint argmax_from (best : nat) (best_v : R) (i : nat) (l : list R) : nat :=
  match l with
  | [] => best
  | x :: t =>
    if Rlt_dec best_v x then argmax_from i x (S i) t
    else argmax_from best best_v (S i) t
  end.

Definition argmax (l : list R) : result nat :=
  match l with
  | [] => Raise ValueError
  | x :: t => Ok (argmax_from 0 x 1 t)
  end.

(** [np.unravel_index(k, shape)] for a two-dimensional shape. *)
Definition unravel_index (k : nat) (shp : nat * nat) : result (nat * nat) :=
  if Nat.ltb k (fst shp * snd shp) then
    Ok (Nat.div k (snd shp), Nat.modulo k (snd shp))
  else Raise ValueError.

(** Python's slice [l[start:stop]]: negative bounds count from the end,
    and both bounds are clipped to the list. *)
Definition slice_bound (n i : Z) : Z :=
  if (i <? 0)%Z then Z.max 0 (n + i) else Z.min i n.

Definition slice {A : Type} (l : list A) (start stop : Z) : list A :=
  let n := Z.of_nat (length l) in
  let lo := slice_bound n start in
  let hi := slice_bound n stop in
  firstn (Z.to_nat (hi - lo)) (skipn (Z.to_nat lo) l).

(** [np.hanning(M)]. *)
Definition hanning (M : nat) : list R :=
  match M with
  | O => []
  | 1%nat => [1]
  | _ =>
    map (fun k => 0.5 + 0.5 * cos (PI * (1 - INR M + 2 * INR k) / (INR M - 1)))
        (seq 0 M)
  end.

(** [np.outer(u, v)]. *)
Definition outer (u v : list R) : ndarray :=
  mk_ndarray (length u, length v)
    (flat_map (fun x => map (fun y => x * y) v) u).

Definition sqrt_array (a : ndarray) : ndarray :=
  mk_ndarray (shape a) (map sqrt (flat a)).

(** Python's [round] on [n / 2] for a count [n]: halves go to the even
    neighbour. *)
Definition round_half (n : nat) : nat :=
  let q := Nat.div n 2 in
  if Nat.even n then q
  else if Nat.even q then q else S q.

End Numpy.

(** ** Ellipse sampling and polar reprojection *)

Module PolarReprojector.
Import Numpy.

(** [axes_lengths] is the pair of the two axis lengths, [None] when the
    argument is omitted; likewise [angle].  The lengths are Python
    numbers, so the division by [axes_avg] raises [ZeroDivisionError]
    when they sum to zero. *)
Definition ellipsoid_in_cartesian (r_list theta_list : list R)
    (center : R * R) (axes_lengths : option (R * R)) (angle : option R)
    : result (ndarray * ndarray) :=
  let* scales :=
    match axes_lengths with
    | Some (a, b) =>
      let axes_avg := (a + b) / 2 in
      if Req_dec_T axes_avg 0 then Raise ZeroDivisionError
      else Ok (Rmax a b / axes_avg, Rmin a b / axes_avg)
    | None => Ok (1, 1)
    end in
  let '(h_o, k_o) := scales in
  let r_mat := mat r_list in
  let t_sin := mat (map sin theta_list) in
  let t_cos := mat (map cos theta_list) in
  let* xc := matmul (transpose r_mat) t_sin in
  let x_circle := scale xc h_o in
  let* yc := matmul (transpose r_mat) t_cos in
  let y_circle := scale yc k_o in
  match angle with
  | Some angle =>
    let cos_angle := cos angle in
    let sin_angle := sin angle in
    let x_list := map2 Rminus (scale x_circle cos_angle) (scale y_circle sin_angle) in
    let x_list := add_scalar x_list (fst center) in
    let y_list := map2 Rplus (scale y_circle cos_angle) (scale x_circle sin_angle) in
    let y_list := add_scalar y_list (snd center) in
    Ok (x_list, y_list)
  | None =>
    let x_list := add_scalar x_circle (fst center) in
    let y_list := add_scalar y_circle (snd center) in
    Ok (x_list, y_list)
  end.

(** *** The store

    Arrays are Python objects: [img.data] is a view of the buffer of
    [img], not a copy, so a write through it is a write to [img].  The
    store maps the location of a buffer to its entries. *)

Definition loc : Type := nat.

Abbreviation store := (gmap loc (list R)).

Definition M (A : Type) : Type := store -> store * result A.

Definition lift {A : Type} (r : result A) : M A := fun s => (s, r).

Definition mbind {A B : Type} (m : M A) (k : A -> M B) : M B :=
  fun s =>
    match m s with
    | (s', Ok a) => k a s'
    | (s', Raise e) => (s', Raise e)
    end.

Notation "'run' x <~ m 'in' k" := (mbind m (fun x => k))
  (at level 10, x name, m at level 100, k at level 200, only parsing).

(** [try: body except AttributeError: pass]. *)
Definition try_pass_AttributeError (body : M unit) : M unit :=
  fun s =>
    match body s with
    | (s', Raise AttributeError) => (s', Ok tt)
    | other => other
    end.

Definition load (l : loc) : M (list R) :=
  fun s => (s, Ok (default [] (s !! l))).

Definition store_at (l : loc) (buf : list R) : M unit :=
  fun s => (<[l := buf]> s, Ok tt).

(** A new array object: its buffer is at a location not in use. *)
Record array_ref : Type := mk_array_ref {
  ref_shape : nat * nat;
  ref_loc : loc
}.

Definition new_array (a : ndarray) : M array_ref :=
  fun s =>
    let l := fresh (dom s) in
    (<[l := flat a]> s, Ok (mk_array_ref (shape a) l)).

(** The image argument: a two-dimensional array object.  [img_mask] is
    [None] for an object without a [mask] attribute (a plain
    [numpy.ndarray]), and the mask for a [numpy.ma.MaskedArray]. *)
Record image : Type := mk_image {
  img_shape : nat * nat;
  img_data : loc;
  img_mask : option (list bool)
}.

Definition get_mask (img : image) : result (list bool) :=
  match img_mask img with
  | Some m => Ok m
  | None => Raise AttributeError
  end.

(** The [try] block of [reproject_cartesian_to_polar]:
    [intensity[img.mask] = -999999], skipped when [img] has no mask.
    The buffer is one of floats, which holds [-999999] as it is. *)
Definition mask_to_sentinel (img : image) (intensity : loc) : M unit :=
  try_pass_AttributeError
    (run mask <~ lift (get_mask img) in
     run buf <~ load intensity in
     run buf' <~ lift (assign_where_mask buf mask (-999999)) in
     store_at intensity buf').

Section Reproject.

(** [scipy.interpolate.RectBivariateSpline]: the constructor, which
    may reject its arguments, and the evaluation [spline.ev] at one
    point. *)
Variable spline : Type.
Variable RectBivariateSpline :
  list R -> list R -> ndarray -> result spline.
Variable spline_ev : spline -> R -> R -> R.

Definition ev (sp : spline) (xs ys : ndarray) : ndarray :=
  map2 (spline_ev sp) xs ys.

Definition reproject_cartesian_to_polar (img : image)
    (center : option (R * R)) (angle : option R) (lengths : option (R * R))
    (radius : Z * Z) (phase_width : Z) : M array_ref :=
  let img_shape := img_shape img in
  let initial_y := map INR (seq 0 (fst img_shape)) in
  let initial_x := map INR (seq 0 (snd img_shape)) in
  let center :=
    match center with
    | Some c => c
    | None => (INR (fst img_shape) / 2, INR (snd img_shape) / 2)
    end in
  run final_the <~ lift (linspace 0 (2 * PI) phase_width) in
  let final_rad := map IZR (arange (fst radius) (snd radius)) in
  run final_xy <~
    lift (ellipsoid_in_cartesian final_rad final_the center lengths angle) in
  let '(final_x, final_y) := final_xy in
  let intensity := img_data img in
  run _ <~ mask_to_sentinel img intensity in
  run buf <~ load intensity in
  run sp <~ lift (RectBivariateSpline initial_x initial_y
                (mk_ndarray img_shape buf)) in
  let polar_img := ev sp final_x final_y in
  run polar_img <~ lift (reshape polar_img (snd radius - fst radius) phase_width) in
  let polar_img := assign_where_negative polar_img (-10) in
  new_array polar_img.

End Reproject.

End PolarReprojector.

(** ** Sub-pixel peak location in a one-dimensional signal *)

Module PeakLocator1D.
Import Numpy.

(** The [kind] argument handed on to [scipy.interpolate.interp1d]: a
    string or an integer spline order. *)
Inductive kind_t : Type :=
| KindStr (s : string)
| KindInt (order : Z).

(** A fitted interpolant, called on an array of sample positions. *)
Definition interpolant : Type := list R -> result (list R).

Section FindPeakMax.

(** [scipy.ndimage.gaussian_filter1d]; the check of [kind] in the
    initialiser of [interp1d], which tells whether the installed scipy
    knows the kind (which names it knows depends on the release); and
    the fitting routine behind [interp1d], which may still refuse a
    kind that passed the check, such as a spline order it cannot use,
    with [ValueError]. *)
Variable gaussian_filter1d : list R -> R -> list R.
Variable kind_supported : kind_t -> bool.
Variable fit : list R -> list R -> kind_t -> result interpolant.

(** [interp1d(x, y, kind=kind)] up to the fit.  Its initialiser first
    hands [x] and [y] to the base class, which refuses arrays of
    different lengths with [ValueError]; then it looks at [kind] and
    refuses one it does not know with [NotImplementedError]; then it
    fits. *)
Definition interp1d (x y : list R) (kind : kind_t) : result interpolant :=
  if negb (Nat.eqb (length x) (length y)) then Raise ValueError
  else if negb (kind_supported kind) then Raise NotImplementedError
  else fit x y kind.

Definition _find_peak_max (arr : list R) (sigma : R)
    (upsample_factor window : Z) (kind : kind_t) : result R :=
  let y1 := gaussian_filter1d arr sigma in
  let* c1 := argmax y1 in
  let c1 := Z.of_nat c1 in
  let m := upsample_factor in
  let w := window in
  let win_len := (2 * w + 1)%Z in
  let attempt :=
    let* r1 := linspace (IZR (c1 - w)) (IZR (c1 + w)) win_len in
    let* f := interp1d r1 (slice y1 (c1 - w) (c1 + w + 1)) kind in
    let* r2 := linspace (IZR (c1 - w)) (IZR (c1 + w)) (win_len * m) in
    let* y2 := f r2 in
    let* i2 := argmax y2 in
    let c2 := INR i2 / IZR m in
    Ok c2 in
  match attempt with
  | Raise ValueError => Ok (IZR c1)
  | Raise e => Raise e
  | Ok c2 => Ok (c2 + IZR c1 - IZR w)
  end.

End FindPeakMax.

End PeakLocator1D.

(** ** Background removal by a median filter *)

Module Background.
Import Numpy.

Section SubtractBackgroundMedian.

(** [ndi.median_filter(z, size=footprint)] and the skimage branch
    [filters.median(z.astype(np.uint16), square(footprint)).astype(z.dtype)]. *)
Variable scipy_median_filter : ndarray -> Z -> ndarray.
Variable skimage_median : ndarray -> Z -> ndarray.

Definition subtract_background_median (z : ndarray) (footprint : Z)
    (implementation : string) : result ndarray :=
  let* bg_subtracted :=
    if String.eqb implementation "scipy" then
      Ok (map2 Rminus z (scipy_median_filter z footprint))
    else if String.eqb implementation "skimage" then
      Ok (map2 Rminus z (skimage_median z footprint))
    else Raise ValueError in
  Ok (mk_ndarray (shape bg_subtracted)
        (map (fun v => Rmax v 0) (flat bg_subtracted))).

End SubtractBackgroundMedian.

End Background.

(** ** Beam-centre estimators *)

Module BeamCenterEstimators.
Import Numpy.

Section Blur.

(** [scipy.ndimage.gaussian_filter(z, sigma, mode=...)]. *)
Variable gaussian_filter : ndarray -> R -> string -> ndarray.

Definition find_beam_center_blur (z : ndarray) (sigma : R)
    : result (nat * nat) :=
  let blurred := gaussian_filter z sigma "wrap"%string in
  let* k := argmax (flat blurred) in
  let* center := unravel_index k (shape blurred) in
  Ok center.

End Blur.

(** An index of numpy along an axis of length [n]: negative indices
    count from the end, anything else out of range is an error. *)
Definition normalize_index (n : nat) (i : Z) : result nat :=
  let i' := if (i <? 0)%Z then (i + Z.of_nat n)%Z else i in
  if ((0 <=? i') && (i' <? Z.of_nat n))%Z then Ok (Z.to_nat i')
  else Raise IndexError.

Definition zeros (n m : nat) : ndarray :=
  mk_ndarray (n, m) (repeat 0 (n * m)).

(** [img[rr, cc] = v] for coordinate lists [rr], [cc] given as pairs. *)
Fixpoint assign_points (img : ndarray) (pts : list (Z * Z)) (v : R)
    : result ndarray :=
  match pts with
  | [] => Ok img
  | (r, c) :: rest =>
    let* i := normalize_index (nrows img) r in
    let* j := normalize_index (ncols img) c in
    assign_points
      (mk_ndarray (shape img) (<[(i * ncols img + j)%nat := v]> (flat img)))
      rest v
  end.

Section CrossCorrelation.

(** [skimage.draw.ellipse_perimeter(r, c, r_radius, c_radius)], the
    coordinates as pairs, and
    [skimage.feature.register_translation(src, target, upsample_factor)],
    which returns the shift, the error and the phase difference. *)
Variable ellipse_perimeter : Z -> Z -> Z -> Z -> list (Z * Z).
Variable register_translation :
  ndarray -> ndarray -> Z -> result (list R * R * R).

(** Storing a float into an array of dtype ['single'] rounds it. *)
Variable single : R -> R.

Fixpoint draw_circles (img : ndarray) (coords : list (Z * Z)) (radius : Z)
    : result ndarray :=
  match coords with
  | [] => Ok img
  | (c0, c1) :: rest =>
    let* img' := assign_points img (ellipse_perimeter c0 c1 radius radius) 1 in
    draw_circles img' rest radius
  end.

Definition reference_circle (coords : list (Z * Z)) (dimX dimY : nat)
    (radius : Z) : result ndarray :=
  let img := zeros dimX dimY in
  draw_circles img coords radius.

(** The block the function runs for every radius and once more for the
    selected one: draw the reference circle, window reference and image
    with the square root of the outer product of two Hann windows, and
    register the two. *)
Definition windowed_registration (z : ndarray) (origin : list (Z * Z))
    (radius : Z) (upsample_factor : Z) : result (list R * R * R) :=
  let* ref := reference_circle origin (nrows z) (ncols z) radius in
  let h0 := hanning (nrows ref) in
  let h1 := hanning (ncols ref) in
  let hann2d := sqrt_array (outer h0 h1) in
  let ref := map2 Rmult hann2d ref in
  let im := map2 Rmult hann2d z in
  register_translation ref im upsample_factor.

(** The loop over [ind]: the state is [errRecord] and [index_min], the
    latter unbound until the body has run once. *)
Fixpoint radius_loop (z : ndarray) (origin : list (Z * Z))
    (radiusList : list Z) (inds : list nat)
    (errRecord : list R) (index_min : option nat)
    : result (list R * option nat) :=
  match inds with
  | [] => Ok (errRecord, index_min)
  | ind :: rest =>
    let* radius :=
      match nth_error radiusList ind with
      | Some r => Ok r
      | None => Raise IndexError
      end in
    let* reg := windowed_registration z origin radius 10 in
    let '(shift, error, diffphase) := reg in
    let* errRecord :=
      if Nat.ltb ind (length errRecord)
      then Ok (<[ind := single error]> errRecord)
      else Raise IndexError in
    let* index_min := argmin errRecord in
    radius_loop z origin radiusList rest errRecord (Some index_min)
  end.

Definition find_beam_offset_cross_correlation (z : ndarray)
    (radius_start radius_finish : Z) : result (list R) :=
  let radiusList := arange radius_start radius_finish in
  let errRecord := repeat 0 (length radiusList) in
  let origin :=
    [(Z.of_nat (round_half (nrows z)), Z.of_nat (round_half (ncols z)))] in
  let* final :=
    radius_loop z origin radiusList (seq 0 (length radiusList))
      errRecord None in
  let '(errRecord, index_min) := final in
  let* index_min :=
    match index_min with
    | Some i => Ok i
    | None => Raise UnboundLocalError
    end in
  let* radius :=
    match nth_error radiusList index_min with
    | Some r => Ok r
    | None => Raise IndexError
    end in
  let* reg := windowed_registration z origin radius 100 in
  let '(shift, error, diffphase) := reg in
  Ok (map (fun s => s - 0.5) shift).

End CrossCorrelation.

End BeamCenterEstimators.

(** ** Concrete inputs

    Small arrays and stand-ins for the library routines, on which the
    functions above are run. *)

Module Examples.
Import Numpy PolarReprojector PeakLocator1D BeamCenterEstimators.

(** A spline that accepts every image and is constant. *)
Definition flat_spline : list R -> list R -> ndarray -> result unit :=
  fun _ _ _ => Ok tt.

Definition flat_spline_ev : unit -> R -> R -> R := fun _ _ _ => 1.

(** A spline that accepts every image and takes the value of its first
    pixel everywhere. *)
Definition first_pixel_spline : list R -> list R -> ndarray -> result R :=
  fun _ _ z => Ok (get z 0 0).

Definition first_pixel_spline_ev : R -> R -> R -> R := fun v _ _ => v.

(** [np.array([[1., 2.], [3., 4.]])] at location 0. *)
Definition square_store : store := {[ 0%nat := [1; 2; 3; 4] ]}.

Definition square_image : image := mk_image (2%nat, 2%nat) 0%nat None.

(** The same data as a masked array whose first pixel is masked. *)
Definition masked_square_image : image :=
  mk_image (2%nat, 2%nat) 0%nat (Some [true; false; false; false]).

(** A filter that leaves the signal as it is. *)
Definition identity_filter1d : list R -> R -> list R := fun arr _ => arr.

Definition identity_filter : ndarray -> R -> string -> ndarray :=
  fun z _ _ => z.

(** A stand-in for the check of [kind]: the names listed in the
    docstring of [_find_peak_max] and ['nearest-up'] are known, and
    every integer is taken as a spline order. *)
Definition named_kinds (kind : kind_t) : bool :=
  match kind with
  | KindStr s =>
    existsb (String.eqb s)
      ["linear"; "nearest"; "nearest-up"; "zero"; "slinear"; "quadratic";
       "cubic"; "previous"; "next"]%string
  | KindInt _ => true
  end.

(** A fitting routine that always gives the constant interpolant, and
    one that refuses every spline order with [ValueError]. *)
Definition constant_fit : list R -> list R -> kind_t -> result interpolant :=
  fun _ _ _ => Ok (fun xs => Ok (map (fun _ => 1) xs)).

Definition refusing_fit : list R -> list R -> kind_t -> result interpolant :=
  fun x y kind =>
    match kind with
    | KindInt _ => Raise ValueError
    | KindStr _ => constant_fit x y kind
    end.

(** A median filter that leaves the image as it is. *)
Definition identity_median : ndarray -> Z -> ndarray := fun z _ => z.

(** No perimeter points, and a registration that reports shift
    [(1, 2)] with error [5]. *)
Definition empty_perimeter : Z -> Z -> Z -> Z -> list (Z * Z) :=
  fun _ _ _ _ => [].

Definition constant_registration
    : ndarray -> ndarray -> Z -> result (list R * R * R) :=
  fun _ _ _ => Ok ([1; 2], 5, 0).

Definition square_array : ndarray := mk_ndarray (2%nat, 2%nat) [1; 2; 3; 4].

End Examples.

(** ** Further numpy operations: broadcasting, sums, bins, arrays with nan *)

Module NumpyMore.
Import Numpy.

(** The entries [f i j] of an [n] by [m] array of any element type. *)
Definition table {A : Type} (n m : nat) (f : nat -> nat -> A) : list A :=
  flat_map (fun i => map (f i) (seq 0 m)) (seq 0 n).

(** [np.sum] of a flat array. *)
Definition Rsum (l : list R) : R := fold_right Rplus 0 l.

(** [np.mean] of a flat array: nan ([None]) when it is empty. *)
Definition mean (l : list R) : option R :=
  match l with
  | [] => None
  | _ => Some (Rsum l / INR (length l))
  end.

(** Broadcasting of two-dimensional operands: along each axis the
    lengths agree or one of them is 1. *)
Definition broadcast_dim (n m : nat) : result nat :=
  if Nat.eqb n m then Ok n
  else if Nat.eqb n 1 then Ok m
  else if Nat.eqb m 1 then Ok n
  else Raise ValueError.

Definition broadcast_shape (s t : nat * nat) : result (nat * nat) :=
  let* n := broadcast_dim (fst s) (fst t) in
  let* m := broadcast_dim (snd s) (snd t) in
  Ok (n, m).

(** The flat position read from an operand of shape [s] for the entry
    [(i, j)] of the result: an axis of length 1 is repeated. *)
Definition bindex (s : nat * nat) (i j : nat) : nat :=
  ((if Nat.eqb (fst s) 1 then 0 else i) * snd s
   + (if Nat.eqb (snd s) 1 then 0 else j))%nat.

Definition bget (a : ndarray) (i j : nat) : R :=
  nth (bindex (shape a) i j) (flat a) 0.

(** [f(a, b)] entry by entry, for an operator [f] of numpy. *)
Definition broadcast2 (f : R -> R -> R) (a b : ndarray) : result ndarray :=
  let* s := broadcast_shape (shape a) (shape b) in
  Ok (mk_ndarray s (tabulate (fst s) (snd s)
                      (fun i j => f (bget a i j) (bget b i j)))).

(** Boolean arrays. *)
Record bool_array : Type := mk_bool_array {
  bshape : nat * nat;
  bflat : list bool
}.

Definition bool_get (a : bool_array) (i j : nat) : bool :=
  nth (i * snd (bshape a) + j) (bflat a) false.

(** [a > b]. *)
Definition greater (a b : ndarray) : result bool_array :=
  let* s := broadcast_shape (shape a) (shape b) in
  Ok (mk_bool_array s
        (table (fst s) (snd s)
           (fun i j => if Rlt_dec (bget b i j) (bget a i j) then true
                       else false))).

(** [np.where(cond, x, y)] for an array [x] and a scalar [y]. *)
Definition where_scalar (cond : bool_array) (x : ndarray) (y : R)
    : result ndarray :=
  let* s := broadcast_shape (bshape cond) (shape x) in
  Ok (mk_ndarray s
        (tabulate (fst s) (snd s)
           (fun i j =>
              if nth (bindex (bshape cond) i j) (bflat cond) false
              then bget x i j else y))).

(** [np.maximum(a, 0)]. *)
Definition maximum0 (a : ndarray) : ndarray :=
  mk_ndarray (shape a) (map (fun v => Rmax v 0) (flat a)).

(** Arrays of floats that may hold values which are not finite (nan or
    an infinity): [None] stands for such an entry. *)
Record farray : Type := mk_farray {
  fshape : nat * nat;
  fflat : list (option R)
}.

Definition fget (a : farray) (i j : nat) : option R :=
  nth (i * snd (fshape a) + j) (fflat a) None.

(** [np.copy(z)] as an array of floats. *)
Definition copy_float (z : ndarray) : farray :=
  mk_farray (shape z) (map Some (flat z)).

(** [a / b]: where the divisor is 0 the quotient is not finite. *)
Definition divide (a b : ndarray) : result farray :=
  let* s := broadcast_shape (shape a) (shape b) in
  Ok (mk_farray s
        (table (fst s) (snd s)
           (fun i j =>
              if Req_dec_T (bget b i j) 0 then None
              else Some (bget a i j / bget b i j)))).

(** [a * m] for a scalar [m] that may be nan. *)
Definition fscale (a : farray) (m : option R) : farray :=
  mk_farray (fshape a)
    (map (fun v => match v, m with
                   | Some x, Some y => Some (x * y)
                   | _, _ => None
                   end) (fflat a)).

(** [z[r0:r1, c0:c1].flatten()]. *)
Definition slice2 (z : ndarray) (r0 r1 c0 c1 : Z) : list R :=
  let rows := slice (seq 0 (nrows z)) r0 r1 in
  let cols := slice (seq 0 (ncols z)) c0 c1 in
  flat_map (fun i => map (fun j => get z i j) cols) rows.

(** Rounding of a real: [np.floor] and [np.rint], the latter to the
    nearest integer with halves going to the even neighbour. *)
Definition floor (x : R) : Z := (up x - 1)%Z.

Definition rint (x : R) : Z :=
  let f := floor x in
  let d := x - IZR f in
  if Rlt_dec d (1 / 2) then f
  else if Rlt_dec (1 / 2) d then (f + 1)%Z
  else if Z.even f then f else (f + 1)%Z.

(** [np.bincount(x, weights)]: entry [k] is the sum of the weights at
    the positions where [x] is [k]; the length is one more than the
    largest value of [x].  Negative values and weights of another
    length are refused. *)
Fixpoint bin_sum (k : Z) (x : list Z) (weights : list R) : R :=
  match x, weights with
  | v :: x', w :: weights' =>
    (if Z.eqb v k then w else 0) + bin_sum k x' weights'
  | _, _ => 0
  end.

Definition amax (x : list Z) : Z := fold_right Z.max (-1)%Z x.

Definition bincount (x : list Z) (weights : list R) : result (list R) :=
  if existsb (fun v => (v <? 0)%Z) x then Raise ValueError
  else if negb (Nat.eqb (length x) (length weights)) then Raise ValueError
  else Ok (map (fun k => bin_sum (Z.of_nat k) x weights)
             (seq 0 (Z.to_nat (amax x + 1)))).

(** [np.bincount(x)]: the number of occurrences of each value. *)
Definition bincount_counts (x : list Z) : result (list R) :=
  bincount x (map (fun _ => 1) x).

(** The largest finite double, which [np.nan_to_num] puts in the place
    of an infinity. *)
Definition float_max : R := (2 - / 2 ^ 52) * 2 ^ 1023.

(** [np.nan_to_num(t / n)] for one entry: 0/0 is nan and becomes 0, a
    non-zero value over 0 is an infinity. *)
Definition nan_to_num_div (t n : R) : R :=
  if Req_dec_T n 0 then
    if Req_dec_T t 0 then 0
    else if Rlt_dec 0 t then float_max else - float_max
  else t / n.

End NumpyMore.

(** ** Index grids *)

Module IndexGrid.
Import Numpy NumpyMore.

(** [np.meshgrid(xs, ys)]: two arrays of shape [(len(ys), len(xs))]. *)
Definition meshgrid (xs ys : list R) : ndarray * ndarray :=
  (mk_ndarray (length ys, length xs)
     (tabulate (length ys) (length xs) (fun _ j => nth j xs 0)),
   mk_ndarray (length ys, length xs)
     (tabulate (length ys) (length xs) (fun i _ => nth i ys 0))).

Definition _index_coords (z : ndarray) (origin : option (R * R))
    : ndarray * ndarray :=
  let ny := nrows z in
  let nx := ncols z in
  let '(origin_x, origin_y) :=
    match origin with
    | None => (INR (nx / 2), INR (ny / 2))
    | Some o => o
    end in
  let '(x, y) := meshgrid (map INR (seq 0 nx)) (map INR (seq 0 ny)) in
  let x := mk_ndarray (shape x) (map (fun v => v - origin_x) (flat x)) in
  let y := mk_ndarray (shape y) (map (fun v => v - origin_y) (flat y)) in
  (x, y).

End IndexGrid.

(** ** Radial profile, gain, dead pixels, backgrounds, masks *)

Module Corrections.
Import Numpy NumpyMore BeamCenterEstimators.

(** The bins are [np.rint(r - 0.5)] cast to integers ([np.int] of the
    numpy releases the module was written for); the profile is
    [np.nan_to_num(tbin / nr)]. *)
Definition radial_average (z : ndarray) (mask : option ndarray)
    : result (list R) :=
  let center := (INR (nrows z) / 2 - 0.5, INR (ncols z) / 2 - 0.5) in
  let r :=
    table (nrows z) (ncols z)
      (fun y x =>
         rint (sqrt ((INR x - snd center) ^ 2 + (INR y - fst center) ^ 2)
               - 0.5)) in
  match mask with
  | None =>
    let* tbin := bincount r (flat z) in
    let* nr := bincount_counts r in
    Ok (zip_with nan_to_num_div tbin nr)
  | Some mask =>
    let* masked_array := broadcast2 Rmult z mask in
    let* tbin := bincount r (flat masked_array) in
    let* nr := bincount r (flat mask) in
    Ok (zip_with nan_to_num_div tbin nr)
  end.

Definition gain_normalise (z dref bref : ndarray) : result farray :=
  let* num := broadcast2 Rminus z dref in
  let* den := broadcast2 Rminus bref dref in
  let* quotient := divide num den in
  let* gain := broadcast2 Rminus bref dref in
  Ok (fscale quotient (mean (flat gain))).

(** [z_bar[i, j] = v]. *)
Definition fset (a : farray) (i j : Z) (v : option R) : result farray :=
  let* i' := normalize_index (fst (fshape a)) i in
  let* j' := normalize_index (snd (fshape a)) j in
  Ok (mk_farray (fshape a)
        (<[(i' * snd (fshape a) + j')%nat := v]> (fflat a))).

Fixpoint average_dead (z : ndarray) (z_bar : farray)
    (deadpixels : list (Z * Z)) (d : Z) : result farray :=
  match deadpixels with
  | [] => Ok z_bar
  | (i, j) :: rest =>
    let neighbours :=
      slice2 z (i - d) (i + d + 1) (j - d) (j + d + 1) in
    let* z_bar := fset z_bar i j (mean neighbours) in
    average_dead z z_bar rest d
  end.

Fixpoint nan_dead (z_bar : farray) (deadpixels : list (Z * Z))
    : result farray :=
  match deadpixels with
  | [] => Ok z_bar
  | (i, j) :: rest =>
    let* z_bar := fset z_bar i j None in
    nan_dead z_bar rest
  end.

(** [z_bar = np.copy(z)] for an image of floats: the copy then holds a
    mean as it is and can hold nan.  (The copy of an image of integers
    is one of integers, outside this model.)  [z] itself is only
    read. *)
Definition remove_dead (z : ndarray) (deadpixels : list (Z * Z))
    (deadvalue : string) (d : Z) : result farray :=
  let z_bar := copy_float z in
  if String.eqb deadvalue "average" then average_dead z z_bar deadpixels d
  else if String.eqb deadvalue "nan" then nan_dead z_bar deadpixels
  else Raise NotImplementedError.

Section SubtractBackgroundDog.

(** [ndi.gaussian_filter(z, sigma)] on an image of floats, for which
    the filter returns floats and the subtraction is that of the
    reals. *)
Variable gaussian_filter : ndarray -> R -> ndarray.

Definition subtract_background_dog (z : ndarray) (sigma_min sigma_max : R)
    : result ndarray :=
  let blur_max := gaussian_filter z sigma_max in
  let blur_min := gaussian_filter z sigma_min in
  let* cond := greater blur_min blur_max in
  let* kept := where_scalar cond z 0 in
  let* diff := broadcast2 Rminus kept blur_max in
  Ok (maximum0 diff).

End SubtractBackgroundDog.

(** [im[i, j]] for indices that are not negative. *)
Definition getitem (im : ndarray) (i j : nat) : result R :=
  if (Nat.ltb i (nrows im) && Nat.ltb j (ncols im))%bool
  then Ok (get im i j) else Raise IndexError.

Definition setitem (im : ndarray) (i j : nat) (v : R) : ndarray :=
  mk_ndarray (shape im) (<[(i * ncols im + j)%nat := v]> (flat im)).

(** The inner and the outer loop of [subtract_reference]. *)
Fixpoint clamp_row (im : ndarray) (i : nat) (js : list nat)
    : result ndarray :=
  match js with
  | [] => Ok im
  | j :: rest =>
    let* v := getitem im i j in
    let im := if Rlt_dec v 0 then setitem im i j 0 else im in
    clamp_row im i rest
  end.

Fixpoint clamp_rows (im : ndarray) (rows : list nat) (ncol : nat)
    : result ndarray :=
  match rows with
  | [] => Ok im
  | i :: rest =>
    let* im := clamp_row im i (seq 0 ncol) in
    clamp_rows im rest ncol
  end.

Definition subtract_reference (z bg : ndarray) : result ndarray :=
  let* im := broadcast2 Rminus z bg in
  clamp_rows im (seq 0 (nrows z)) (ncols z).

Definition circular_mask (shape : nat * nat) (radius : R)
    (center : option (R * R)) : bool_array :=
  let '(l_x, l_y) := shape in
  let '(x, y) :=
    match center with
    | Some c => c
    | None => (INR l_x / 2, INR l_y / 2)
    end in
  mk_bool_array (l_x, l_y)
    (table l_x l_y
       (fun X Y =>
          if Rlt_dec ((INR X - x) ^ 2 + (INR Y - y) ^ 2) (radius ^ 2)
          then true else false)).

End Corrections.

(** ** The marginal-sum estimator *)

Module MarginalEstimator.
Import Numpy NumpyMore PeakLocator1D.

(** [np.sum(img, axis=1)] and [np.sum(img, axis=0)]. *)
Definition sum_axis1 (img : ndarray) : list R :=
  map (fun i => Rsum (map (fun j => get img i j) (seq 0 (ncols img))))
      (seq 0 (nrows img)).

Definition sum_axis0 (img : ndarray) : list R :=
  map (fun j => Rsum (map (fun i => get img i j) (seq 0 (nrows img))))
      (seq 0 (ncols img)).

Section FindBeamCenterInterpolate.

Variable gaussian_filter1d : list R -> R -> list R.
Variable kind_supported : kind_t -> bool.
Variable fit : list R -> list R -> kind_t -> result interpolant.

(** [_find_peak_max] is called without [window], which is then 10. *)
Definition find_beam_center_interpolate (img : ndarray) (sigma : R)
    (upsample_factor : Z) (kind : kind_t) : result (R * R) :=
  let xx := sum_axis1 img in
  let yy := sum_axis0 img in
  let* cx := _find_peak_max gaussian_filter1d kind_supported fit xx sigma
               upsample_factor 10 kind in
  let* cy := _find_peak_max gaussian_filter1d kind_supported fit yy sigma
               upsample_factor 10 kind in
  Ok (cx, cy).

End FindBeamCenterInterpolate.

End MarginalEstimator.

(** ** Index arithmetic used to state where an assignment lands *)

Module Indexing.

(** The position along an axis of length [n] that the index [i]
    denotes when it is valid: a negative index counts from the end. *)
Definition wrap_index (n : nat) (i : Z) : nat :=
  Z.to_nat (if (i <? 0)%Z then (i + Z.of_nat n)%Z else i).

(** The indices numpy accepts along an axis of length [n]. *)
Definition index_in_bounds (n : nat) (i : Z) : Prop :=
  (- Z.of_nat n <= i < Z.of_nat n)%Z.

Definition point_in_bounds (shp : nat * nat) (p : Z * Z) : Prop :=
  index_in_bounds (fst shp) (fst p) /\ index_in_bounds (snd shp) (snd p).

End Indexing.

(** ** Further concrete inputs *)

Module ExamplesMore.
Import Numpy.

(** A stand-in for [ellipse_perimeter] that returns the four axis
    points of the ellipse. *)
Definition axis_points (r c r_radius c_radius : Z) : list (Z * Z) :=
  [((r - r_radius)%Z, c); ((r + r_radius)%Z, c);
   (r, (c - c_radius)%Z); (r, (c + c_radius)%Z)].

Definition ramp_array : ndarray :=
  mk_ndarray (3%nat, 3%nat) [1; 2; 3; 4; 5; 6; 7; 8; 9].

End ExamplesMore.

(** * Coordinate transforms: the round trip *)

Module CoordinateTransformFacts.
Import CoordinateTransform.

Lemma sqrt_sum_sq_pos (x y : R) :
  0 < x -> sqrt (x ^ 2 + y ^ 2) = x * sqrt (1 + (y / x)²).
Proof.
  intros Hx.
  replace (x ^ 2 + y ^ 2) with (x² * (1 + (y / x)²)).
  - rewrite sqrt_mult; [|apply Rle_0_sqr|].
    + rewrite sqrt_Rsqr; lra.
    + pose proof (Rle_0_sqr (y / x)); lra.
  - unfold Rsqr. field. lra.
Qed.

Lemma sqrt_sum_sq_neg (x y : R) :
  x < 0 -> sqrt (x ^ 2 + y ^ 2) = - x * sqrt (1 + (y / x)²).
Proof.
  intros Hx.
  replace (x ^ 2 + y ^ 2) with ((- x)² * (1 + (y / x)²)).
  - rewrite sqrt_mult; [|apply Rle_0_sqr|].
    + rewrite sqrt_Rsqr; lra.
    + pose proof (Rle_0_sqr (y / x)); lra.
  - unfold Rsqr. field. lra.
Qed.

Lemma sqrt_one_plus_sq_pos (t : R) : 0 < sqrt (1 + t²).
Proof.
  apply sqrt_lt_R0. pose proof (Rle_0_sqr t). lra.
Qed.

(** The polar form of a point, before the sign flip of the angle. *)
Lemma polar_form (x y : R) :
  sqrt (x ^ 2 + y ^ 2) * cos (arctan2 y x) = x /\
  sqrt (x ^ 2 + y ^ 2) * sin (arctan2 y x) = y.
Proof.
  unfold arctan2.
  pose proof (sqrt_one_plus_sq_pos (y / x)) as Hs.
  destruct (Rlt_dec 0 x) as [Hx|Hx].
  - rewrite sqrt_sum_sq_pos by assumption.
    rewrite cos_atan, sin_atan. split; field; lra.
  - destruct (Rlt_dec x 0) as [Hx'|Hx'].
    + rewrite sqrt_sum_sq_neg by assumption.
      destruct (Rle_dec 0 y) as [Hy|Hy].
      * rewrite cos_plus, sin_plus, cos_PI, sin_PI, cos_atan, sin_atan.
        split; field; lra.
      * rewrite cos_minus, sin_minus, cos_PI, sin_PI, cos_atan, sin_atan.
        split; field; lra.
    + assert (x = 0) as -> by lra.
      replace (0 ^ 2 + y ^ 2) with (y²) by (unfold Rsqr; ring).
      destruct (Rlt_dec 0 y) as [Hy|Hy].
      * rewrite sqrt_Rsqr by lra. rewrite cos_PI2, sin_PI2. lra.
      * destruct (Rlt_dec y 0) as [Hy'|Hy'].
        -- rewrite cos_neg, sin_neg, cos_PI2, sin_PI2.
           replace (y²) with ((- y)²) by (unfold Rsqr; ring).
           rewrite sqrt_Rsqr by lra. lra.
        -- assert (y = 0) as -> by lra.
           rewrite Rsqr_0, sqrt_0. lra.
Qed.

(** C1: for every pair of reals [(x, y)], [_polar2cart] applied to the
    result of [_cart2polar x y] gives back exactly [(x, y)]. *)
Theorem polar2cart_cart2polar (x y : R) :
  let '(r, theta) := _cart2polar x y in _polar2cart r theta = (x, y).
Proof.
  unfold _cart2polar, _polar2cart.
  destruct (polar_form x y) as [Hc Hs].
  rewrite cos_neg, sin_neg.
  f_equal; [exact Hc | lra].
Qed.

End CoordinateTransformFacts.

(** * Facts about the numpy operations *)

Module NumpyFacts.
Import Numpy.

Lemma length_row_block (f : nat -> R) (m : nat) :
  length (map f (seq 0 m)) = m.
Proof.
  now rewrite length_map, length_seq.
Qed.

Lemma nth_map_seq {A : Type} (f : nat -> A) (d : A) (s n k : nat) :
  (k < n)%nat -> nth k (map f (seq s n)) d = f (s + k)%nat.
Proof.
  intros Hk.
  rewrite (nth_indep _ d (f 0%nat)) by (rewrite length_map, length_seq; lia).
  now rewrite map_nth, seq_nth.
Qed.

Lemma length_tabulate_from (m : nat) (f : nat -> nat -> R) (n s : nat) :
  length (flat_map (fun i => map (f i) (seq 0 m)) (seq s n)) = (n * m)%nat.
Proof.
  revert s. induction n as [|n IH]; intros s; simpl; [reflexivity|].
  rewrite length_app, length_row_block, IH. reflexivity.
Qed.

Lemma length_tabulate (n m : nat) (f : nat -> nat -> R) :
  length (tabulate n m f) = (n * m)%nat.
Proof.
  apply length_tabulate_from.
Qed.

Lemma nth_tabulate_from (m : nat) (f : nat -> nat -> R) (d : R)
    (n s i j : nat) :
  (i < n)%nat -> (j < m)%nat ->
  nth (i * m + j) (flat_map (fun i => map (f i) (seq 0 m)) (seq s n)) d
  = f (s + i)%nat j.
Proof.
  revert s i. induction n as [|n IH]; intros s i Hi Hj; [lia|].
  simpl. destruct i as [|i].
  - simpl. rewrite app_nth1 by (rewrite length_row_block; lia).
    rewrite nth_map_seq by lia.
    now rewrite Nat.add_0_r.
  - rewrite app_nth2 by (rewrite length_row_block; lia).
    rewrite length_row_block.
    replace (S i * m + j - m)%nat with (i * m + j)%nat by lia.
    rewrite IH by lia. f_equal. lia.
Qed.

Lemma nth_tabulate (n m : nat) (f : nat -> nat -> R) (d : R) (i j : nat) :
  (i < n)%nat -> (j < m)%nat ->
  nth (i * m + j) (tabulate n m f) d = f i j.
Proof.
  intros Hi Hj. unfold tabulate.
  now rewrite nth_tabulate_from.
Qed.

Lemma nth_zip_with {A B C : Type} (f : A -> B -> C) (l : list A)
    (k : list B) (da : A) (db : B) (dc : C) (i : nat) :
  (i < length l)%nat -> (i < length k)%nat ->
  nth i (zip_with f l k) dc = f (nth i l da) (nth i k db).
Proof.
  revert k i. induction l as [|x l IH]; intros [|y k] i Hl Hk;
    simpl in *; try lia.
  destruct i as [|i]; [reflexivity|]. apply IH; lia.
Qed.

Lemma length_arange (start stop : Z) :
  length (arange start stop) = Z.to_nat (stop - start).
Proof.
  unfold arange. now rewrite length_map, length_seq.
Qed.

Lemma nth_arange (start stop d : Z) (k : nat) :
  (k < Z.to_nat (stop - start))%nat ->
  nth k (arange start stop) d = (start + Z.of_nat k)%Z.
Proof.
  intros Hk. unfold arange.
  rewrite nth_map_seq by lia. reflexivity.
Qed.

Lemma length_linspace_nat (start stop : R) (num : nat) :
  length (linspace_nat start stop num) = num.
Proof.
  unfold linspace_nat.
  destruct num as [|[|n]]; try reflexivity.
  now rewrite length_map, length_seq.
Qed.

Lemma nth_linspace_nat (start stop d : R) (num k : nat) :
  (2 <= num)%nat -> (k < num)%nat ->
  nth k (linspace_nat start stop num) d
  = start + INR k * ((stop - start) / INR (num - 1)).
Proof.
  intros Hnum Hk. unfold linspace_nat.
  destruct num as [|[|n]]; try lia.
  rewrite nth_map_seq by lia. reflexivity.
Qed.

(** ** [argmax] and [argmin]: the first index of the extreme value *)

Lemma argmax_from_spec (l pre : list R) (best : nat) (best_v : R) :
  (best < length pre)%nat ->
  nth best pre 0 = best_v ->
  (forall j, (j < length pre)%nat -> nth j pre 0 <= best_v) ->
  (forall j, (j < best)%nat -> nth j pre 0 < best_v) ->
  let k := argmax_from best best_v (length pre) l in
  (k < length (pre ++ l))%nat /\
  (forall j, (j < length (pre ++ l))%nat ->
     nth j (pre ++ l) 0 <= nth k (pre ++ l) 0) /\
  (forall j, (j < k)%nat -> nth j (pre ++ l) 0 < nth k (pre ++ l) 0).
Proof.
  revert pre best best_v.
  induction l as [|x t IH]; intros pre best best_v Hb Hv Hle Hlt; simpl.
  - rewrite app_nil_r. rewrite Hv. auto.
  - replace (pre ++ x :: t) with ((pre ++ [x]) ++ t)
      by (rewrite <- app_assoc; reflexivity).
    replace (S (length pre)) with (length (pre ++ [x]))
      by (rewrite length_app; simpl; lia).
    destruct (Rlt_dec best_v x) as [Hx|Hx].
    + apply (IH (pre ++ [x]) (length pre) x).
      * rewrite length_app; simpl; lia.
      * rewrite app_nth2, Nat.sub_diag by lia. reflexivity.
      * intros j Hj. rewrite length_app in Hj; simpl in Hj.
        destruct (Nat.eq_dec j (length pre)) as [->|Hne].
        -- rewrite app_nth2, Nat.sub_diag by lia. simpl. lra.
        -- rewrite app_nth1 by lia.
           assert (j < length pre)%nat as Hj' by lia.
           specialize (Hle j Hj'). lra.
      * intros j Hj. rewrite app_nth1 by lia.
        specialize (Hle j Hj). lra.
    + apply (IH (pre ++ [x]) best best_v).
      * rewrite length_app; simpl; lia.
      * rewrite app_nth1 by lia. exact Hv.
      * intros j Hj. rewrite length_app in Hj; simpl in Hj.
        destruct (Nat.eq_dec j (length pre)) as [->|Hne].
        -- rewrite app_nth2, Nat.sub_diag by lia. simpl. lra.
        -- rewrite app_nth1 by lia. apply Hle. lia.
      * intros j Hj. rewrite app_nth1 by lia. now apply Hlt.
Qed.

Lemma argmax_spec (l : list R) :
  l <> [] ->
  exists k, argmax l = Ok k /\
    (k < length l)%nat /\
    (forall j, (j < length l)%nat -> nth j l 0 <= nth k l 0) /\
    (forall j, (j < k)%nat -> nth j l 0 < nth k l 0).
Proof.
  destruct l as [|x t]; [congruence|]. intros _.
  exists (argmax_from 0 x 1 t). split; [reflexivity|].
  apply (argmax_from_spec t [x] 0%nat x).
  - simpl; lia.
  - reflexivity.
  - intros j Hj. simpl in Hj. assert (j = 0%nat) as -> by lia. simpl. lra.
  - intros j Hj. lia.
Qed.

Lemma argmin_from_spec (l pre : list R) (best : nat) (best_v : R) :
  (best < length pre)%nat ->
  nth best pre 0 = best_v ->
  (forall j, (j < length pre)%nat -> best_v <= nth j pre 0) ->
  (forall j, (j < best)%nat -> best_v < nth j pre 0) ->
  let k := argmin_from best best_v (length pre) l in
  (k < length (pre ++ l))%nat /\
  (forall j, (j < length (pre ++ l))%nat ->
     nth k (pre ++ l) 0 <= nth j (pre ++ l) 0) /\
  (forall j, (j < k)%nat -> nth k (pre ++ l) 0 < nth j (pre ++ l) 0).
Proof.
  revert pre best best_v.
  induction l as [|x t IH]; intros pre best best_v Hb Hv Hle Hlt; simpl.
  - rewrite app_nil_r. rewrite Hv. auto.
  - replace (pre ++ x :: t) with ((pre ++ [x]) ++ t)
      by (rewrite <- app_assoc; reflexivity).
    replace (S (length pre)) with (length (pre ++ [x]))
      by (rewrite length_app; simpl; lia).
    destruct (Rlt_dec x best_v) as [Hx|Hx].
    + apply (IH (pre ++ [x]) (length pre) x).
      * rewrite length_app; simpl; lia.
      * rewrite app_nth2, Nat.sub_diag by lia. reflexivity.
      * intros j Hj. rewrite length_app in Hj; simpl in Hj.
        destruct (Nat.eq_dec j (length pre)) as [->|Hne].
        -- rewrite app_nth2, Nat.sub_diag by lia. simpl. lra.
        -- rewrite app_nth1 by lia.
           assert (j < length pre)%nat as Hj' by lia.
           specialize (Hle j Hj'). lra.
      * intros j Hj. rewrite app_nth1 by lia.
        specialize (Hle j Hj). lra.
    + apply (IH (pre ++ [x]) best best_v).
      * rewrite length_app; simpl; lia.
      * rewrite app_nth1 by lia. exact Hv.
      * intros j Hj. rewrite length_app in Hj; simpl in Hj.
        destruct (Nat.eq_dec j (length pre)) as [->|Hne].
        -- rewrite app_nth2, Nat.sub_diag by lia. simpl. lra.
        -- rewrite app_nth1 by lia. apply Hle. lia.
      * intros j Hj. rewrite app_nth1 by lia. now apply Hlt.
Qed.

Lemma argmin_spec (l : list R) :
  l <> [] ->
  exists k, argmin l = Ok k /\
    (k < length l)%nat /\
    (forall j, (j < length l)%nat -> nth k l 0 <= nth j l 0) /\
    (forall j, (j < k)%nat -> nth k l 0 < nth j l 0).
Proof.
  destruct l as [|x t]; [congruence|]. intros _.
  exists (argmin_from 0 x 1 t). split; [reflexivity|].
  apply (argmin_from_spec t [x] 0%nat x).
  - simpl; lia.
  - reflexivity.
  - intros j Hj. simpl in Hj. assert (j = 0%nat) as -> by lia. simpl. lra.
  - intros j Hj. lia.
Qed.

(** ** The operations on small inputs *)

Example argmin_first_of_ties : argmin [3; 1; 2; 1] = Ok 1%nat.
Proof.
  unfold argmin, argmin_from.
  destruct (Rlt_dec 1 3); [|lra].
  destruct (Rlt_dec 2 1); [lra|].
  destruct (Rlt_dec 1 1); [lra|]. reflexivity.
Qed.

Example slice_negative_start :
  slice [10; 20; 30; 40; 50]%nat (-2) 4 = [40]%nat.
Proof.
  reflexivity.
Qed.

Example slice_clipped :
  slice [10; 20; 30]%nat (-10) 11 = [10; 20; 30]%nat.
Proof.
  reflexivity.
Qed.

Example slice_empty_when_start_wraps_past_stop :
  slice [10; 20; 30; 40; 50]%nat (-1) 3 = [].
Proof.
  reflexivity.
Qed.

Example round_half_examples :
  round_half 50 = 25%nat /\ round_half 3 = 2%nat /\ round_half 5 = 2%nat.
Proof.
  repeat split; reflexivity.
Qed.

Example unravel_index_example : unravel_index 7 (3, 4)%nat = Ok (1, 3)%nat.
Proof.
  reflexivity.
Qed.

End NumpyFacts.

(** * Ellipse sampling *)

Module EllipseFacts.
Import Numpy NumpyFacts PolarReprojector.

Lemma nth_map_in {A B : Type} (f : A -> B) (l : list A) (d : A) (d' : B)
    (k : nat) :
  (k < length l)%nat -> nth k (map f l) d' = f (nth k l d).
Proof.
  intros Hk.
  rewrite (nth_indep _ d' (f d)) by (rewrite length_map; lia).
  apply map_nth.
Qed.

Lemma get_transpose_mat (rs : list R) (i : nat) :
  (i < length rs)%nat -> get (transpose (mat rs)) i 0 = nth i rs 0.
Proof.
  intros Hi. unfold get, transpose, mat, ncols, nrows; simpl.
  rewrite nth_tabulate by lia.
  unfold get, ncols; simpl. reflexivity.
Qed.

Lemma get_mat (ts : list R) (j : nat) : get (mat ts) 0 j = nth j ts 0.
Proof.
  reflexivity.
Qed.

(** The product of a column by a row is their outer product. *)
Lemma matmul_column_row (rs ts : list R) :
  exists a, matmul (transpose (mat rs)) (mat ts) = Ok a /\
    shape a = (length rs, length ts) /\
    length (flat a) = (length rs * length ts)%nat /\
    forall i j, (i < length rs)%nat -> (j < length ts)%nat ->
      get a i j = nth i rs 0 * nth j ts 0.
Proof.
  unfold matmul. simpl. eexists. split; [reflexivity|].
  split; [reflexivity|]. split.
  - simpl. apply length_tabulate.
  - intros i j Hi Hj. unfold get at 1, ncols at 1. simpl.
    rewrite nth_tabulate by assumption.
    simpl. rewrite get_transpose_mat, get_mat by assumption. lra.
Qed.

Lemma get_scale (a : ndarray) (s : R) (i j : nat) :
  (i * ncols a + j < length (flat a))%nat ->
  get (scale a s) i j = get a i j * s.
Proof.
  intros H. unfold get, scale, ncols; simpl.
  now rewrite (nth_map_in _ _ 0).
Qed.

Lemma get_add_scalar (a : ndarray) (s : R) (i j : nat) :
  (i * ncols a + j < length (flat a))%nat ->
  get (add_scalar a s) i j = get a i j + s.
Proof.
  intros H. unfold get, add_scalar, ncols; simpl.
  now rewrite (nth_map_in _ _ 0).
Qed.

Lemma index_in_range (n m i j : nat) :
  (i < n)%nat -> (j < m)%nat -> (i * m + j < n * m)%nat.
Proof.
  intros Hi Hj. nia.
Qed.

(** C8: without axis lengths and without an angle, the sampled points
    form arrays [X], [Y] of shape [(len(radii), len(thetas))], and the
    point at [(i, j)] lies on the circle of radius [radii[i]] about the
    centre. *)
Theorem ellipsoid_in_cartesian_circle (r_list theta_list : list R)
    (center : R * R) :
  exists X Y,
    ellipsoid_in_cartesian r_list theta_list center None None = Ok (X, Y) /\
    shape X = (length r_list, length theta_list) /\
    shape Y = (length r_list, length theta_list) /\
    wf_ndarray X /\ wf_ndarray Y /\
    forall i j, (i < length r_list)%nat -> (j < length theta_list)%nat ->
      (get X i j - fst center) ^ 2 + (get Y i j - snd center) ^ 2
      = nth i r_list 0 ^ 2.
Proof.
  unfold ellipsoid_in_cartesian.
  destruct (matmul_column_row r_list (map sin theta_list))
    as (xc & Hxc & Hsx & Hlx & Hgx).
  destruct (matmul_column_row r_list (map cos theta_list))
    as (yc & Hyc & Hsy & Hly & Hgy).
  rewrite length_map in Hsx, Hsy, Hlx, Hly, Hgx, Hgy.
  rewrite Hxc, Hyc. simpl.
  do 2 eexists. split; [reflexivity|].
  split; [exact Hsx|]. split; [exact Hsy|].
  split; [|split].
  - unfold wf_ndarray, nrows, ncols; simpl.
    rewrite !length_map, Hsx. exact Hlx.
  - unfold wf_ndarray, nrows, ncols; simpl.
    rewrite !length_map, Hsy. exact Hly.
  - intros i j Hi Hj.
    pose proof (index_in_range _ _ _ _ Hi Hj) as Hin.
    rewrite !get_add_scalar, !get_scale, Hgx, Hgy;
      unfold ncols; simpl; rewrite ?length_map, ?Hsx, ?Hsy, ?Hlx, ?Hly;
      simpl; try assumption.
    rewrite (nth_map_in sin _ 0), (nth_map_in cos _ 0) by assumption.
    pose proof (sin2_cos2 (nth j theta_list 0)) as Hsc.
    unfold Rsqr in Hsc.
    replace (nth i r_list 0 * sin (nth j theta_list 0) * 1 + fst center
             - fst center)
      with (nth i r_list 0 * sin (nth j theta_list 0)) by ring.
    replace (nth i r_list 0 * cos (nth j theta_list 0) * 1 + snd center
             - snd center)
      with (nth i r_list 0 * cos (nth j theta_list 0)) by ring.
    transitivity (nth i r_list 0 ^ 2 *
                  (sin (nth j theta_list 0) * sin (nth j theta_list 0)
                   + cos (nth j theta_list 0) * cos (nth j theta_list 0))).
    + ring.
    + rewrite Hsc. ring.
Qed.

End EllipseFacts.

(** * Polar reprojection *)

Module ReprojectFacts.
Import Numpy NumpyFacts PolarReprojector EllipseFacts.

(** The axis lengths, when given, do not sum to zero. *)
Abbreviation axes_sum_nonzero axes_lengths :=
  (forall a b : R, axes_lengths = Some (a, b) -> a + b <> 0).

(** Axis lengths that sum to zero stop the sampling at the division. *)
Lemma ellipsoid_in_cartesian_zero_sum (rs ts : list R) (center : R * R)
    (a b : R) (angle : option R) :
  a + b = 0 ->
  ellipsoid_in_cartesian rs ts center (Some (a, b)) angle
  = Raise ZeroDivisionError.
Proof.
  intros Hsum. unfold ellipsoid_in_cartesian.
  destruct (Req_dec_T ((a + b) / 2) 0) as [_|Hne]; [reflexivity|].
  exfalso. apply Hne. rewrite Hsum. unfold Rdiv. ring.
Qed.

(** The scale factors of the two axes, when the division goes
    through. *)
Lemma axes_scales (axes_lengths : option (R * R)) :
  axes_sum_nonzero axes_lengths ->
  exists h_o k_o,
    match axes_lengths with
    | Some (a, b) =>
      if Req_dec_T ((a + b) / 2) 0 then Raise ZeroDivisionError
      else Ok (Rmax a b / ((a + b) / 2), Rmin a b / ((a + b) / 2))
    | None => Ok (1, 1)
    end = Ok (h_o, k_o) /\
    (h_o, k_o)
    = match axes_lengths with
      | Some (a, b) => (Rmax a b / ((a + b) / 2), Rmin a b / ((a + b) / 2))
      | None => (1, 1)
      end.
Proof.
  intros Hsum. destruct axes_lengths as [[a b]|].
  - destruct (Req_dec_T ((a + b) / 2) 0) as [Hz|_].
    + exfalso. apply (Hsum a b eq_refl). lra.
    + do 2 eexists. split; reflexivity.
  - do 2 eexists. split; reflexivity.
Qed.

(** The sampling grids have the shape given by the two sample lists,
    whatever the ellipse parameters. *)
Lemma ellipsoid_in_cartesian_shape (rs ts : list R) (center : R * R)
    (axes_lengths : option (R * R)) (angle : option R) :
  axes_sum_nonzero axes_lengths ->
  exists X Y,
    ellipsoid_in_cartesian rs ts center axes_lengths angle = Ok (X, Y) /\
    shape X = (length rs, length ts) /\
    length (flat X) = (length rs * length ts)%nat /\
    length (flat Y) = (length rs * length ts)%nat.
Proof.
  intros Hsum. unfold ellipsoid_in_cartesian.
  destruct (axes_scales axes_lengths Hsum) as (h_o & k_o & -> & _).
  cbn [result_bind].
  destruct (matmul_column_row rs (map sin ts)) as (xc & Hxc & Hsx & Hlx & _).
  destruct (matmul_column_row rs (map cos ts)) as (yc & Hyc & Hsy & Hly & _).
  rewrite length_map in Hsx, Hsy, Hlx, Hly.
  rewrite Hxc, Hyc; simpl;
    destruct angle as [ang|]; do 2 eexists;
    (split; [reflexivity|]); simpl;
    rewrite ?length_map, ?length_zip_with, ?length_map, ?Hlx, ?Hly;
    repeat split; try assumption; lia.
Qed.

Lemma mask_to_sentinel_no_mask (img : image) (s : store) :
  img_mask img = None ->
  mask_to_sentinel img (img_data img) s = (s, Ok tt).
Proof.
  intros Hm. unfold mask_to_sentinel, try_pass_AttributeError, mbind, lift,
    get_mask. now rewrite Hm.
Qed.

Lemma mask_to_sentinel_mask (img : image) (s : store) (m : list bool) :
  img_mask img = Some m ->
  length m = length (default [] (s !! img_data img)) ->
  mask_to_sentinel img (img_data img) s
  = (<[img_data img :=
         zip_with (fun (b : bool) x => if b then -999999 else x) m
           (default [] (s !! img_data img))]> s, Ok tt).
Proof.
  intros Hm Hlen.
  unfold mask_to_sentinel, try_pass_AttributeError, mbind, lift, get_mask,
    load, store_at, assign_where_mask.
  rewrite Hm. simpl. rewrite Hlen, Nat.eqb_refl. reflexivity.
Qed.

Section Reproject.

Variable spline : Type.
Variable RectBivariateSpline : list R -> list R -> ndarray -> result spline.
Variable spline_ev : spline -> R -> R -> R.

Local Abbreviation reproject :=
  (reproject_cartesian_to_polar spline RectBivariateSpline spline_ev).

Local Abbreviation default_center img center :=
  (match center with
   | Some c => c
   | None => (INR (fst (img_shape img)) / 2, INR (snd (img_shape img)) / 2)
   end).

(** The arguments [initial_x], [initial_y], [intensity] of the spline
    constructor, for the buffers of store [s1]. *)
Local Abbreviation fitted img s1 :=
  (RectBivariateSpline
     (map INR (seq 0 (snd (img_shape img))))
     (map INR (seq 0 (fst (img_shape img))))
     (mk_ndarray (img_shape img) (default [] (s1 !! img_data img)))).

(** The run of the function once the sampling grids are built: the mask
    is written, the spline is fitted, evaluated, reshaped and clamped. *)
Lemma reproject_run (img : image) (center : option (R * R))
    (angle : option R) (lengths : option (R * R)) (r0 r1 pw : Z)
    (s : store) :
  (r0 <= r1)%Z -> (0 <= pw)%Z -> axes_sum_nonzero lengths ->
  exists X Y,
    ellipsoid_in_cartesian (map IZR (arange r0 r1))
      (linspace_nat 0 (2 * PI) (Z.to_nat pw))
      (default_center img center) lengths angle = Ok (X, Y) /\
    length (flat X) = (Z.to_nat (r1 - r0) * Z.to_nat pw)%nat /\
    length (flat Y) = (Z.to_nat (r1 - r0) * Z.to_nat pw)%nat /\
    reproject img center angle lengths (r0, r1) pw s =
    match mask_to_sentinel img (img_data img) s with
    | (s1, Raise e) => (s1, Raise e)
    | (s1, Ok _) =>
      match fitted img s1 with
      | Raise e => (s1, Raise e)
      | Ok sp =>
        new_array
          (assign_where_negative
             (mk_ndarray (Z.to_nat (r1 - r0), Z.to_nat pw)
                (zip_with (spline_ev sp) (flat X) (flat Y))) (-10)) s1
      end
    end.
Proof.
  intros Hr Hpw Hsum.
  destruct (ellipsoid_in_cartesian_shape (map IZR (arange r0 r1))
              (linspace_nat 0 (2 * PI) (Z.to_nat pw))
              (default_center img center) lengths angle Hsum)
    as (X & Y & Hell & HsX & HlX & HlY).
  rewrite length_map, length_arange, length_linspace_nat in HsX, HlX, HlY.
  exists X, Y. repeat split; try assumption.
  unfold reproject_cartesian_to_polar, linspace.
  destruct (Z.ltb_spec pw 0) as [?|_]; [lia|].
  unfold mbind at 1, lift at 1. cbn [fst snd].
  unfold mbind at 1, lift at 1.
  rewrite Hell.
  unfold mbind at 1.
  destruct (mask_to_sentinel img (img_data img) s) as [s1 [[]|e]];
    [|reflexivity].
  unfold mbind at 1, load at 1.
  unfold mbind at 1, lift at 1.
  destruct (RectBivariateSpline _ _ _) as [sp|e]; [|reflexivity].
  unfold mbind, lift, reshape, ev, map2. cbn [flat shape].
  rewrite length_zip_with, HlX, HlY, Nat.min_id.
  assert (Hd0 : (0 <= r1 - r0)%Z) by lia.
  destruct (Z.ltb_spec (r1 - r0) 0); [lia|]. cbn [andb].
  destruct (Z.ltb_spec pw 0); [lia|].
  rewrite Nat2Z.inj_mul, !Z2Nat.id by lia.
  rewrite Z.eqb_refl. reflexivity.
Qed.

(** Axis lengths that sum to zero: the call stops in
    [ellipsoid_in_cartesian], before the mask is written. *)
Lemma reproject_zero_sum (img : image) (center : option (R * R))
    (angle : option R) (a b : R) (radius : Z * Z) (pw : Z) (s : store) :
  (0 <= pw)%Z -> a + b = 0 ->
  reproject img center angle (Some (a, b)) radius pw s
  = (s, Raise ZeroDivisionError).
Proof.
  intros Hpw Hsum. unfold reproject_cartesian_to_polar, linspace.
  destruct (Z.ltb_spec pw 0) as [?|_]; [lia|].
  unfold mbind at 1, lift at 1. cbn [fst snd].
  unfold mbind at 1, lift at 1.
  now rewrite ellipsoid_in_cartesian_zero_sum.
Qed.

Lemma axes_sum_dec (lengths : option (R * R)) :
  axes_sum_nonzero lengths \/ exists a b, lengths = Some (a, b) /\ a + b = 0.
Proof.
  destruct lengths as [[a b]|].
  - destruct (Req_dec_T (a + b) 0) as [Hz|Hnz].
    + right. now exists a, b.
    + left. intros a' b' Heq. now injection Heq as <- <-.
  - left. intros a b Heq. discriminate.
Qed.

(** What a call that returns has done: the sampling grids were built,
    the mask written, the spline fitted, and the result holds the
    spline's samples at the grid points, clamped. *)
Lemma reproject_ok_samples (img : image) (center : option (R * R))
    (angle : option R) (lengths : option (R * R)) (r0 r1 pw : Z)
    (s s' : store) (out : array_ref) :
  (r0 <= r1)%Z -> (0 <= pw)%Z ->
  reproject img center angle lengths (r0, r1) pw s = (s', Ok out) ->
  exists s1 sp X Y,
    axes_sum_nonzero lengths /\
    ellipsoid_in_cartesian (map IZR (arange r0 r1))
      (linspace_nat 0 (2 * PI) (Z.to_nat pw))
      (default_center img center) lengths angle = Ok (X, Y) /\
    length (flat X) = (Z.to_nat (r1 - r0) * Z.to_nat pw)%nat /\
    length (flat Y) = (Z.to_nat (r1 - r0) * Z.to_nat pw)%nat /\
    mask_to_sentinel img (img_data img) s = (s1, Ok tt) /\
    fitted img s1 = Ok sp /\
    out = mk_array_ref (Z.to_nat (r1 - r0), Z.to_nat pw) (fresh (dom s1)) /\
    s' = <[fresh (dom s1) :=
             map (fun x => if Rlt_dec x 0 then -10 else x)
               (zip_with (spline_ev sp) (flat X) (flat Y))]> s1.
Proof.
  intros Hr Hpw Hrun.
  destruct (axes_sum_dec lengths) as [Hsum|(a & b & -> & Hz)];
    [|rewrite reproject_zero_sum in Hrun by assumption; discriminate].
  destruct (reproject_run img center angle lengths r0 r1 pw s Hr Hpw Hsum)
    as (X & Y & Hell & HlX & HlY & Heq).
  rewrite Heq in Hrun. clear Heq.
  destruct (mask_to_sentinel img (img_data img) s) as [s1 [[]|e]];
    [|discriminate].
  destruct (fitted img s1) as [sp|e] eqn:Hsp; [|discriminate].
  unfold new_array in Hrun. cbn [shape flat assign_where_negative] in Hrun.
  injection Hrun as <- <-.
  exists s1, sp, X, Y. repeat split; try reflexivity; assumption.
Qed.

Lemma reproject_ok_inv (img : image) (center : option (R * R))
    (angle : option R) (lengths : option (R * R)) (r0 r1 pw : Z)
    (s s' : store) (out : array_ref) :
  (r0 <= r1)%Z -> (0 <= pw)%Z ->
  reproject img center angle lengths (r0, r1) pw s = (s', Ok out) ->
  exists s1 sp a,
    mask_to_sentinel img (img_data img) s = (s1, Ok tt) /\
    fitted img s1 = Ok sp /\
    length (flat a) = (Z.to_nat (r1 - r0) * Z.to_nat pw)%nat /\
    out = mk_array_ref (Z.to_nat (r1 - r0), Z.to_nat pw) (fresh (dom s1)) /\
    s' = <[fresh (dom s1) := flat (assign_where_negative a (-10))]> s1.
Proof.
  intros Hr Hpw Hrun.
  destruct (reproject_ok_samples _ _ _ _ _ _ _ _ _ _ Hr Hpw Hrun)
    as (s1 & sp & X & Y & _ & _ & HlX & HlY & Hm & Hsp & -> & ->).
  exists s1, sp,
    (mk_ndarray (Z.to_nat (r1 - r0), Z.to_nat pw)
       (zip_with (spline_ev sp) (flat X) (flat Y))).
  repeat split; try reflexivity; try assumption.
  cbn [flat]. rewrite length_zip_with, HlX, HlY. lia.
Qed.

Lemma reproject_ok_intro (img : image) (center : option (R * R))
    (angle : option R) (lengths : option (R * R)) (r0 r1 pw : Z)
    (s s1 : store) (sp : spline) :
  (r0 <= r1)%Z -> (0 <= pw)%Z -> axes_sum_nonzero lengths ->
  mask_to_sentinel img (img_data img) s = (s1, Ok tt) ->
  fitted img s1 = Ok sp ->
  exists s' out,
    reproject img center angle lengths (r0, r1) pw s = (s', Ok out).
Proof.
  intros Hr Hpw Hsum Hmask Hsp.
  destruct (reproject_run img center angle lengths r0 r1 pw s Hr Hpw Hsum)
    as (X & Y & _ & _ & _ & Heq).
  rewrite Heq, Hmask, Hsp. unfold new_array. eauto.
Qed.

(** C2: for [radius[0] <= radius[1]] the returned array has shape
    [(radius[1] - radius[0], phase_width)] and that many entries,
    whatever the image, the centre and the ellipse parameters.  The
    function does return such an array when the axis lengths, if
    given, do not sum to zero, the mask is written and the spline
    constructor accepts the image; with axis lengths that sum to zero
    it returns nothing and raises [ZeroDivisionError]. *)
Theorem reproject_output_shape (img : image) (center : option (R * R))
    (angle : option R) (lengths : option (R * R)) (r0 r1 pw : Z)
    (s : store) :
  (r0 <= r1)%Z -> (0 <= pw)%Z ->
  (forall s' out,
     reproject img center angle lengths (r0, r1) pw s = (s', Ok out) ->
     ref_shape out = (Z.to_nat (r1 - r0), Z.to_nat pw) /\
     exists buf, s' !! ref_loc out = Some buf /\
       length buf = (Z.to_nat (r1 - r0) * Z.to_nat pw)%nat) /\
  (axes_sum_nonzero lengths ->
   forall s1 sp,
     mask_to_sentinel img (img_data img) s = (s1, Ok tt) ->
     fitted img s1 = Ok sp ->
     exists s' out,
       reproject img center angle lengths (r0, r1) pw s = (s', Ok out)) /\
  (forall a b,
     lengths = Some (a, b) -> a + b = 0 ->
     reproject img center angle lengths (r0, r1) pw s
     = (s, Raise ZeroDivisionError)).
Proof.
  intros Hr Hpw. split; [|split].
  - intros s' out Hrun.
    destruct (reproject_ok_inv _ _ _ _ _ _ _ _ _ _ Hr Hpw Hrun)
      as (s1 & sp & a & _ & _ & Hlen & -> & ->).
    split; [reflexivity|]. cbn [ref_loc].
    eexists. split; [apply lookup_insert_eq|].
    unfold assign_where_negative; cbn [flat]. now rewrite length_map.
  - intros Hsum s1 sp Hmask Hsp. eapply reproject_ok_intro; eassumption.
  - intros a b -> Hz. now apply reproject_zero_sum.
Qed.

(** C9: the returned array holds, pixel by pixel, the sample the
    spline gives at the grid point (the spline being fitted to the
    image after the masked pixels were set to [-999999]): the sample
    itself where it is not negative, and the sentinel [-10] where it is
    negative.  So every entry is non-negative or is [-10].  The
    function does return when the axis lengths, if given, do not sum to
    zero, the mask is written and the spline constructor accepts the
    image. *)
Theorem reproject_output_nonnegative_or_sentinel (img : image)
    (center : option (R * R)) (angle : option R) (lengths : option (R * R))
    (r0 r1 pw : Z) (s : store) :
  (r0 <= r1)%Z -> (0 <= pw)%Z ->
  (forall s' out,
     reproject img center angle lengths (r0, r1) pw s = (s', Ok out) ->
     exists s1 sp X Y buf,
       mask_to_sentinel img (img_data img) s = (s1, Ok tt) /\
       fitted img s1 = Ok sp /\
       ellipsoid_in_cartesian (map IZR (arange r0 r1))
         (linspace_nat 0 (2 * PI) (Z.to_nat pw))
         (default_center img center) lengths angle = Ok (X, Y) /\
       s' !! ref_loc out = Some buf /\
       length buf = (Z.to_nat (r1 - r0) * Z.to_nat pw)%nat /\
       (forall k, (k < length buf)%nat ->
          (spline_ev sp (nth k (flat X) 0) (nth k (flat Y) 0) < 0 ->
           nth k buf 0 = -10) /\
          (0 <= spline_ev sp (nth k (flat X) 0) (nth k (flat Y) 0) ->
           nth k buf 0
           = spline_ev sp (nth k (flat X) 0) (nth k (flat Y) 0))) /\
       Forall (fun v => 0 <= v \/ v = -10) buf) /\
  (axes_sum_nonzero lengths ->
   forall s1 sp,
     mask_to_sentinel img (img_data img) s = (s1, Ok tt) ->
     fitted img s1 = Ok sp ->
     exists s' out,
       reproject img center angle lengths (r0, r1) pw s = (s', Ok out)).
Proof.
  intros Hr Hpw. split.
  - intros s' out Hrun.
    destruct (reproject_ok_samples _ _ _ _ _ _ _ _ _ _ Hr Hpw Hrun)
      as (s1 & sp & X & Y & _ & Hell & HlX & HlY & Hm & Hsp & -> & ->).
    cbn [ref_loc]. exists s1, sp, X, Y. eexists.
    split; [exact Hm|]. split; [exact Hsp|]. split; [exact Hell|].
    split; [apply lookup_insert_eq|].
    assert (Hlen : length (zip_with (spline_ev sp) (flat X) (flat Y))
                   = (Z.to_nat (r1 - r0) * Z.to_nat pw)%nat)
      by (rewrite length_zip_with, HlX, HlY; lia).
    split; [now rewrite length_map|]. split.
    + intros k Hk. rewrite length_map, Hlen in Hk.
      rewrite (nth_map_in _ _ 0) by (rewrite Hlen; exact Hk).
      rewrite (nth_zip_with _ _ _ 0 0)
        by (rewrite ?HlX, ?HlY; exact Hk).
      destruct (Rlt_dec _ 0); split; intros; try reflexivity; lra.
    + apply List.Forall_forall. intros v Hin.
      apply in_map_iff in Hin as (x & <- & _).
      destruct (Rlt_dec x 0); [right; reflexivity | left; lra].
  - intros Hsum s1 sp Hmask Hsp. eapply reproject_ok_intro; eassumption.
Qed.

End Reproject.

End ReprojectFacts.

(** * Polar reprojection on concrete inputs *)

Module ReprojectCases.
Import Numpy NumpyFacts PolarReprojector ReprojectFacts Examples.

Lemma reproject_output_shape_witness :
  (forall s' out,
     reproject_cartesian_to_polar unit flat_spline flat_spline_ev
       square_image None None (Some (2, 1)) (0, 2)%Z 3%Z square_store
     = (s', Ok out) ->
     ref_shape out = (Z.to_nat (2 - 0), Z.to_nat 3) /\
     exists buf, s' !! ref_loc out = Some buf /\
       length buf = (Z.to_nat (2 - 0) * Z.to_nat 3)%nat) /\
  (axes_sum_nonzero (Some (2, 1)) ->
   forall s1 sp,
     mask_to_sentinel square_image (img_data square_image) square_store
       = (s1, Ok tt) ->
     flat_spline
       (map INR (seq 0 (snd (img_shape square_image))))
       (map INR (seq 0 (fst (img_shape square_image))))
       (mk_ndarray (img_shape square_image)
          (default [] (s1 !! img_data square_image))) = Ok sp ->
     exists s' out,
       reproject_cartesian_to_polar unit flat_spline flat_spline_ev
         square_image None None (Some (2, 1)) (0, 2)%Z 3%Z square_store
       = (s', Ok out)) /\
  (forall a b,
     Some (2, 1) = Some (a, b) -> a + b = 0 ->
     reproject_cartesian_to_polar unit flat_spline flat_spline_ev
       square_image None None (Some (2, 1)) (0, 2)%Z 3%Z square_store
     = (square_store, Raise ZeroDivisionError)).
Proof.
  apply (reproject_output_shape unit flat_spline flat_spline_ev
           square_image None None (Some (2, 1)) 0 2 3 square_store); lia.
Defined.

Lemma reproject_output_nonnegative_or_sentinel_witness :
  (forall s' out,
     reproject_cartesian_to_polar R first_pixel_spline first_pixel_spline_ev
       masked_square_image None None None (0, 2)%Z 3%Z square_store
     = (s', Ok out) ->
     exists s1 sp X Y buf,
       mask_to_sentinel masked_square_image (img_data masked_square_image)
         square_store = (s1, Ok tt) /\
       first_pixel_spline
         (map INR (seq 0 (snd (img_shape masked_square_image))))
         (map INR (seq 0 (fst (img_shape masked_square_image))))
         (mk_ndarray (img_shape masked_square_image)
            (default [] (s1 !! img_data masked_square_image))) = Ok sp /\
       ellipsoid_in_cartesian (map IZR (arange 0 2))
         (linspace_nat 0 (2 * PI) (Z.to_nat 3))
         (INR (fst (img_shape masked_square_image)) / 2,
          INR (snd (img_shape masked_square_image)) / 2) None None
       = Ok (X, Y) /\
       s' !! ref_loc out = Some buf /\
       length buf = (Z.to_nat (2 - 0) * Z.to_nat 3)%nat /\
       (forall k, (k < length buf)%nat ->
          (first_pixel_spline_ev sp (nth k (flat X) 0) (nth k (flat Y) 0) < 0 ->
           nth k buf 0 = -10) /\
          (0 <= first_pixel_spline_ev sp (nth k (flat X) 0) (nth k (flat Y) 0) ->
           nth k buf 0
           = first_pixel_spline_ev sp (nth k (flat X) 0) (nth k (flat Y) 0))) /\
       Forall (fun v => 0 <= v \/ v = -10) buf) /\
  (axes_sum_nonzero (@None (R * R)) ->
   forall s1 sp,
     mask_to_sentinel masked_square_image (img_data masked_square_image)
       square_store = (s1, Ok tt) ->
     first_pixel_spline
       (map INR (seq 0 (snd (img_shape masked_square_image))))
       (map INR (seq 0 (fst (img_shape masked_square_image))))
       (mk_ndarray (img_shape masked_square_image)
          (default [] (s1 !! img_data masked_square_image))) = Ok sp ->
     exists s' out,
       reproject_cartesian_to_polar R first_pixel_spline first_pixel_spline_ev
         masked_square_image None None None (0, 2)%Z 3%Z square_store
       = (s', Ok out)).
Proof.
  apply (reproject_output_nonnegative_or_sentinel R first_pixel_spline
           first_pixel_spline_ev masked_square_image None None None 0 2 3
           square_store);
    lia.
Defined.

Lemma axes_sum_nonzero_None : axes_sum_nonzero (@None (R * R)).
Proof.
  intros a b Heq. discriminate.
Qed.

Lemma zip_with_constant {A B C : Type} (c : C) (l : list A) (k : list B) :
  length l = length k ->
  zip_with (fun _ _ => c) l k = repeat c (length l).
Proof.
  revert k. induction l as [|x l IH]; intros [|y k] Hl;
    try discriminate; [reflexivity|].
  injection Hl as Hl. cbn. now rewrite (IH k Hl).
Qed.

(** On the masked array whose first pixel is masked, a spline that
    takes the value of the first pixel everywhere samples the sentinel
    [-999999] written into the image, and every pixel of the result is
    [-10]. *)
Lemma reproject_masked_samples_become_sentinel :
  exists s' out,
    reproject_cartesian_to_polar R first_pixel_spline first_pixel_spline_ev
      masked_square_image None None None (0, 2)%Z 3%Z square_store
    = (s', Ok out) /\
    s' !! ref_loc out = Some [-10; -10; -10; -10; -10; -10].
Proof.
  destruct (reproject_run R first_pixel_spline first_pixel_spline_ev
              masked_square_image None None None 0 2 3 square_store)
    as (X & Y & _ & HlX & HlY & ->);
    [lia | lia | apply axes_sum_nonzero_None |].
  rewrite (mask_to_sentinel_mask _ _ [true; false; false; false])
    by reflexivity.
  change (default [] (square_store !! img_data masked_square_image))
    with [1; 2; 3; 4].
  cbn [zip_with].
  set (s1 := <[img_data masked_square_image := _]> square_store).
  assert (Hs1 : s1 !! img_data masked_square_image
                = Some [-999999; 2; 3; 4])
    by (subst s1; apply lookup_insert_eq).
  rewrite Hs1. cbn [default]. unfold first_pixel_spline, first_pixel_spline_ev.
  change (get (mk_ndarray (img_shape masked_square_image)
                 [-999999; 2; 3; 4]) 0 0) with (-999999).
  rewrite (zip_with_constant (-999999)) by congruence.
  rewrite HlX. change (Z.to_nat (2 - 0) * Z.to_nat 3)%nat with 6%nat.
  unfold new_array, assign_where_negative. cbn [shape flat repeat map].
  do 2 eexists. split; [reflexivity|]. cbn [ref_loc].
  rewrite lookup_insert_eq. f_equal.
  destruct (Rlt_dec (-999999) 0) as [_|Hn]; [reflexivity | lra].
Qed.

(** An image without a mask is left as it was, and the result is at a
    location that was not in use. *)
Lemma reproject_unmasked_frame (spline : Type)
    (RectBivariateSpline : list R -> list R -> ndarray -> result spline)
    (spline_ev : spline -> R -> R -> R)
    (img : image) (center : option (R * R)) (angle : option R)
    (lengths : option (R * R)) (r0 r1 pw : Z) (s s' : store)
    (out : array_ref) :
  (r0 <= r1)%Z -> (0 <= pw)%Z ->
  img_mask img = None ->
  reproject_cartesian_to_polar spline RectBivariateSpline spline_ev
    img center angle lengths (r0, r1) pw s = (s', Ok out) ->
  s !! ref_loc out = None /\
  forall l, l <> ref_loc out -> s' !! l = s !! l.
Proof.
  intros Hr Hpw Hmask Hrun.
  destruct (reproject_ok_inv _ _ _ _ _ _ _ _ _ _ _ _ _ Hr Hpw Hrun)
    as (s1 & sp & a & Hm & _ & _ & -> & ->).
  rewrite mask_to_sentinel_no_mask in Hm by assumption.
  injection Hm as <-. cbn [ref_loc]. split.
  - apply not_elem_of_dom. apply is_fresh.
  - intros l Hl. now rewrite lookup_insert_ne.
Qed.

(** C5, on a masked array: after the call the buffer of the input
    image holds [-999999] at the masked pixel, where it held [1]. *)
Theorem reproject_overwrites_masked_input (spline : Type)
    (RectBivariateSpline : list R -> list R -> ndarray -> result spline)
    (spline_ev : spline -> R -> R -> R) :
  square_store !! img_data masked_square_image = Some [1; 2; 3; 4] /\
  fst (reproject_cartesian_to_polar spline RectBivariateSpline spline_ev
         masked_square_image None None None (0, 1)%Z 4%Z square_store)
    !! img_data masked_square_image
  = Some [-999999; 2; 3; 4].
Proof.
  split; [reflexivity|].
  destruct (reproject_run spline RectBivariateSpline spline_ev
              masked_square_image None None None 0 1 4 square_store)
    as (X & Y & _ & _ & _ & ->);
    [lia | lia | intros a b Heq; discriminate |].
  rewrite (mask_to_sentinel_mask _ _ [true; false; false; false])
    by reflexivity.
  change (default [] (square_store !! img_data masked_square_image))
    with [1; 2; 3; 4].
  cbn [zip_with].
  set (s1 := <[img_data masked_square_image := _]> square_store).
  assert (Hs1 : s1 !! img_data masked_square_image
                = Some [-999999; 2; 3; 4])
    by (subst s1; apply lookup_insert_eq).
  destruct (RectBivariateSpline _ _ _) as [sp|e]; [|exact Hs1].
  unfold new_array. cbn [fst].
  rewrite lookup_insert_ne; [exact Hs1|].
  intros Heq. pose proof (is_fresh (dom s1)) as Hfresh.
  rewrite Heq in Hfresh. apply Hfresh.
  apply elem_of_dom. rewrite Hs1. eauto.
Qed.

(** The last angular sample is the end point of the interval. *)
Lemma linspace_nat_last (start stop : R) (num : nat) :
  (2 <= num)%nat ->
  nth (num - 1) (linspace_nat start stop num) 0 = stop.
Proof.
  intros Hnum. rewrite nth_linspace_nat by lia.
  assert (0 < INR (num - 1)) by (apply lt_0_INR; lia).
  field. lra.
Qed.

(** C7, for [phase_width = 4]: the angular samples end at [2 * PI]
    itself and are [2 * PI / 3] apart. *)
Theorem final_the_includes_endpoint :
  exists final_the,
    linspace 0 (2 * PI) 4 = Ok final_the /\
    length final_the = 4%nat /\
    nth 0 final_the 0 = 0 /\
    nth 3 final_the 0 = 2 * PI /\
    nth 1 final_the 0 - nth 0 final_the 0 = 2 * PI / 3.
Proof.
  eexists. split; [reflexivity|].
  change (Z.to_nat 4) with 4%nat.
  split; [apply length_linspace_nat|].
  rewrite !nth_linspace_nat by lia.
  change (INR (4 - 1)) with (INR 3).
  change (INR 0) with 0.
  replace (INR 3) with 3 by (simpl; ring).
  replace (INR 1) with 1 by (simpl; ring).
  repeat split; field.
Qed.

(** The radial samples are the integers from [radius[0]] up to, not
    including, [radius[1]]. *)
Lemma final_rad_range (r0 r1 k : Z) :
  In k (arange r0 r1) <-> (r0 <= k < r1)%Z.
Proof.
  unfold arange. rewrite in_map_iff. split.
  - intros (i & <- & Hin). apply in_seq in Hin. lia.
  - intros Hk. exists (Z.to_nat (k - r0)). split; [lia|].
    apply in_seq. lia.
Qed.

End ReprojectCases.

(** * Peak location, background removal and the blur estimator *)

Module PeakFacts.
Import Numpy NumpyFacts PeakLocator1D Background BeamCenterEstimators Examples.

Lemma argmax_ok_lt (l : list R) (k : nat) :
  argmax l = Ok k -> (k < length l)%nat.
Proof.
  intros Hk. destruct l as [|x t]; [discriminate|].
  destruct (argmax_spec (x :: t)) as (k' & Hk' & Hlt & _); [discriminate|].
  rewrite Hk in Hk'. now injection Hk' as ->.
Qed.

Lemma slice_bound_range (n i : Z) :
  (0 <= n)%Z -> (0 <= slice_bound n i <= n)%Z.
Proof.
  intros Hn. unfold slice_bound. destruct (Z.ltb_spec i 0); lia.
Qed.

Lemma length_slice {A : Type} (l : list A) (start stop : Z) :
  Z.of_nat (length (slice l start stop))
  = Z.max 0 (slice_bound (Z.of_nat (length l)) stop
             - slice_bound (Z.of_nat (length l)) start).
Proof.
  unfold slice.
  pose proof (slice_bound_range (Z.of_nat (length l)) start).
  pose proof (slice_bound_range (Z.of_nat (length l)) stop).
  rewrite length_firstn, length_skipn. lia.
Qed.

(** Near either end of the signal the slice [y1[c1 - w : c1 + w + 1]]
    is shorter than the window of [2 * w + 1] samples. *)
Lemma window_slice_short {A : Type} (y1 : list A) (c1 : nat) (w : Z) :
  (c1 < length y1)%nat ->
  (Z.of_nat c1 - w < 0 \/ Z.of_nat (length y1) - 1 < Z.of_nat c1 + w)%Z ->
  (Z.of_nat (length (slice y1 (Z.of_nat c1 - w) (Z.of_nat c1 + w + 1)))
   < 2 * w + 1)%Z.
Proof.
  intros Hc Hedge. rewrite length_slice. unfold slice_bound.
  destruct (Z.ltb_spec (Z.of_nat c1 - w) 0);
    destruct (Z.ltb_spec (Z.of_nat c1 + w + 1) 0); lia.
Qed.

(** Away from both ends the slice is the whole window. *)
Lemma window_slice_full {A : Type} (y1 : list A) (c1 : nat) (w : Z) :
  (0 <= w)%Z ->
  (0 <= Z.of_nat c1 - w)%Z ->
  (Z.of_nat c1 + w <= Z.of_nat (length y1) - 1)%Z ->
  length (slice y1 (Z.of_nat c1 - w) (Z.of_nat c1 + w + 1))
  = Z.to_nat (2 * w + 1).
Proof.
  intros Hw Hlo Hhi.
  pose proof (length_slice y1 (Z.of_nat c1 - w) (Z.of_nat c1 + w + 1)) as Hl.
  unfold slice_bound in Hl.
  destruct (Z.ltb_spec (Z.of_nat c1 - w) 0);
    destruct (Z.ltb_spec (Z.of_nat c1 + w + 1) 0); lia.
Qed.

Section FindPeakMax.

Variable gaussian_filter1d : list R -> R -> list R.
Variable kind_supported : kind_t -> bool.
Variable fit : list R -> list R -> kind_t -> result interpolant.

Hypothesis gaussian_filter1d_length :
  forall arr sigma, length (gaussian_filter1d arr sigma) = length arr.

Local Abbreviation find_peak_max :=
  (_find_peak_max gaussian_filter1d kind_supported fit).

(** C4: when the window around the smoothed argmax [c1] runs over
    either end of the signal, the result is [c1], not an exception. *)
Theorem find_peak_max_edge_fallback (arr : list R) (sigma : R)
    (upsample_factor window : Z) (kind : kind_t) (c1 : nat) :
  argmax (gaussian_filter1d arr sigma) = Ok c1 ->
  (Z.of_nat c1 - window < 0
   \/ Z.of_nat (length arr) - 1 < Z.of_nat c1 + window)%Z ->
  find_peak_max arr sigma upsample_factor window kind
  = Ok (IZR (Z.of_nat c1)).
Proof.
  intros Hc1 Hedge.
  pose proof (argmax_ok_lt _ _ Hc1) as Hlt.
  rewrite <- (gaussian_filter1d_length arr sigma) in Hedge.
  pose proof (window_slice_short _ _ _ Hlt Hedge) as Hshort.
  unfold _find_peak_max. rewrite Hc1. cbn [result_bind].
  unfold linspace at 1.
  destruct (Z.ltb_spec (2 * window + 1) 0) as [Hneg|Hpos];
    [reflexivity|].
  cbn [result_bind]. unfold interp1d.
  rewrite length_linspace_nat.
  destruct (Nat.eqb_spec (Z.to_nat (2 * window + 1))
              (length (slice (gaussian_filter1d arr sigma)
                         (Z.of_nat c1 - window)
                         (Z.of_nat c1 + window + 1)))) as [Heq|Hne];
    [lia|].
  reflexivity.
Qed.

(** With the window inside the signal, a kind that the kind check of
    [interp1d] refuses is reported to the caller. *)
Lemma find_peak_max_unknown_kind (arr : list R) (sigma : R)
    (upsample_factor window : Z) (kind : kind_t) (c1 : nat) :
  (0 <= window)%Z ->
  kind_supported kind = false ->
  argmax (gaussian_filter1d arr sigma) = Ok c1 ->
  (0 <= Z.of_nat c1 - window)%Z ->
  (Z.of_nat c1 + window <= Z.of_nat (length arr) - 1)%Z ->
  find_peak_max arr sigma upsample_factor window kind
  = Raise NotImplementedError.
Proof.
  intros Hw Hkind Hc1 Hlo Hhi.
  rewrite <- (gaussian_filter1d_length arr sigma) in Hhi.
  unfold _find_peak_max. rewrite Hc1. cbn [result_bind].
  unfold linspace at 1.
  destruct (Z.ltb_spec (2 * window + 1) 0) as [Hneg|Hpos]; [lia|].
  cbn [result_bind]. unfold interp1d.
  rewrite length_linspace_nat, window_slice_full by assumption.
  rewrite Nat.eqb_refl, Hkind. reflexivity.
Qed.

(** With the window inside the signal, a kind that passes the kind
    check but that the fit refuses with [ValueError] is not reported:
    the [except] clause gives the estimate [c1]. *)
Lemma find_peak_max_refused_by_fit (arr : list R) (sigma : R)
    (upsample_factor window : Z) (kind : kind_t) (c1 : nat) :
  (0 <= window)%Z ->
  kind_supported kind = true ->
  argmax (gaussian_filter1d arr sigma) = Ok c1 ->
  (0 <= Z.of_nat c1 - window)%Z ->
  (Z.of_nat c1 + window <= Z.of_nat (length arr) - 1)%Z ->
  fit (linspace_nat (IZR (Z.of_nat c1 - window)) (IZR (Z.of_nat c1 + window))
         (Z.to_nat (2 * window + 1)))
      (slice (gaussian_filter1d arr sigma) (Z.of_nat c1 - window)
         (Z.of_nat c1 + window + 1))
      kind = Raise ValueError ->
  find_peak_max arr sigma upsample_factor window kind
  = Ok (IZR (Z.of_nat c1)).
Proof.
  intros Hw Hkind Hc1 Hlo Hhi Hfit.
  rewrite <- (gaussian_filter1d_length arr sigma) in Hhi.
  unfold _find_peak_max. rewrite Hc1. cbn [result_bind].
  unfold linspace at 1.
  destruct (Z.ltb_spec (2 * window + 1) 0) as [Hneg|Hpos]; [lia|].
  cbn [result_bind]. unfold interp1d.
  rewrite length_linspace_nat, window_slice_full by assumption.
  rewrite Nat.eqb_refl, Hkind. cbn [negb]. rewrite Hfit. reflexivity.
Qed.

End FindPeakMax.

Lemma subtract_background_median_unknown
    (scipy_median_filter skimage_median : ndarray -> Z -> ndarray)
    (z : ndarray) (footprint : Z) (implementation : string) :
  implementation <> "scipy"%string ->
  implementation <> "skimage"%string ->
  subtract_background_median scipy_median_filter skimage_median
    z footprint implementation = Raise ValueError.
Proof.
  intros Hscipy Hskimage. unfold subtract_background_median.
  destruct (String.eqb_spec implementation "scipy"); [contradiction|].
  destruct (String.eqb_spec implementation "skimage"); [contradiction|].
  reflexivity.
Qed.

(** C6, as the code has it: with the window inside the signal, a kind
    that the kind check of [interp1d] refuses makes [_find_peak_max]
    raise [NotImplementedError]; a kind that passes the check but that
    the fit refuses with [ValueError] is not reported, the estimate
    [c1] is returned; with an implementation other than ['scipy'] and
    ['skimage'], [subtract_background_median] raises [ValueError]. *)
Theorem unknown_configuration_raises
    (gaussian_filter1d : list R -> R -> list R)
    (kind_supported : kind_t -> bool)
    (fit : list R -> list R -> kind_t -> result interpolant)
    (scipy_median_filter skimage_median : ndarray -> Z -> ndarray)
    (arr : list R) (sigma : R) (upsample_factor window : Z) (kind : kind_t)
    (c1 : nat) (z : ndarray) (footprint : Z) (implementation : string) :
  (forall arr sigma, length (gaussian_filter1d arr sigma) = length arr) ->
  (0 <= window)%Z ->
  kind_supported kind = false ->
  argmax (gaussian_filter1d arr sigma) = Ok c1 ->
  (0 <= Z.of_nat c1 - window)%Z ->
  (Z.of_nat c1 + window <= Z.of_nat (length arr) - 1)%Z ->
  implementation <> "scipy"%string ->
  implementation <> "skimage"%string ->
  _find_peak_max gaussian_filter1d kind_supported fit arr sigma
    upsample_factor window kind
  = Raise NotImplementedError /\
  (forall kind',
     kind_supported kind' = true ->
     fit (linspace_nat (IZR (Z.of_nat c1 - window))
            (IZR (Z.of_nat c1 + window)) (Z.to_nat (2 * window + 1)))
         (slice (gaussian_filter1d arr sigma) (Z.of_nat c1 - window)
            (Z.of_nat c1 + window + 1))
         kind' = Raise ValueError ->
     _find_peak_max gaussian_filter1d kind_supported fit arr sigma
       upsample_factor window kind'
     = Ok (IZR (Z.of_nat c1))) /\
  subtract_background_median scipy_median_filter skimage_median
    z footprint implementation = Raise ValueError.
Proof.
  intros Hlen Hw Hkind Hc1 Hlo Hhi Hscipy Hskimage. split; [|split].
  - now apply (find_peak_max_unknown_kind gaussian_filter1d kind_supported
                 fit Hlen arr sigma upsample_factor window kind c1).
  - intros kind' Hkind' Hfit.
    now apply (find_peak_max_refused_by_fit gaussian_filter1d kind_supported
                 fit Hlen arr sigma upsample_factor window kind' c1).
  - now apply subtract_background_median_unknown.
Qed.

(** C6, as stated, fails near an edge: the constant signal
    [[1; 1; 1]] is shorter than the window of 21 samples, and with the
    kind ['spline'], which the kind check refuses, the call returns the
    estimate 0 and raises nothing. *)
Lemma unknown_kind_near_edge_returns_estimate :
  named_kinds (KindStr "spline") = false /\
  _find_peak_max identity_filter1d named_kinds constant_fit [1; 1; 1] 1 50 10
    (KindStr "spline") = Ok 0 /\
  forall e,
    _find_peak_max identity_filter1d named_kinds constant_fit [1; 1; 1]
      1 50 10 (KindStr "spline") <> Raise e.
Proof.
  assert (Hrun : _find_peak_max identity_filter1d named_kinds constant_fit
                   [1; 1; 1] 1 50 10 (KindStr "spline") = Ok 0).
  { unfold _find_peak_max, identity_filter1d, argmax, argmax_from.
    destruct (Rlt_dec 1 1); [lra|]. reflexivity. }
  split; [reflexivity|]. split; [exact Hrun|].
  intros e. rewrite Hrun. discriminate.
Qed.

Section Blur.

Variable gaussian_filter : ndarray -> R -> string -> ndarray.

Hypothesis gaussian_filter_shape :
  forall z sigma mode, shape (gaussian_filter z sigma mode) = shape z.
Hypothesis gaussian_filter_length :
  forall z sigma mode,
    length (flat (gaussian_filter z sigma mode)) = length (flat z).

(** C10: on a non-empty image the blur estimator returns a pair
    [(row, col)] of indices within the image, at which the blurred
    image takes its largest value. *)
Theorem find_beam_center_blur_in_bounds (z : ndarray) (sigma : R) :
  wf_ndarray z ->
  (0 < nrows z * ncols z)%nat ->
  exists row col,
    find_beam_center_blur gaussian_filter z sigma = Ok (row, col) /\
    (row < nrows z)%nat /\ (col < ncols z)%nat /\
    forall i j, (i < nrows z)%nat -> (j < ncols z)%nat ->
      get (gaussian_filter z sigma "wrap") i j
      <= get (gaussian_filter z sigma "wrap") row col.
Proof.
  intros Hwf Hpos. unfold find_beam_center_blur.
  set (blurred := gaussian_filter z sigma "wrap").
  assert (Hlen : length (flat blurred) = (nrows z * ncols z)%nat)
    by (subst blurred; rewrite gaussian_filter_length; exact Hwf).
  assert (Hshape : shape blurred = (nrows z, ncols z))
    by (subst blurred; rewrite gaussian_filter_shape;
        unfold nrows, ncols; now destruct (shape z)).
  assert (Hne : flat blurred <> [])
    by (intros Heq; rewrite Heq in Hlen; simpl in Hlen; lia).
  destruct (argmax_spec _ Hne) as (k & Hk & Hklt & Hmax & _).
  rewrite Hk. cbn [result_bind]. unfold unravel_index.
  rewrite Hshape. cbn [fst snd]. rewrite Hlen in Hklt.
  destruct (Nat.ltb_spec k (nrows z * ncols z)) as [_|?]; [|lia].
  cbn [result_bind].
  assert (Hc : ncols z <> 0%nat) by lia.
  exists (k / ncols z)%nat, (k mod ncols z)%nat.
  split; [reflexivity|]. split; [|split].
  - apply Nat.Div0.div_lt_upper_bound. lia.
  - now apply Nat.mod_upper_bound.
  - intros i j Hi Hj. unfold get, ncols at 1 3. rewrite Hshape. cbn [snd].
    replace (k / ncols z * ncols z + k mod ncols z)%nat with k
      by (rewrite (Nat.div_mod_eq k (ncols z)) at 1; lia).
    apply Hmax. rewrite Hlen. nia.
Qed.

End Blur.

Lemma argmax_example : argmax (identity_filter1d [1; 3; 2] 1) = Ok 1%nat.
Proof.
  unfold identity_filter1d, argmax, argmax_from.
  destruct (Rlt_dec 1 3); [|lra].
  destruct (Rlt_dec 3 2); [lra|]. reflexivity.
Qed.

Lemma find_peak_max_edge_fallback_witness :
  _find_peak_max identity_filter1d named_kinds constant_fit [1; 3; 2] 1 50 10
    (KindInt 3)
  = Ok (IZR (Z.of_nat 1)).
Proof.
  apply (find_peak_max_edge_fallback identity_filter1d named_kinds
           constant_fit (fun _ _ => eq_refl) [1; 3; 2] 1 50 10 (KindInt 3)
           1%nat).
  - exact argmax_example.
  - simpl. lia.
Defined.

Lemma unknown_configuration_raises_witness :
  _find_peak_max identity_filter1d named_kinds refusing_fit [1; 3; 2] 1 50 1
    (KindStr "spline") = Raise NotImplementedError /\
  (forall kind',
     named_kinds kind' = true ->
     refusing_fit
       (linspace_nat (IZR (Z.of_nat 1 - 1)) (IZR (Z.of_nat 1 + 1))
          (Z.to_nat (2 * 1 + 1)))
       (slice (identity_filter1d [1; 3; 2] 1) (Z.of_nat 1 - 1)
          (Z.of_nat 1 + 1 + 1))
       kind' = Raise ValueError ->
     _find_peak_max identity_filter1d named_kinds refusing_fit [1; 3; 2]
       1 50 1 kind'
     = Ok (IZR (Z.of_nat 1))) /\
  subtract_background_median identity_median identity_median square_array 19
    "numpy" = Raise ValueError.
Proof.
  apply (unknown_configuration_raises identity_filter1d named_kinds
           refusing_fit identity_median identity_median [1; 3; 2] 1 50 1
           (KindStr "spline") 1%nat square_array 19 "numpy").
  - reflexivity.
  - lia.
  - reflexivity.
  - exact argmax_example.
  - simpl. lia.
  - simpl. lia.
  - discriminate.
  - discriminate.
Defined.

Lemma find_beam_center_blur_in_bounds_witness :
  exists row col,
    find_beam_center_blur identity_filter square_array 30 = Ok (row, col) /\
    (row < nrows square_array)%nat /\ (col < ncols square_array)%nat /\
    forall i j, (i < nrows square_array)%nat -> (j < ncols square_array)%nat ->
      get (identity_filter square_array 30 "wrap") i j
      <= get (identity_filter square_array 30 "wrap") row col.
Proof.
  apply (find_beam_center_blur_in_bounds identity_filter
           (fun _ _ _ => eq_refl) (fun _ _ _ => eq_refl) square_array 30).
  - reflexivity.
  - simpl. lia.
Defined.

End PeakFacts.

(** * The cross-correlation radius search *)

Module CrossCorrelationFacts.
Import Numpy NumpyFacts EllipseFacts BeamCenterEstimators Examples.

Lemma firstn_succ_nth_error {A : Type} (l : list A) (k : nat) (x : A) :
  nth_error l k = Some x -> firstn (S k) l = firstn k l ++ [x].
Proof.
  revert k. induction l as [|y t IH]; intros [|k] Hk; try discriminate.
  - simpl in Hk. injection Hk as ->. reflexivity.
  - simpl in Hk. cbn [firstn]. rewrite (IH k Hk). reflexivity.
Qed.

Lemma insert_middle (pre post : list R) (x y : R) :
  <[length pre := x]> (pre ++ y :: post) = pre ++ x :: post.
Proof.
  induction pre as [|p pre IH]; [reflexivity|].
  cbn. f_equal. exact IH.
Qed.

Lemma nth_error_arange (start stop : Z) (k : nat) :
  (k < Z.to_nat (stop - start))%nat ->
  nth_error (arange start stop) k = Some (start + Z.of_nat k)%Z.
Proof.
  intros Hk. rewrite (nth_error_nth' _ 0%Z) by (rewrite length_arange; lia).
  now rewrite nth_arange.
Qed.

Section CrossCorrelation.

Variable ellipse_perimeter : Z -> Z -> Z -> Z -> list (Z * Z).
Variable register_translation :
  ndarray -> ndarray -> Z -> result (list R * R * R).
Variable single : R -> R.

Local Abbreviation registration :=
  (windowed_registration ellipse_perimeter register_translation).
Local Abbreviation loop :=
  (radius_loop ellipse_perimeter register_translation single).
Local Abbreviation image_origin z :=
  [(Z.of_nat (round_half (nrows z)), Z.of_nat (round_half (ncols z)))].

(** The loop fills [errRecord] from left to right; once it has run at
    least once, [index_min] is the [argmin] of the filled record. *)
Lemma radius_loop_run (z : ndarray) (origin : list (Z * Z))
    (radiusList : list Z) (err : Z -> R) :
  (forall r, In r radiusList ->
     exists shift dp, registration z origin r 10 = Ok (shift, err r, dp)) ->
  forall (d k : nat) (errRecord : list R) (index_min : option nat),
    (k + d = length radiusList)%nat ->
    errRecord
    = map (fun r => single (err r)) (firstn k radiusList) ++ repeat 0 d ->
    exists index_min',
      loop z origin radiusList (seq k d) errRecord index_min
      = Ok (map (fun r => single (err r)) radiusList, index_min') /\
      (d = 0%nat -> index_min' = index_min) /\
      ((0 < d)%nat ->
       exists i, index_min' = Some i /\
         argmin (map (fun r => single (err r)) radiusList) = Ok i).
Proof.
  intros Hreg. induction d as [|d IH]; intros k errRecord index_min Hk Hrec.
  - exists index_min. cbn [seq radius_loop].
    rewrite Hrec, firstn_all2, app_nil_r by lia.
    split; [reflexivity|]. split; [reflexivity | lia].
  - cbn [seq radius_loop].
    destruct (nth_error radiusList k) as [r|] eqn:Hr;
      [|apply nth_error_None in Hr; lia].
    cbn [result_bind].
    destruct (Hreg r (nth_error_In _ _ Hr)) as (shift & dp & ->).
    cbn [result_bind].
    assert (Hlen : length (map (fun r => single (err r)) (firstn k radiusList))
                   = k) by (rewrite length_map, length_firstn; lia).
    assert (Hk' : (k < length errRecord)%nat)
      by (rewrite Hrec, length_app, Hlen, repeat_length; lia).
    destruct (Nat.ltb_spec k (length errRecord)) as [_|?]; [|lia].
    cbn [result_bind].
    assert (Hrec' : <[k := single (err r)]> errRecord
              = map (fun r => single (err r)) (firstn (S k) radiusList)
                ++ repeat 0 d).
    { rewrite Hrec. cbn [repeat].
      rewrite <- Hlen at 1. rewrite insert_middle.
      rewrite (firstn_succ_nth_error _ _ _ Hr), map_app, <- app_assoc.
      reflexivity. }
    rewrite Hrec'.
    destruct (argmin_spec
                (map (fun r => single (err r)) (firstn (S k) radiusList)
                 ++ repeat 0 d)) as (i0 & Hi0 & _).
    { rewrite (firstn_succ_nth_error _ _ _ Hr), map_app.
      intros Hnil. apply app_eq_nil in Hnil as [Hnil _].
      apply app_eq_nil in Hnil as [_ Hnil]. discriminate. }
    rewrite Hi0. cbn [result_bind].
    destruct (IH (S k) _ (Some i0) ltac:(lia) eq_refl)
      as (im' & Hloop & Hzero & Hpos).
    exists im'. split; [exact Hloop|]. split; [lia|].
    intros _. destruct d as [|d'].
    + exists i0. split; [now apply Hzero|].
      rewrite firstn_all2, app_nil_r in Hi0 by lia. exact Hi0.
    + apply Hpos. lia.
Qed.

(** C3: one rounded error is recorded per radius of
    [[radius_start, radius_finish)]; the radius selected has the least
    recorded error and is the smallest with that error; the result is
    the shift registered at that radius with upsample factor 100, less
    0.5 in each component. *)
Theorem find_beam_offset_cross_correlation_selects_min (z : ndarray)
    (radius_start radius_finish : Z) (err : Z -> R) :
  (radius_start < radius_finish)%Z ->
  (forall r, (radius_start <= r < radius_finish)%Z ->
     exists shift dp,
       registration z (image_origin z) r 10 = Ok (shift, err r, dp)) ->
  exists best,
    (radius_start <= best < radius_finish)%Z /\
    (forall r, (radius_start <= r < radius_finish)%Z ->
       single (err best) <= single (err r)) /\
    (forall r, (radius_start <= r < best)%Z ->
       single (err best) < single (err r)) /\
    loop z (image_origin z) (arange radius_start radius_finish)
      (seq 0 (length (arange radius_start radius_finish)))
      (repeat 0 (length (arange radius_start radius_finish))) None
    = Ok (map (fun r => single (err r)) (arange radius_start radius_finish),
          Some (Z.to_nat (best - radius_start))) /\
    find_beam_offset_cross_correlation ellipse_perimeter
      register_translation single z radius_start radius_finish
    = (let* reg := registration z (image_origin z) best 100 in
       let '(shift, error, diffphase) := reg in
       Ok (map (fun s => s - 0.5) shift)).
Proof.
  intros Hrange Hreg.
  set (radiusList := arange radius_start radius_finish).
  set (n := Z.to_nat (radius_finish - radius_start)).
  assert (Hn : length radiusList = n) by apply length_arange.
  assert (Hin : forall r, In r radiusList ->
            exists shift dp,
              registration z (image_origin z) r 10 = Ok (shift, err r, dp)).
  { intros r Hr. apply Hreg. unfold radiusList, arange in Hr.
    apply in_map_iff in Hr as (i & <- & Hi). apply in_seq in Hi. lia. }
  destruct (radius_loop_run z (image_origin z) radiusList err Hin
              (length radiusList) 0 (repeat 0 (length radiusList)) None
              ltac:(lia) eq_refl)
    as (im & Hloop & _ & Hpos).
  destruct Hpos as (i & -> & Hargmin); [lia|].
  destruct (argmin_spec (map (fun r => single (err r)) radiusList))
    as (i' & Hi' & Hilt & Hmin & Hfirst).
  { intros Hnil. apply (f_equal (@length R)) in Hnil.
    rewrite length_map in Hnil. simpl in Hnil. lia. }
  rewrite Hargmin in Hi'. injection Hi' as <-.
  rewrite length_map, Hn in Hilt, Hmin.
  assert (Hnth : forall j, (j < n)%nat ->
            nth j (map (fun r => single (err r)) radiusList) 0
            = single (err (radius_start + Z.of_nat j)%Z)).
  { intros j Hj. rewrite (nth_map_in _ _ 0%Z) by lia.
    unfold radiusList. now rewrite nth_arange. }
  exists (radius_start + Z.of_nat i)%Z.
  split; [lia|]. split; [|split; [|split]].
  - intros r Hr.
    specialize (Hmin (Z.to_nat (r - radius_start)) ltac:(lia)).
    rewrite !Hnth in Hmin by lia.
    now replace (radius_start + Z.of_nat (Z.to_nat (r - radius_start)))%Z
      with r in Hmin by lia.
  - intros r Hr.
    specialize (Hfirst (Z.to_nat (r - radius_start)) ltac:(lia)).
    rewrite !Hnth in Hfirst by lia.
    now replace (radius_start + Z.of_nat (Z.to_nat (r - radius_start)))%Z
      with r in Hfirst by lia.
  - rewrite Hloop. do 3 f_equal. lia.
  - unfold find_beam_offset_cross_correlation.
    fold radiusList. rewrite Hloop. cbn [result_bind].
    unfold radiusList. rewrite nth_error_arange by (fold n; lia).
    reflexivity.
Qed.

End CrossCorrelation.

Lemma find_beam_offset_cross_correlation_selects_min_witness :
  exists best,
    (1 <= best < 4)%Z /\
    (forall r, (1 <= r < 4)%Z -> 5 <= 5) /\
    (forall r, (1 <= r < best)%Z -> 5 < 5) /\
    radius_loop empty_perimeter constant_registration (fun e => e)
      square_array
      [(Z.of_nat (round_half (nrows square_array)),
        Z.of_nat (round_half (ncols square_array)))]
      (arange 1 4) (seq 0 (length (arange 1 4)))
      (repeat 0 (length (arange 1 4))) None
    = Ok (map (fun _ : Z => 5) (arange 1 4), Some (Z.to_nat (best - 1))) /\
    find_beam_offset_cross_correlation empty_perimeter constant_registration
      (fun e => e) square_array 1 4
    = (let* reg :=
         windowed_registration empty_perimeter constant_registration
           square_array
           [(Z.of_nat (round_half (nrows square_array)),
             Z.of_nat (round_half (ncols square_array)))] best 100 in
       let '(shift, error, diffphase) := reg in
       Ok (map (fun s => s - 0.5) shift)).
Proof.
  apply (find_beam_offset_cross_correlation_selects_min empty_perimeter
           constant_registration (fun e => e) square_array 1 4 (fun _ => 5)).
  - lia.
  - intros r _. exists [1; 2], 0. reflexivity.
Defined.

End CrossCorrelationFacts.

(** * Coordinate transforms: ranges and the other round trip *)

Module CoordinateTransformMore.
Import CoordinateTransform.

Lemma arctan2_range (y x : R) : - PI < arctan2 y x <= PI.
Proof.
  unfold arctan2.
  pose proof PI_RGT_0 as Hpi.
  pose proof (atan_bound (y / x)) as Hb.
  destruct (Rlt_dec 0 x) as [Hx|Hx]; [lra|].
  destruct (Rlt_dec x 0) as [Hx'|Hx'].
  - assert (Hinv : / x < 0) by now apply Rinv_lt_0_compat.
    destruct (Rle_dec 0 y) as [Hy|Hy].
    + assert (Hq : y / x <= 0) by (unfold Rdiv; nra).
      assert (Ha : atan (y / x) <= 0).
      { destruct Hq as [Hq|Hq].
        - left. rewrite <- atan_0. now apply atan_increasing.
        - rewrite Hq, atan_0. lra. }
      lra.
    + assert (Hq : 0 < y / x) by (unfold Rdiv; nra).
      assert (Ha : 0 < atan (y / x))
        by (rewrite <- atan_0; now apply atan_increasing).
      lra.
  - destruct (Rlt_dec 0 y); [lra|]. destruct (Rlt_dec y 0); lra.
Qed.

(** The polar coordinates computed by [_cart2polar] have a radius that
    is not negative and an angle between [-PI] and [PI], both
    included.  (Over the reals the angle stays below [PI]; the floats
    reach [PI] at a negative zero [y] with [x < 0], which is why the
    bound is stated as closed.) *)
Theorem cart2polar_range (x y : R) :
  0 <= fst (_cart2polar x y) /\
  - PI <= snd (_cart2polar x y) <= PI.
Proof.
  unfold _cart2polar. cbn [fst snd]. split.
  - apply sqrt_pos.
  - pose proof (arctan2_range y x). lra.
Qed.

Lemma tan_shift_PI (x : R) : cos x <> 0 -> tan (x + PI) = tan x.
Proof.
  intros Hc. unfold tan. rewrite neg_sin, neg_cos. field. exact Hc.
Qed.

(** The angle of the point at angle [phi] on a circle is [phi]. *)
Lemma arctan2_polar (r phi : R) :
  0 < r -> - PI < phi <= PI ->
  arctan2 (r * sin phi) (r * cos phi) = phi.
Proof.
  intros Hr Hphi. pose proof PI_RGT_0 as Hpi.
  destruct (Rlt_dec phi (- (PI / 2))) as [Hlow|Hlow].
  - (* third quadrant *)
    assert (Hc : cos phi < 0).
    { rewrite <- cos_neg. apply cos_lt_0; lra. }
    assert (Hs : sin phi < 0) by (apply sin_lt_0_var; lra).
    unfold arctan2.
    destruct (Rlt_dec 0 (r * cos phi)); [nra|].
    destruct (Rlt_dec (r * cos phi) 0); [|nra].
    destruct (Rle_dec 0 (r * sin phi)); [nra|].
    replace (r * sin phi / (r * cos phi)) with (tan phi)
      by (unfold tan; field; lra).
    rewrite <- (tan_shift_PI phi) by lra.
    rewrite atan_tan by lra. lra.
  - destruct (Req_dec_T phi (- (PI / 2))) as [Heq|Hne].
    + subst phi. unfold arctan2.
      rewrite cos_neg, sin_neg, cos_PI2, sin_PI2.
      destruct (Rlt_dec 0 (r * 0)); [lra|].
      destruct (Rlt_dec (r * 0) 0); [lra|].
      destruct (Rlt_dec 0 (r * - (1))); [lra|].
      destruct (Rlt_dec (r * - (1)) 0); lra.
    + destruct (Rlt_dec phi (PI / 2)) as [Hmid|Hmid].
      * (* right half plane *)
        assert (Hc : 0 < cos phi) by (apply cos_gt_0; lra).
        unfold arctan2.
        destruct (Rlt_dec 0 (r * cos phi)); [|nra].
        replace (r * sin phi / (r * cos phi)) with (tan phi)
          by (unfold tan; field; lra).
        apply atan_tan. lra.
      * destruct (Req_dec_T phi (PI / 2)) as [Heq|Hne'].
        -- subst phi. unfold arctan2. rewrite cos_PI2, sin_PI2.
           destruct (Rlt_dec 0 (r * 0)); [lra|].
           destruct (Rlt_dec (r * 0) 0); [lra|].
           destruct (Rlt_dec 0 (r * 1)); lra.
        -- (* second quadrant *)
           assert (Hc : cos phi < 0) by (apply cos_lt_0; lra).
           assert (Hs : 0 <= sin phi) by (apply sin_ge_0; lra).
           unfold arctan2.
           destruct (Rlt_dec 0 (r * cos phi)); [nra|].
           destruct (Rlt_dec (r * cos phi) 0); [|nra].
           destruct (Rle_dec 0 (r * sin phi)); [|nra].
           replace (r * sin phi / (r * cos phi)) with (tan phi)
             by (unfold tan; field; lra).
           assert (Hc' : cos (phi - PI) <> 0).
           { replace (phi - PI) with (- (PI - phi)) by ring.
             rewrite cos_neg, Rtrigo_facts.cos_pi_minus. lra. }
           replace phi with (phi - PI + PI) at 1 by ring.
           rewrite tan_shift_PI by exact Hc'.
           rewrite atan_tan by lra. lra.
Qed.

(** For a positive radius and an angle in [[-PI, PI)], [_cart2polar]
    applied to the result of [_polar2cart r theta] gives back
    [(r, theta)]. *)
Theorem cart2polar_polar2cart (r theta : R) :
  0 < r -> - PI <= theta < PI ->
  _cart2polar (fst (_polar2cart r theta)) (snd (_polar2cart r theta))
  = (r, theta).
Proof.
  intros Hr Htheta. unfold _polar2cart, _cart2polar. cbn [fst snd].
  f_equal.
  - replace ((r * cos theta) ^ 2 + (- r * sin theta) ^ 2)
      with (r² * ((sin theta)² + (cos theta)²)) by (unfold Rsqr; ring).
    rewrite sin2_cos2, Rmult_1_r. apply sqrt_Rsqr. lra.
  - replace (- r * sin theta) with (r * sin (- theta))
      by (rewrite sin_neg; ring).
    replace (r * cos theta) with (r * cos (- theta))
      by (rewrite cos_neg; ring).
    rewrite arctan2_polar by lra. ring.
Qed.

Lemma cart2polar_polar2cart_witness :
  _cart2polar (fst (_polar2cart 2 0)) (snd (_polar2cart 2 0)) = (2, 0).
Proof.
  apply (cart2polar_polar2cart 2 0).
  - lra.
  - pose proof PI_RGT_0. lra.
Defined.

End CoordinateTransformMore.

(** * Facts about broadcasting, tables and sums *)

Module NumpyMoreFacts.
Import Numpy NumpyFacts NumpyMore.

Lemma length_table_from {A : Type} (m : nat) (f : nat -> nat -> A)
    (n s : nat) :
  length (flat_map (fun i => map (f i) (seq 0 m)) (seq s n)) = (n * m)%nat.
Proof.
  revert s. induction n as [|n IH]; intros s; simpl; [reflexivity|].
  rewrite length_app, length_map, length_seq, IH. reflexivity.
Qed.

Lemma length_table {A : Type} (n m : nat) (f : nat -> nat -> A) :
  length (table n m f) = (n * m)%nat.
Proof.
  apply length_table_from.
Qed.

Lemma nth_table_from {A : Type} (m : nat) (f : nat -> nat -> A) (d : A)
    (n s i j : nat) :
  (i < n)%nat -> (j < m)%nat ->
  nth (i * m + j) (flat_map (fun i => map (f i) (seq 0 m)) (seq s n)) d
  = f (s + i)%nat j.
Proof.
  revert s i. induction n as [|n IH]; intros s i Hi Hj; [lia|].
  simpl. destruct i as [|i].
  - simpl. rewrite app_nth1 by (rewrite length_map, length_seq; lia).
    rewrite nth_map_seq by lia. now rewrite Nat.add_0_r.
  - rewrite app_nth2 by (rewrite length_map, length_seq; lia).
    rewrite length_map, length_seq.
    replace (S i * m + j - m)%nat with (i * m + j)%nat by lia.
    rewrite IH by lia. f_equal. lia.
Qed.

Lemma nth_table {A : Type} (n m : nat) (f : nat -> nat -> A) (d : A)
    (i j : nat) :
  (i < n)%nat -> (j < m)%nat -> nth (i * m + j) (table n m f) d = f i j.
Proof.
  intros Hi Hj. unfold table. now rewrite nth_table_from.
Qed.

Lemma in_range_flat (n m i j : nat) :
  (i < n)%nat -> (j < m)%nat -> (i * m + j < n * m)%nat.
Proof.
  intros Hi Hj. nia.
Qed.

Lemma broadcast_dim_same (n : nat) : broadcast_dim n n = Ok n.
Proof.
  unfold broadcast_dim. now rewrite Nat.eqb_refl.
Qed.

Lemma broadcast_shape_same (s : nat * nat) : broadcast_shape s s = Ok s.
Proof.
  unfold broadcast_shape. rewrite !broadcast_dim_same. cbn.
  now destruct s.
Qed.

Lemma bindex_in_range (s : nat * nat) (i j : nat) :
  (i < fst s)%nat -> (j < snd s)%nat ->
  bindex s i j = (i * snd s + j)%nat.
Proof.
  intros Hi Hj. unfold bindex.
  destruct (Nat.eqb_spec (fst s) 1); destruct (Nat.eqb_spec (snd s) 1); lia.
Qed.

Lemma bget_in_range (a : ndarray) (i j : nat) :
  (i < nrows a)%nat -> (j < ncols a)%nat -> bget a i j = get a i j.
Proof.
  intros Hi Hj. unfold bget, get. now rewrite bindex_in_range.
Qed.

(** An operator applied to two arrays of one shape. *)
Lemma broadcast2_same_shape (f : R -> R -> R) (a b : ndarray) :
  shape b = shape a ->
  exists c, broadcast2 f a b = Ok c /\
    shape c = shape a /\
    length (flat c) = (nrows a * ncols a)%nat /\
    forall i j, (i < nrows a)%nat -> (j < ncols a)%nat ->
      get c i j = f (get a i j) (get b i j).
Proof.
  intros Hs. unfold broadcast2. rewrite Hs, broadcast_shape_same.
  cbn [result_bind]. eexists. split; [reflexivity|].
  split; [reflexivity|]. split.
  - cbn [flat]. apply length_tabulate.
  - intros i j Hi Hj. unfold get at 1, ncols at 1. cbn [shape flat snd].
    fold (ncols a). rewrite nth_tabulate by assumption.
    rewrite !bget_in_range; unfold nrows, ncols; rewrite ?Hs;
      try assumption. reflexivity.
Qed.

Lemma Rsum_app (l k : list R) : Rsum (l ++ k) = Rsum l + Rsum k.
Proof.
  induction l as [|x l IH]; simpl; [lra|]. rewrite IH. lra.
Qed.

Lemma Rsum_const (c : R) (l : list R) :
  Forall (fun v => v = c) l -> Rsum l = INR (length l) * c.
Proof.
  induction 1 as [|x l Hx _ IH]; [simpl; lra|].
  cbn [Rsum fold_right length]. fold (Rsum l). rewrite IH, Hx, S_INR. lra.
Qed.

End NumpyMoreFacts.

(** * Index grids *)

Module IndexGridFacts.
Import Numpy NumpyFacts NumpyMore NumpyMoreFacts IndexGrid EllipseFacts.

(** The grids of [_index_coords] have the shape of the image, and at
    pixel [(i, j)] they hold the column index less the origin's x and
    the row index less the origin's y; without an origin, the origin is
    [(nx // 2, ny // 2)]. *)
Theorem index_coords_values (z : ndarray) (origin : option (R * R)) :
  let o := match origin with
           | None => (INR (ncols z / 2), INR (nrows z / 2))
           | Some o => o
           end in
  shape (fst (_index_coords z origin)) = (nrows z, ncols z) /\
  shape (snd (_index_coords z origin)) = (nrows z, ncols z) /\
  forall i j, (i < nrows z)%nat -> (j < ncols z)%nat ->
    get (fst (_index_coords z origin)) i j = INR j - fst o /\
    get (snd (_index_coords z origin)) i j = INR i - snd o.
Proof.
  intros o. unfold _index_coords, meshgrid.
  fold o. destruct o as [ox oy]. cbn [fst snd shape].
  rewrite !length_map, !length_seq.
  split; [reflexivity|]. split; [reflexivity|].
  intros i j Hi Hj. unfold get, ncols. cbn [shape flat snd].
  pose proof (in_range_flat _ _ _ _ Hi Hj) as Hin.
  rewrite !(nth_map_in _ _ 0) by (rewrite length_tabulate; exact Hin).
  rewrite !nth_tabulate by assumption.
  rewrite !nth_map_seq by assumption. split; reflexivity.
Qed.

End IndexGridFacts.

(** * Ellipse sampling with axes and rotation *)

Module EllipseMore.
Import Numpy NumpyFacts NumpyMore NumpyMoreFacts PolarReprojector EllipseFacts
  Examples.

Lemma get_map2 (f : R -> R -> R) (a b : ndarray) (i j : nat) :
  shape b = shape a ->
  (i * ncols a + j < length (flat a))%nat ->
  (i * ncols a + j < length (flat b))%nat ->
  get (map2 f a b) i j = f (get a i j) (get b i j).
Proof.
  intros Hs Ha Hb. unfold get, map2, ncols. cbn [shape flat].
  rewrite Hs. now apply nth_zip_with.
Qed.

(** For axis lengths that do not sum to zero (or none) and any angle,
    the sampling grids have shape [(len(radii), len(thetas))], and the
    squared distance of the point at [(i, j)] from the centre is
    [radii[i]^2 * ((h_o * sin(thetas[j]))^2 + (k_o * cos(thetas[j]))^2)]:
    the angle turns the points about the centre and does not move them
    nearer or farther. *)
Theorem ellipsoid_in_cartesian_distance (r_list theta_list : list R)
    (center : R * R) (axes_lengths : option (R * R)) (angle : option R) :
  (forall a b : R, axes_lengths = Some (a, b) -> a + b <> 0) ->
  let scales :=
    match axes_lengths with
    | Some (a, b) => (Rmax a b / ((a + b) / 2), Rmin a b / ((a + b) / 2))
    | None => (1, 1)
    end in
  exists X Y,
    ellipsoid_in_cartesian r_list theta_list center axes_lengths angle
    = Ok (X, Y) /\
    shape X = (length r_list, length theta_list) /\
    shape Y = (length r_list, length theta_list) /\
    forall i j, (i < length r_list)%nat -> (j < length theta_list)%nat ->
      (get X i j - fst center) ^ 2 + (get Y i j - snd center) ^ 2
      = nth i r_list 0 ^ 2 *
        ((fst scales * sin (nth j theta_list 0)) ^ 2
         + (snd scales * cos (nth j theta_list 0)) ^ 2).
Proof.
  intros Hsum scales. unfold ellipsoid_in_cartesian.
  destruct (ReprojectFacts.axes_scales axes_lengths Hsum)
    as (h_o & k_o & -> & Hscales).
  cbn [result_bind]. subst scales. rewrite <- Hscales. clear Hscales.
  destruct (matmul_column_row r_list (map sin theta_list))
    as (xc & Hxc & Hsx & Hlx & Hgx).
  destruct (matmul_column_row r_list (map cos theta_list))
    as (yc & Hyc & Hsy & Hly & Hgy).
  rewrite length_map in Hsx, Hsy, Hlx, Hly, Hgx, Hgy.
  assert (Hval : forall i j,
            (i < length r_list)%nat -> (j < length theta_list)%nat ->
            get xc i j = nth i r_list 0 * sin (nth j theta_list 0) /\
            get yc i j = nth i r_list 0 * cos (nth j theta_list 0)).
  { intros i j Hi Hj. rewrite Hgx, Hgy by assumption.
    now rewrite (nth_map_in sin _ 0), (nth_map_in cos _ 0). }
  rewrite Hxc, Hyc; cbn [result_bind];
    destruct angle as [alpha|]; cbn [fst snd];
    do 2 eexists; (split; [reflexivity|]);
    (split; [exact Hsx|]); (split; [exact Hsy|]);
    intros i j Hi Hj;
    pose proof (in_range_flat _ _ _ _ Hi Hj) as Hin;
    destruct (Hval i j Hi Hj) as [Hx Hy];
    pose proof (sin2_cos2 alpha) as Hsc || idtac.
  all: rewrite !get_add_scalar
         by (unfold ncols; cbn [shape flat map2 scale snd];
             rewrite ?length_zip_with, ?length_map, ?Hsx, ?Hsy, ?Hlx, ?Hly;
             cbn [snd]; lia).
  all: rewrite ?get_map2
         by (try reflexivity; unfold ncols; cbn [shape flat scale snd];
             rewrite ?length_map, ?Hsx, ?Hsy, ?Hlx, ?Hly; cbn [snd];
             try exact Hsy; try exact Hsx; try lia; congruence).
  all: rewrite !get_scale
         by (unfold ncols; cbn [shape flat scale snd];
             rewrite ?length_map, ?Hsx, ?Hsy, ?Hlx, ?Hly; cbn [snd]; lia).
  all: rewrite Hx, Hy.
  - unfold Rsqr in Hsc.
    transitivity
      (nth i r_list 0 ^ 2 *
       ((h_o * sin (nth j theta_list 0)) ^ 2
        + (k_o * cos (nth j theta_list 0)) ^ 2)
       * (sin alpha * sin alpha + cos alpha * cos alpha)); [ring|].
    rewrite Hsc. ring.
  - ring.
Qed.


Lemma ellipsoid_in_cartesian_distance_witness :
  exists X Y,
    ellipsoid_in_cartesian [1; 2] [0] (0, 0) (Some (2, 1)) (Some 0)
    = Ok (X, Y) /\
    shape X = (length [1; 2], length [0]) /\
    shape Y = (length [1; 2], length [0]) /\
    forall i j, (i < length [1; 2])%nat -> (j < length [0])%nat ->
      (get X i j - fst (0, 0)) ^ 2 + (get Y i j - snd (0, 0)) ^ 2
      = nth i [1; 2] 0 ^ 2 *
        ((fst (Rmax 2 1 / ((2 + 1) / 2), Rmin 2 1 / ((2 + 1) / 2))
          * sin (nth j [0] 0)) ^ 2
         + (snd (Rmax 2 1 / ((2 + 1) / 2), Rmin 2 1 / ((2 + 1) / 2))
            * cos (nth j [0] 0)) ^ 2).
Proof.
  apply (ellipsoid_in_cartesian_distance [1; 2] [0] (0, 0) (Some (2, 1))
           (Some 0)).
  intros a b Heq. injection Heq as <- <-. lra.
Defined.


End EllipseMore.

(** * Polar reprojection: what the call does to the store *)

Module ReprojectMore.
Import Numpy NumpyFacts PolarReprojector ReprojectFacts Examples.

Section Reproject.

Variable spline : Type.
Variable RectBivariateSpline : list R -> list R -> ndarray -> result spline.
Variable spline_ev : spline -> R -> R -> R.

Local Abbreviation reproject :=
  (reproject_cartesian_to_polar spline RectBivariateSpline spline_ev).

(** A negative [phase_width] is refused by [np.linspace] before
    anything is written: the call raises [ValueError] and the store is
    as it was, also for a masked image. *)
Theorem reproject_negative_phase_width (img : image)
    (center : option (R * R)) (angle : option R) (lengths : option (R * R))
    (radius : Z * Z) (phase_width : Z) (s : store) :
  (phase_width < 0)%Z ->
  reproject img center angle lengths radius phase_width s
  = (s, Raise ValueError).
Proof.
  intros Hpw. unfold reproject_cartesian_to_polar, linspace.
  destruct (Z.ltb_spec phase_width 0) as [_|?]; [|lia].
  reflexivity.
Qed.

(** For [radius[0] <= radius[1]], [phase_width >= 0] and axis lengths
    that, if given, do not sum to zero: on an image without a mask on
    which the spline can be built, the call returns an array at a
    location that was not in use and leaves every buffer of the store
    as it was. *)
Theorem reproject_unmasked_leaves_store (img : image)
    (center : option (R * R)) (angle : option R) (lengths : option (R * R))
    (r0 r1 pw : Z) (s : store) (sp : spline) :
  (r0 <= r1)%Z -> (0 <= pw)%Z -> axes_sum_nonzero lengths ->
  img_mask img = None ->
  RectBivariateSpline
    (map INR (seq 0 (snd (img_shape img))))
    (map INR (seq 0 (fst (img_shape img))))
    (mk_ndarray (img_shape img) (default [] (s !! img_data img))) = Ok sp ->
  exists s' out,
    reproject img center angle lengths (r0, r1) pw s = (s', Ok out) /\
    s !! ref_loc out = None /\
    forall l, l <> ref_loc out -> s' !! l = s !! l.
Proof.
  intros Hr Hpw Hsum Hmask Hsp.
  pose proof (mask_to_sentinel_no_mask img s Hmask) as Hm.
  destruct (reproject_ok_intro spline RectBivariateSpline spline_ev
              img center angle lengths r0 r1 pw s s sp Hr Hpw Hsum Hm Hsp)
    as (s' & out & Hrun).
  exists s', out. split; [exact Hrun|].
  destruct (reproject_ok_inv _ _ _ _ _ _ _ _ _ _ _ _ _ Hr Hpw Hrun)
    as (s1 & sp' & a & Hm' & _ & _ & -> & ->).
  rewrite Hm in Hm'. injection Hm' as <-. cbn [ref_loc]. split.
  - apply not_elem_of_dom. apply is_fresh.
  - intros l Hl. now rewrite lookup_insert_ne.
Qed.

(** For [radius[0] <= radius[1]], [phase_width >= 0] and axis lengths
    that, if given, do not sum to zero: on a masked image of floats the
    call writes into the buffer of the image.  Afterwards that buffer
    holds [-999999] at every masked pixel and its old value at every
    other pixel, whether or not the spline can be built; every other
    buffer of the store is as it was. *)
Theorem reproject_masked_buffer (img : image)
    (center : option (R * R)) (angle : option R) (lengths : option (R * R))
    (r0 r1 pw : Z) (s : store) (mask : list bool) (buf : list R) :
  (r0 <= r1)%Z -> (0 <= pw)%Z -> axes_sum_nonzero lengths ->
  img_mask img = Some mask ->
  s !! img_data img = Some buf ->
  length mask = length buf ->
  fst (reproject img center angle lengths (r0, r1) pw s) !! img_data img
  = Some (zip_with (fun (b : bool) x => if b then -999999 else x) mask buf) /\
  forall l other, l <> img_data img -> s !! l = Some other ->
    fst (reproject img center angle lengths (r0, r1) pw s) !! l = Some other.
Proof.
  intros Hr Hpw Hsum Hmask Hbuf Hlen.
  destruct (reproject_run spline RectBivariateSpline spline_ev
              img center angle lengths r0 r1 pw s Hr Hpw Hsum)
    as (X & Y & _ & _ & _ & ->).
  rewrite (mask_to_sentinel_mask img s mask Hmask)
    by (rewrite Hbuf; exact Hlen).
  rewrite Hbuf. cbn [default].
  set (buf' := zip_with _ mask buf).
  set (s1 := <[img_data img := buf']> s).
  assert (Hs1 : s1 !! img_data img = Some buf')
    by (subst s1; apply lookup_insert_eq).
  assert (Hother : forall l other, l <> img_data img ->
            s !! l = Some other -> s1 !! l = Some other).
  { intros l other Hl Hs. subst s1. now rewrite lookup_insert_ne. }
  assert (Hfresh : forall l v, s1 !! l = Some v -> fresh (dom s1) <> l).
  { intros l v Hl Heq. pose proof (is_fresh (dom s1)) as Hf.
    apply Hf. rewrite Heq. apply elem_of_dom. eauto. }
  destruct (RectBivariateSpline _ _ _) as [sp|e]; cbn [fst].
  - unfold new_array. cbn [fst]. split.
    + rewrite lookup_insert_ne; [exact Hs1 | now apply (Hfresh _ buf')].
    + intros l other Hl Hs.
      rewrite lookup_insert_ne; [now apply Hother|].
      apply (Hfresh _ other). now apply Hother.
  - split; [exact Hs1 | exact Hother].
Qed.

End Reproject.

Lemma reproject_negative_phase_width_witness :
  reproject_cartesian_to_polar unit flat_spline flat_spline_ev
    masked_square_image None None None (0, 2)%Z (-1)%Z square_store
  = (square_store, Raise ValueError).
Proof.
  apply (reproject_negative_phase_width unit flat_spline flat_spline_ev).
  lia.
Defined.

Lemma reproject_unmasked_leaves_store_witness :
  exists s' out,
    reproject_cartesian_to_polar unit flat_spline flat_spline_ev
      square_image None None (Some (2, 1)) (0, 2)%Z 3%Z square_store
    = (s', Ok out) /\
    square_store !! ref_loc out = None /\
    forall l, l <> ref_loc out -> s' !! l = square_store !! l.
Proof.
  apply (reproject_unmasked_leaves_store unit flat_spline flat_spline_ev
           square_image None None (Some (2, 1)) 0 2 3 square_store tt).
  - lia.
  - lia.
  - intros a b Heq. injection Heq as <- <-. lra.
  - reflexivity.
  - reflexivity.
Defined.

Lemma reproject_masked_buffer_witness :
  fst (reproject_cartesian_to_polar unit flat_spline flat_spline_ev
         masked_square_image None None None (0, 1)%Z 4%Z square_store)
    !! img_data masked_square_image
  = Some (zip_with (fun (b : bool) x => if b then -999999 else x)
            [true; false; false; false] [1; 2; 3; 4]) /\
  forall l other, l <> img_data masked_square_image ->
    square_store !! l = Some other ->
    fst (reproject_cartesian_to_polar unit flat_spline flat_spline_ev
           masked_square_image None None None (0, 1)%Z 4%Z square_store)
      !! l = Some other.
Proof.
  apply (reproject_masked_buffer unit flat_spline flat_spline_ev
           masked_square_image None None None 0 1 4 square_store
           [true; false; false; false] [1; 2; 3; 4]).
  - lia.
  - lia.
  - intros a b Heq. discriminate.
  - reflexivity.
  - reflexivity.
  - reflexivity.
Defined.

End ReprojectMore.

(** * Peak location and beam estimators: bounds, ties, small inputs *)

Module EstimatorsMore.
Import Numpy NumpyFacts NumpyMore NumpyMoreFacts PeakLocator1D
  BeamCenterEstimators MarginalEstimator PeakFacts Examples.

Lemma argmax_raises_ValueError (l : list R) (e : exn) :
  argmax l = Raise e -> e = ValueError.
Proof.
  destruct l; simpl; intros H; [now injection H | discriminate].
Qed.

Section FindPeakMax.

Variable gaussian_filter1d : list R -> R -> list R.
Variable kind_supported : kind_t -> bool.
Variable fit : list R -> list R -> kind_t -> result interpolant.

Local Abbreviation find_peak_max :=
  (_find_peak_max gaussian_filter1d kind_supported fit).

Lemma find_peak_max_window_bounds (arr : list R) (sigma : R)
    (upsample_factor window : Z) (kind : kind_t) (c1 : nat) :
  (forall x y k f xs ys,
     fit x y k = Ok f -> f xs = Ok ys -> length ys = length xs) ->
  (0 <= window)%Z -> (0 < upsample_factor)%Z ->
  argmax (gaussian_filter1d arr sigma) = Ok c1 ->
  match find_peak_max arr sigma upsample_factor window kind with
  | Ok center =>
    IZR (Z.of_nat c1) - IZR window <= center
    < IZR (Z.of_nat c1) + IZR window + 1
  | Raise e => e <> ValueError
  end.
Proof.
  intros Hfit Hw Hm Hc1.
  assert (HW : 0 <= IZR window) by now apply IZR_le.
  assert (HM : 0 < IZR upsample_factor) by now apply IZR_lt.
  assert (Hfallback :
            IZR (Z.of_nat c1) - IZR window <= IZR (Z.of_nat c1)
            < IZR (Z.of_nat c1) + IZR window + 1) by lra.
  unfold _find_peak_max. rewrite Hc1. cbn [result_bind].
  unfold linspace.
  destruct (Z.ltb_spec (2 * window + 1) 0) as [?|_]; [lia|].
  cbn [result_bind].
  destruct (interp1d kind_supported fit _ _ kind) as [f|e] eqn:Hint;
    [|destruct e; cbn [result_bind]; (exact Hfallback || discriminate)].
  cbn [result_bind].
  destruct (Z.ltb_spec ((2 * window + 1) * upsample_factor) 0) as [?|_];
    [nia|].
  cbn [result_bind].
  set (r2 := linspace_nat _ _ _).
  destruct (f r2) as [y2|e] eqn:Hy2;
    [|destruct e; cbn [result_bind]; (exact Hfallback || discriminate)].
  cbn [result_bind].
  destruct (argmax y2) as [i2|e] eqn:Hi2.
  - cbn [result_bind].
    pose proof (argmax_ok_lt _ _ Hi2) as Hlt.
    assert (Hfit' : fit (linspace_nat (IZR (Z.of_nat c1 - window))
                           (IZR (Z.of_nat c1 + window))
                           (Z.to_nat (2 * window + 1)))
                      (slice (gaussian_filter1d arr sigma)
                         (Z.of_nat c1 - window) (Z.of_nat c1 + window + 1))
                      kind = Ok f).
    { unfold interp1d in Hint.
      destruct (negb _); [discriminate|].
      destruct (negb _); [discriminate|]. exact Hint. }
    rewrite (Hfit _ _ _ _ _ _ Hfit' Hy2) in Hlt.
    subst r2. rewrite length_linspace_nat in Hlt.
    assert (Hi : INR i2 < (2 * IZR window + 1) * IZR upsample_factor).
    { rewrite INR_IZR_INZ.
      replace ((2 * IZR window + 1) * IZR upsample_factor)
        with (IZR ((2 * window + 1) * upsample_factor))
        by (rewrite mult_IZR, plus_IZR, mult_IZR; reflexivity).
      apply IZR_lt. lia. }
    pose proof (pos_INR i2) as Hi0.
    set (q := INR i2 / IZR upsample_factor).
    assert (Hq : q * IZR upsample_factor = INR i2)
      by (unfold q; field; lra).
    assert (0 <= q < 2 * IZR window + 1) by (split; nra).
    lra.
  - apply argmax_raises_ValueError in Hi2. subst e.
    cbn [result_bind]. exact Hfallback.
Qed.

(** For [window >= 0], [upsample_factor > 0] and an interpolant that
    returns one value per requested position.  On an empty smoothed
    signal [_find_peak_max] raises [ValueError]: [np.argmax] stands
    before the [try].  On a non-empty one no [ValueError] reaches the
    caller, whatever the interpolation does, and a position that is
    returned lies in [[c1 - window, c1 + window + 1)] around the
    smoothed argmax [c1]. *)
Theorem find_peak_max_within_window (arr : list R) (sigma : R)
    (upsample_factor window : Z) (kind : kind_t) :
  (forall x y k f xs ys,
     fit x y k = Ok f -> f xs = Ok ys -> length ys = length xs) ->
  (0 <= window)%Z -> (0 < upsample_factor)%Z ->
  (gaussian_filter1d arr sigma = [] ->
   find_peak_max arr sigma upsample_factor window kind = Raise ValueError) /\
  (gaussian_filter1d arr sigma <> [] ->
   exists c1,
     argmax (gaussian_filter1d arr sigma) = Ok c1 /\
     (c1 < length (gaussian_filter1d arr sigma))%nat /\
     match find_peak_max arr sigma upsample_factor window kind with
     | Ok center =>
       IZR (Z.of_nat c1) - IZR window <= center
       < IZR (Z.of_nat c1) + IZR window + 1
     | Raise e => e <> ValueError
     end).
Proof.
  intros Hfit Hw Hm. split.
  - intros Hnil. unfold _find_peak_max. now rewrite Hnil.
  - intros Hne.
    destruct (argmax_spec _ Hne) as (c1 & Hc1 & Hlt & _).
    exists c1. split; [exact Hc1|]. split; [exact Hlt|].
    now apply find_peak_max_window_bounds.
Qed.

Hypothesis gaussian_filter1d_length :
  forall arr sigma, length (gaussian_filter1d arr sigma) = length arr.

(** A signal shorter than the window of [2 * window + 1] samples is
    never refined. *)
Lemma find_peak_max_short_signal (arr : list R) (sigma : R)
    (upsample_factor window : Z) (kind : kind_t) (c1 : nat) :
  argmax (gaussian_filter1d arr sigma) = Ok c1 ->
  (Z.of_nat (length arr) < 2 * window + 1)%Z ->
  find_peak_max arr sigma upsample_factor window kind
  = Ok (IZR (Z.of_nat c1)).
Proof.
  intros Hc1 Hshort.
  pose proof (argmax_ok_lt _ _ Hc1) as Hlt.
  assert (Hedge : (Z.of_nat c1 - window < 0
                   \/ Z.of_nat (length (gaussian_filter1d arr sigma)) - 1
                      < Z.of_nat c1 + window)%Z)
    by (rewrite gaussian_filter1d_length; lia).
  pose proof (window_slice_short _ _ _ Hlt Hedge) as Hslice.
  unfold _find_peak_max. rewrite Hc1. cbn [result_bind].
  unfold linspace at 1.
  destruct (Z.ltb_spec (2 * window + 1) 0) as [Hneg|Hpos];
    [reflexivity|].
  cbn [result_bind]. unfold interp1d.
  rewrite length_linspace_nat.
  destruct (Nat.eqb_spec (Z.to_nat (2 * window + 1))
              (length (slice (gaussian_filter1d arr sigma)
                         (Z.of_nat c1 - window)
                         (Z.of_nat c1 + window + 1)))) as [Heq|Hne];
    [lia|].
  reflexivity.
Qed.

(** On an image with fewer than 21 rows and fewer than 21 columns the
    marginal-sum estimator returns the integer argmax of the smoothed
    row sums and of the smoothed column sums: with the window of 10
    samples either side no refinement takes place, whatever the kind
    and the upsample factor. *)
Theorem find_beam_center_interpolate_small_image (img : ndarray)
    (sigma : R) (upsample_factor : Z) (kind : kind_t) :
  (0 < nrows img < 21)%nat -> (0 < ncols img < 21)%nat ->
  exists cx cy,
    argmax (gaussian_filter1d (sum_axis1 img) sigma) = Ok cx /\
    argmax (gaussian_filter1d (sum_axis0 img) sigma) = Ok cy /\
    (cx < nrows img)%nat /\ (cy < ncols img)%nat /\
    find_beam_center_interpolate gaussian_filter1d kind_supported fit img
      sigma upsample_factor kind
    = Ok (IZR (Z.of_nat cx), IZR (Z.of_nat cy)).
Proof.
  intros Hrows Hcols.
  assert (Hlx : length (sum_axis1 img) = nrows img)
    by (unfold sum_axis1; now rewrite length_map, length_seq).
  assert (Hly : length (sum_axis0 img) = ncols img)
    by (unfold sum_axis0; now rewrite length_map, length_seq).
  destruct (argmax_spec (gaussian_filter1d (sum_axis1 img) sigma))
    as (cx & Hcx & Hcxlt & _).
  { intros Hnil. apply (f_equal (@length R)) in Hnil.
    rewrite gaussian_filter1d_length, Hlx in Hnil. simpl in Hnil. lia. }
  destruct (argmax_spec (gaussian_filter1d (sum_axis0 img) sigma))
    as (cy & Hcy & Hcylt & _).
  { intros Hnil. apply (f_equal (@length R)) in Hnil.
    rewrite gaussian_filter1d_length, Hly in Hnil. simpl in Hnil. lia. }
  rewrite gaussian_filter1d_length, Hlx in Hcxlt.
  rewrite gaussian_filter1d_length, Hly in Hcylt.
  exists cx, cy. repeat (split; [assumption|]).
  unfold find_beam_center_interpolate.
  rewrite (find_peak_max_short_signal _ _ _ _ _ cx Hcx) by (rewrite Hlx; lia).
  rewrite (find_peak_max_short_signal _ _ _ _ _ cy Hcy) by (rewrite Hly; lia).
  reflexivity.
Qed.

End FindPeakMax.

Section Blur.

Variable gaussian_filter : ndarray -> R -> string -> ndarray.

Hypothesis gaussian_filter_shape :
  forall z sigma mode, shape (gaussian_filter z sigma mode) = shape z.
Hypothesis gaussian_filter_length :
  forall z sigma mode,
    length (flat (gaussian_filter z sigma mode)) = length (flat z).

(** On a non-empty image the blur estimator returns a pixel at which
    the blurred image takes its largest value and, when it takes that
    value at several pixels, the first of them in row-major order. *)
Theorem find_beam_center_blur_first_maximum (z : ndarray) (sigma : R) :
  wf_ndarray z ->
  (0 < nrows z * ncols z)%nat ->
  exists row col,
    find_beam_center_blur gaussian_filter z sigma = Ok (row, col) /\
    (row < nrows z)%nat /\ (col < ncols z)%nat /\
    forall i j, (i < nrows z)%nat -> (j < ncols z)%nat ->
      get (gaussian_filter z sigma "wrap") i j
      <= get (gaussian_filter z sigma "wrap") row col /\
      (get (gaussian_filter z sigma "wrap") i j
       = get (gaussian_filter z sigma "wrap") row col ->
       (row < i \/ (row = i /\ col <= j))%nat).
Proof.
  intros Hwf Hpos. unfold find_beam_center_blur.
  set (blurred := gaussian_filter z sigma "wrap").
  assert (Hlen : length (flat blurred) = (nrows z * ncols z)%nat)
    by (subst blurred; rewrite gaussian_filter_length; exact Hwf).
  assert (Hshape : shape blurred = (nrows z, ncols z))
    by (subst blurred; rewrite gaussian_filter_shape;
        unfold nrows, ncols; now destruct (shape z)).
  assert (Hne : flat blurred <> [])
    by (intros Heq; rewrite Heq in Hlen; simpl in Hlen; lia).
  destruct (argmax_spec _ Hne) as (k & Hk & Hklt & Hmax & Hfirst).
  rewrite Hk. cbn [result_bind]. unfold unravel_index.
  rewrite Hshape. cbn [fst snd]. rewrite Hlen in Hklt.
  destruct (Nat.ltb_spec k (nrows z * ncols z)) as [_|?]; [|lia].
  cbn [result_bind].
  assert (Hc : ncols z <> 0%nat) by lia.
  exists (k / ncols z)%nat, (k mod ncols z)%nat.
  split; [reflexivity|].
  split; [apply Nat.Div0.div_lt_upper_bound; lia|].
  split; [now apply Nat.mod_upper_bound|].
  intros i j Hi Hj. unfold get.
  replace (ncols blurred) with (ncols z)
    by (unfold ncols; now rewrite Hshape).
  pose proof (Nat.div_mod_eq k (ncols z)) as Hdm.
  pose proof (Nat.mod_upper_bound k (ncols z) Hc) as Hmod.
  replace (k / ncols z * ncols z + k mod ncols z)%nat with k by lia.
  split; [apply Hmax; rewrite Hlen; nia|].
  intros Heq.
  destruct (Nat.lt_ge_cases (i * ncols z + j) k) as [Hlt|Hge].
  - specialize (Hfirst _ Hlt). lra.
  - destruct (Nat.lt_trichotomy (k / ncols z) i) as [?|[Heq'|Hgt]].
    + left; assumption.
    + right. split; [exact Heq'|]. rewrite Heq' in Hdm. lia.
    + assert ((i + 1) * ncols z <= k / ncols z * ncols z)%nat
        by (apply Nat.mul_le_mono_r; lia).
      lia.
Qed.

End Blur.

Section CrossCorrelation.

Variable ellipse_perimeter : Z -> Z -> Z -> Z -> list (Z * Z).
Variable register_translation :
  ndarray -> ndarray -> Z -> result (list R * R * R).
Variable single : R -> R.

(** For an empty range of radii the loop body never runs, [index_min]
    is never bound, and the call raises [UnboundLocalError], whatever
    the image. *)
Theorem find_beam_offset_cross_correlation_empty_range (z : ndarray)
    (radius_start radius_finish : Z) :
  (radius_finish <= radius_start)%Z ->
  find_beam_offset_cross_correlation ellipse_perimeter register_translation
    single z radius_start radius_finish = Raise UnboundLocalError.
Proof.
  intros Hempty. unfold find_beam_offset_cross_correlation, arange.
  replace (Z.to_nat (radius_finish - radius_start)) with 0%nat by lia.
  reflexivity.
Qed.

End CrossCorrelation.

Lemma find_peak_max_within_window_witness :
  (identity_filter1d [1; 3; 2] 1 = [] ->
   _find_peak_max identity_filter1d named_kinds constant_fit [1; 3; 2] 1 50 1
     (KindInt 3) = Raise ValueError) /\
  (identity_filter1d [1; 3; 2] 1 <> [] ->
   exists c1,
     argmax (identity_filter1d [1; 3; 2] 1) = Ok c1 /\
     (c1 < length (identity_filter1d [1; 3; 2]%R 1))%nat /\
     match _find_peak_max identity_filter1d named_kinds constant_fit
             [1; 3; 2] 1 50 1 (KindInt 3) with
     | Ok center =>
       IZR (Z.of_nat c1) - IZR 1 <= center < IZR (Z.of_nat c1) + IZR 1 + 1
     | Raise e => e <> ValueError
     end).
Proof.
  apply (find_peak_max_within_window identity_filter1d named_kinds
           constant_fit [1; 3; 2] 1 50 1 (KindInt 3)).
  - intros x y k f xs ys Hf Hys. unfold constant_fit in Hf.
    injection Hf as <-. injection Hys as <-. apply length_map.
  - lia.
  - lia.
Defined.

Lemma find_beam_center_interpolate_small_image_witness :
  exists cx cy,
    argmax (identity_filter1d (sum_axis1 square_array) 5) = Ok cx /\
    argmax (identity_filter1d (sum_axis0 square_array) 5) = Ok cy /\
    (cx < nrows square_array)%nat /\ (cy < ncols square_array)%nat /\
    find_beam_center_interpolate identity_filter1d named_kinds constant_fit
      square_array 5 100 (KindInt 3)
    = Ok (IZR (Z.of_nat cx), IZR (Z.of_nat cy)).
Proof.
  apply (find_beam_center_interpolate_small_image identity_filter1d
           named_kinds constant_fit (fun _ _ => eq_refl) square_array 5 100
           (KindInt 3)).
  - cbv [nrows square_array shape fst]. lia.
  - cbv [ncols square_array shape snd]. lia.
Defined.

Lemma find_beam_center_blur_first_maximum_witness :
  exists row col,
    find_beam_center_blur identity_filter square_array 30 = Ok (row, col) /\
    (row < nrows square_array)%nat /\ (col < ncols square_array)%nat /\
    forall i j, (i < nrows square_array)%nat -> (j < ncols square_array)%nat ->
      get (identity_filter square_array 30 "wrap") i j
      <= get (identity_filter square_array 30 "wrap") row col /\
      (get (identity_filter square_array 30 "wrap") i j
       = get (identity_filter square_array 30 "wrap") row col ->
       (row < i \/ (row = i /\ col <= j))%nat).
Proof.
  apply (find_beam_center_blur_first_maximum identity_filter
           (fun _ _ _ => eq_refl) (fun _ _ _ => eq_refl) square_array 30).
  - reflexivity.
  - simpl. lia.
Defined.

Lemma find_beam_offset_cross_correlation_empty_range_witness :
  find_beam_offset_cross_correlation empty_perimeter constant_registration
    (fun e => e) square_array 4 4 = Raise UnboundLocalError.
Proof.
  apply (find_beam_offset_cross_correlation_empty_range empty_perimeter
           constant_registration (fun e => e) square_array 4 4).
  lia.
Defined.

End EstimatorsMore.

(** * The reference circle *)

Module ReferenceCircleFacts.
Import Numpy NumpyFacts NumpyMore NumpyMoreFacts BeamCenterEstimators
  Indexing Examples ExamplesMore.

Lemma normalize_index_in_bounds (n : nat) (i : Z) :
  index_in_bounds n i ->
  normalize_index n i = Ok (wrap_index n i) /\ (wrap_index n i < n)%nat.
Proof.
  unfold index_in_bounds, normalize_index, wrap_index. intros Hb.
  destruct (Z.ltb_spec i 0).
  - destruct (Z.leb_spec 0 (i + Z.of_nat n));
      destruct (Z.ltb_spec (i + Z.of_nat n) (Z.of_nat n)); cbn; try lia.
    split; [reflexivity | lia].
  - destruct (Z.leb_spec 0 i); destruct (Z.ltb_spec i (Z.of_nat n));
      cbn; try lia.
    split; [reflexivity | lia].
Qed.

Lemma normalize_index_out_of_bounds (n : nat) (i : Z) :
  ~ index_in_bounds n i -> normalize_index n i = Raise IndexError.
Proof.
  unfold index_in_bounds, normalize_index. intros Hb.
  destruct (Z.ltb_spec i 0).
  - destruct (Z.leb_spec 0 (i + Z.of_nat n));
      destruct (Z.ltb_spec (i + Z.of_nat n) (Z.of_nat n)); cbn;
      try reflexivity; lia.
  - destruct (Z.leb_spec 0 i); destruct (Z.ltb_spec i (Z.of_nat n));
      cbn; try reflexivity; lia.
Qed.

Lemma normalize_index_raises (n : nat) (i : Z) (e : exn) :
  normalize_index n i = Raise e -> e = IndexError.
Proof.
  unfold normalize_index. destruct (_ && _)%bool; [discriminate|].
  now injection 1.
Qed.

Lemma nth_insert_eq (l : list R) (k : nat) (v d : R) :
  (k < length l)%nat -> nth k (<[k := v]> l) d = v.
Proof.
  revert k. induction l as [|x l IH]; intros [|k] Hk; simpl in *; try lia.
  - reflexivity.
  - apply IH. lia.
Qed.

Lemma nth_insert_ne (l : list R) (k k' : nat) (v d : R) :
  k <> k' -> nth k' (<[k := v]> l) d = nth k' l d.
Proof.
  revert k k'. induction l as [|x l IH]; intros [|k] [|k'] Hk;
    simpl; try reflexivity; try lia.
  apply IH. lia.
Qed.

(** The flat position of the pixel a point denotes. *)
Local Abbreviation pixel_of shp p :=
  (wrap_index (fst shp) (fst p) * snd shp + wrap_index (snd shp) (snd p))%nat.

(** What [img[rr, cc] = 1] does when every point is a valid index. *)
Lemma assign_points_ones (pts : list (Z * Z)) (img : ndarray) :
  Forall (point_in_bounds (shape img)) pts ->
  exists img',
    assign_points img pts 1 = Ok img' /\
    shape img' = shape img /\
    length (flat img') = length (flat img) /\
    forall k : nat,
      ((k < length (flat img))%nat ->
       (exists p, In p pts /\ pixel_of (shape img) p = k) ->
       nth k (flat img') 0 = 1) /\
      (~ (exists p, In p pts /\ pixel_of (shape img) p = k) ->
       nth k (flat img') 0 = nth k (flat img) 0).
Proof.
  revert img. induction pts as [|[r c] pts IH]; intros img Hall.
  - exists img. repeat split; try reflexivity.
    intros _ (p & [] & _).
  - apply Forall_cons in Hall as [[Hr Hc] Hall]. cbn [fst snd] in Hr, Hc.
    destruct (normalize_index_in_bounds _ _ Hr) as [Hnr Hir].
    destruct (normalize_index_in_bounds _ _ Hc) as [Hnc Hic].
    cbn [assign_points]. unfold nrows, ncols. rewrite Hnr, Hnc.
    cbn [result_bind].
    set (k0 := (wrap_index (fst (shape img)) r * snd (shape img)
                + wrap_index (snd (shape img)) c)%nat).
    set (img1 := mk_ndarray (shape img) (<[k0 := 1]> (flat img))).
    destruct (IH img1 Hall) as (img' & Hrun & Hshape & Hlen & Hval).
    exists img'. split; [exact Hrun|]. split; [exact Hshape|].
    cbn [shape flat img1] in Hlen, Hval. rewrite length_insert in Hlen, Hval.
    split; [exact Hlen|].
    intros k. destruct (Hval k) as [Hmark Hkeep]. split.
    + intros Hk (p & [<-|Hp] & Hpk).
      * destruct (Classical_Prop.classic (exists p, In p pts /\ pixel_of (shape img) p = k))
          as [Hin|Hout]; [now apply Hmark|].
        rewrite (Hkeep Hout). cbn [fst snd] in Hpk. fold k0 in Hpk.
        subst k. now apply nth_insert_eq.
      * apply Hmark; [exact Hk | now exists p].
    + intros Hno.
      assert (Hout : ~ (exists p, In p pts /\ pixel_of (shape img) p = k)).
      { intros (p & Hp & Hpk). apply Hno. exists p. split; [now right|].
        exact Hpk. }
      rewrite (Hkeep Hout). apply nth_insert_ne.
      intros Heq. apply Hno. exists (r, c). split; [now left|]. exact Heq.
Qed.

(** A point that is not a valid index makes the assignment fail. *)
Lemma assign_points_out_of_bounds (pts : list (Z * Z)) (img : ndarray)
    (v : R) :
  Exists (fun p => ~ point_in_bounds (shape img) p) pts ->
  assign_points img pts v = Raise IndexError.
Proof.
  revert img. induction pts as [|[r c] pts IH]; intros img Hex.
  - inversion Hex.
  - cbn [assign_points]. unfold nrows, ncols.
    destruct (normalize_index (fst (shape img)) r) as [i|e] eqn:Hi;
      [|now rewrite (normalize_index_raises _ _ _ Hi)].
    destruct (normalize_index (snd (shape img)) c) as [j|e] eqn:Hj;
      [|now rewrite (normalize_index_raises _ _ _ Hj)].
    cbn [result_bind]. apply IH. cbn [shape].
    apply Exists_cons in Hex as [Hbad|Hrest]; [|exact Hrest].
    exfalso. apply Hbad. split; cbn [fst snd].
    + destruct (Classical_Prop.classic (index_in_bounds (fst (shape img)) r)) as [H|H];
        [exact H|].
      rewrite (normalize_index_out_of_bounds _ _ H) in Hi. discriminate.
    + destruct (Classical_Prop.classic (index_in_bounds (snd (shape img)) c)) as [H|H];
        [exact H|].
      rewrite (normalize_index_out_of_bounds _ _ H) in Hj. discriminate.
Qed.

Lemma assign_points_shape (pts : list (Z * Z)) (img img' : ndarray)
    (v : R) :
  assign_points img pts v = Ok img' -> shape img' = shape img.
Proof.
  revert img. induction pts as [|[r c] pts IH]; intros img.
  - cbn. intros H. now injection H as <-.
  - cbn [assign_points].
    destruct (normalize_index (nrows img) r); [|discriminate].
    destruct (normalize_index (ncols img) c); [|discriminate].
    cbn [result_bind]. intros H. now rewrite (IH _ H).
Qed.

Lemma assign_points_raises (pts : list (Z * Z)) (img : ndarray) (v : R)
    (e : exn) :
  assign_points img pts v = Raise e -> e = IndexError.
Proof.
  revert img. induction pts as [|[r c] pts IH]; intros img; [discriminate|].
  cbn [assign_points].
  destruct (normalize_index (nrows img) r) as [i|e'] eqn:Hi;
    [|cbn; intros H; injection H as <-;
      now apply (normalize_index_raises _ _ _ Hi)].
  destruct (normalize_index (ncols img) c) as [j|e'] eqn:Hj;
    [|cbn; intros H; injection H as <-;
      now apply (normalize_index_raises _ _ _ Hj)].
  cbn [result_bind]. apply IH.
Qed.

Section ReferenceCircle.

Variable ellipse_perimeter : Z -> Z -> Z -> Z -> list (Z * Z).

Local Abbreviation perimeter radius c :=
  (ellipse_perimeter (fst c) (snd c) radius radius).

Lemma draw_circles_ones (coords : list (Z * Z)) (radius : Z)
    (img : ndarray) :
  (forall c, In c coords ->
     Forall (point_in_bounds (shape img)) (perimeter radius c)) ->
  exists img',
    draw_circles ellipse_perimeter img coords radius = Ok img' /\
    shape img' = shape img /\
    length (flat img') = length (flat img) /\
    forall k : nat,
      ((k < length (flat img))%nat ->
       (exists c p, In c coords /\ In p (perimeter radius c)
                    /\ pixel_of (shape img) p = k) ->
       nth k (flat img') 0 = 1) /\
      (~ (exists c p, In c coords /\ In p (perimeter radius c)
                      /\ pixel_of (shape img) p = k) ->
       nth k (flat img') 0 = nth k (flat img) 0).
Proof.
  revert img. induction coords as [|[c0 c1] coords IH]; intros img Hall.
  - exists img. repeat split; try reflexivity.
    intros _ (c & p & [] & _).
  - cbn [draw_circles].
    destruct (assign_points_ones (ellipse_perimeter c0 c1 radius radius) img)
      as (img1 & Hrun1 & Hs1 & Hl1 & Hv1).
    { apply (Hall (c0, c1)). now left. }
    rewrite Hrun1. cbn [result_bind].
    destruct (IH img1) as (img' & Hrun & Hs & Hl & Hv).
    { intros c Hc. rewrite Hs1. apply Hall. now right. }
    exists img'. split; [exact Hrun|].
    split; [congruence|]. split; [congruence|].
    intros k. destruct (Hv k) as [Hmark Hkeep].
    destruct (Hv1 k) as [Hmark1 Hkeep1].
    rewrite Hs1, Hl1 in Hmark. rewrite Hs1 in Hkeep. split.
    + intros Hk (c & p & [<-|Hc] & Hp & Hpk).
      * destruct (Classical_Prop.classic (exists c p, In c coords /\ In p (perimeter radius c)
                                       /\ pixel_of (shape img) p = k))
          as [Hin|Hout]; [now apply Hmark|].
        rewrite (Hkeep Hout). apply Hmark1; [exact Hk | now exists p].
      * apply Hmark; [exact Hk | now exists c, p].
    + intros Hno. rewrite Hkeep, Hkeep1; [reflexivity| |].
      * intros (p & Hp & Hpk). apply Hno.
        exists (c0, c1), p. split; [now left|]. now split.
      * intros (c & p & Hc & Hp & Hpk). apply Hno.
        exists c, p. split; [now right|]. now split.
Qed.

(** When every perimeter point is a valid index, [reference_circle]
    returns an image of shape [(dimX, dimY)] that holds 1 at the pixels
    the perimeter points denote (negative coordinates counting from the
    far edge) and 0 everywhere else. *)
Theorem reference_circle_marks_perimeter (coords : list (Z * Z))
    (dimX dimY : nat) (radius : Z) :
  (forall c, In c coords ->
     Forall (point_in_bounds (dimX, dimY)) (perimeter radius c)) ->
  exists img,
    reference_circle ellipse_perimeter coords dimX dimY radius = Ok img /\
    shape img = (dimX, dimY) /\
    wf_ndarray img /\
    forall i j, (i < dimX)%nat -> (j < dimY)%nat ->
      ((exists c p, In c coords /\ In p (perimeter radius c)
                    /\ wrap_index dimX (fst p) = i
                    /\ wrap_index dimY (snd p) = j) ->
       get img i j = 1) /\
      (~ (exists c p, In c coords /\ In p (perimeter radius c)
                      /\ wrap_index dimX (fst p) = i
                      /\ wrap_index dimY (snd p) = j) ->
       get img i j = 0).
Proof.
  intros Hall. unfold reference_circle.
  destruct (draw_circles_ones coords radius (zeros dimX dimY) Hall)
    as (img & Hrun & Hs & Hl & Hv).
  cbn [zeros shape flat fst snd] in Hs, Hl, Hv.
  rewrite repeat_length in Hl, Hv.
  exists img. split; [exact Hrun|]. split; [exact Hs|]. split.
  - unfold wf_ndarray, nrows, ncols. now rewrite Hs, Hl.
  - intros i j Hi Hj. unfold get, ncols. rewrite Hs. cbn [snd].
    pose proof (in_range_flat _ _ _ _ Hi Hj) as Hin.
    destruct (Hv (i * dimY + j)%nat) as [Hmark Hkeep]. split.
    + intros (c & p & Hc & Hp & Hpi & Hpj).
      apply Hmark; [exact Hin|].
      exists c, p. repeat split; try assumption. now rewrite Hpi, Hpj.
    + intros Hno. rewrite Hkeep; [apply nth_repeat|].
      intros (c & p & Hc & Hp & Hpk). apply Hno. exists c, p.
      pose proof (proj1 (List.Forall_forall _ _) (Hall c Hc) p Hp)
        as [Hbi Hbj].
      cbn [fst snd] in Hbi, Hbj.
      destruct (normalize_index_in_bounds _ _ Hbi) as [_ Hwi].
      destruct (normalize_index_in_bounds _ _ Hbj) as [_ Hwj].
      cbn [fst snd] in Hpk.
      destruct (Nat.div_mod_unique dimY (wrap_index dimX (fst p)) i
                  (wrap_index dimY (snd p)) j Hwj Hj) as [Hqi Hqj]; [lia|].
      repeat split; assumption.
Qed.

Lemma draw_circles_out_of_bounds (coords : list (Z * Z)) (radius : Z)
    (img : ndarray) (c p : Z * Z) :
  In c coords -> In p (perimeter radius c) ->
  ~ point_in_bounds (shape img) p ->
  draw_circles ellipse_perimeter img coords radius = Raise IndexError.
Proof.
  revert img. induction coords as [|[c0 c1] coords IH]; intros img Hc Hp Hbad;
    [destruct Hc|].
  cbn [draw_circles].
  destruct (assign_points img (ellipse_perimeter c0 c1 radius radius) 1)
    as [img1|e] eqn:Hrun.
  - cbn [result_bind]. destruct Hc as [<-|Hc].
    + rewrite assign_points_out_of_bounds in Hrun; [discriminate|].
      apply List.Exists_exists. now exists p.
    + apply IH; [exact Hc | exact Hp |].
      now rewrite (assign_points_shape _ _ _ _ Hrun).
  - now rewrite (assign_points_raises _ _ _ _ Hrun).
Qed.

(** A perimeter point outside the image (a row or column index not in
    [[-dim, dim)]) makes [reference_circle] raise [IndexError]. *)
Theorem reference_circle_out_of_bounds (coords : list (Z * Z))
    (dimX dimY : nat) (radius : Z) (c p : Z * Z) :
  In c coords -> In p (perimeter radius c) ->
  ~ point_in_bounds (dimX, dimY) p ->
  reference_circle ellipse_perimeter coords dimX dimY radius
  = Raise IndexError.
Proof.
  intros Hc Hp Hbad. unfold reference_circle.
  now apply (draw_circles_out_of_bounds coords radius _ c p).
Qed.

End ReferenceCircle.

Lemma reference_circle_marks_perimeter_witness :
  exists img,
    reference_circle axis_points [(1, 1)%Z] 3 3 1 = Ok img /\
    shape img = (3, 3)%nat /\
    wf_ndarray img /\
    forall i j, (i < 3)%nat -> (j < 3)%nat ->
      ((exists c p, In c [(1, 1)%Z]
                    /\ In p (axis_points (fst c) (snd c) 1 1)
                    /\ wrap_index 3 (fst p) = i
                    /\ wrap_index 3 (snd p) = j) ->
       get img i j = 1) /\
      (~ (exists c p, In c [(1, 1)%Z]
                      /\ In p (axis_points (fst c) (snd c) 1 1)
                      /\ wrap_index 3 (fst p) = i
                      /\ wrap_index 3 (snd p) = j) ->
       get img i j = 0).
Proof.
  apply (reference_circle_marks_perimeter axis_points [(1, 1)%Z] 3 3 1).
  intros c [<-|[]]. cbn.
  repeat constructor; cbn; lia.
Defined.

Lemma reference_circle_out_of_bounds_witness :
  reference_circle axis_points [(1, 1)%Z] 3 3 5 = Raise IndexError.
Proof.
  apply (reference_circle_out_of_bounds axis_points [(1, 1)%Z] 3 3 5
           (1, 1)%Z (6, 1)%Z).
  - now left.
  - cbn. right. now left.
  - unfold point_in_bounds, index_in_bounds. cbn. lia.
Defined.

End ReferenceCircleFacts.

(** * Background subtraction *)

Module BackgroundFacts.
Import Numpy NumpyFacts NumpyMore NumpyMoreFacts Background Corrections
  ReferenceCircleFacts Examples.

Section ClampLoops.

Variables n m : nat.

(** An entry of [im'] is the entry of [im], or it is 0 where [im] was
    negative at a position the loop has visited. *)
Local Abbreviation clamped_from visited im im' :=
  (forall k : nat,
     nth k (flat im') 0 = nth k (flat im) 0 \/
     (nth k (flat im') 0 = 0 /\ nth k (flat im) 0 < 0 /\ visited k)).

Lemma clamp_row_spec (js : list nat) (im : ndarray) (i : nat) :
  shape im = (n, m) -> length (flat im) = (n * m)%nat ->
  (i < n)%nat -> Forall (fun j => (j < m)%nat) js ->
  exists im',
    clamp_row im i js = Ok im' /\
    shape im' = (n, m) /\ length (flat im') = (n * m)%nat /\
    clamped_from (fun k => exists j, In j js /\ k = (i * m + j)%nat) im im' /\
    forall j, In j js -> ~ nth (i * m + j) (flat im') 0 < 0.
Proof.
  revert im. induction js as [|j js IH]; intros im Hs Hl Hi Hjs.
  - exists im. repeat split; try assumption; try reflexivity.
    + intros k. now left.
    + intros j [].
  - apply Forall_cons in Hjs as [Hj Hjs].
    cbn [clamp_row]. unfold getitem, nrows, ncols. rewrite Hs. cbn [fst snd].
    destruct (Nat.ltb_spec i n) as [_|?]; [|lia].
    destruct (Nat.ltb_spec j m) as [_|?]; [|lia].
    cbn [andb result_bind].
    set (v := get im i j).
    set (im1 := if Rlt_dec v 0 then setitem im i j 0 else im).
    assert (Hs1 : shape im1 = (n, m))
      by (subst im1; destruct (Rlt_dec v 0); [exact Hs | exact Hs]).
    assert (Hl1 : length (flat im1) = (n * m)%nat).
    { subst im1. destruct (Rlt_dec v 0); [|exact Hl].
      cbn [setitem flat]. now rewrite length_insert. }
    assert (Hin : (i * m + j < length (flat im))%nat)
      by (rewrite Hl; now apply in_range_flat).
    assert (Hv : v = nth (i * m + j) (flat im) 0)
      by (subst v; unfold get, ncols; now rewrite Hs).
    assert (H1 : forall k,
              (k = (i * m + j)%nat /\ v < 0 /\ nth k (flat im1) 0 = 0) \/
              ((k <> (i * m + j)%nat \/ ~ v < 0)
               /\ nth k (flat im1) 0 = nth k (flat im) 0)).
    { intros k. subst im1. destruct (Rlt_dec v 0) as [Hneg|Hpos].
      - cbn [setitem flat]. unfold ncols. rewrite Hs. cbn [snd].
        destruct (Nat.eq_dec k (i * m + j)%nat) as [->|Hne].
        + left. repeat split; try assumption. now apply nth_insert_eq.
        + right. split; [now left|]. apply nth_insert_ne. lia.
      - right. split; [now right | reflexivity]. }
    destruct (IH im1 Hs1 Hl1 Hi Hjs) as (im' & Hrun & Hs' & Hl' & Hc & Hnn).
    exists im'. split; [exact Hrun|]. split; [exact Hs'|].
    split; [exact Hl'|]. split.
    + intros k. destruct (Hc k) as [Heq|(H0 & Hneg & j' & Hj' & Hk)];
        destruct (H1 k) as [(Hk1 & Hv1 & Hz)|(Hk1 & Hsame)].
      * right. rewrite Heq, Hz. split; [reflexivity|]. split.
        -- rewrite Hk1, <- Hv. exact Hv1.
        -- exists j. split; [now left | exact Hk1].
      * left. now rewrite Heq.
      * rewrite Hz in Hneg. lra.
      * right. split; [exact H0|]. split; [now rewrite <- Hsame|].
        exists j'. split; [now right | exact Hk].
    + intros j' [<-|Hj'].
      * destruct (Hc (i * m + j)%nat) as [Heq|(H0 & _)]; [|lra].
        rewrite Heq.
        destruct (H1 (i * m + j)%nat) as [(_ & _ & Hz)|([?|Hpos] & Hsame)];
          [lra | congruence | rewrite Hsame, <- Hv; exact Hpos].
      * now apply Hnn.
Qed.

Lemma clamp_rows_spec (rows : list nat) (im : ndarray) :
  shape im = (n, m) -> length (flat im) = (n * m)%nat ->
  Forall (fun i => (i < n)%nat) rows ->
  exists im',
    clamp_rows im rows m = Ok im' /\
    shape im' = (n, m) /\ length (flat im') = (n * m)%nat /\
    clamped_from
      (fun k => exists i j, In i rows /\ (j < m)%nat /\ k = (i * m + j)%nat)
      im im' /\
    forall i j, In i rows -> (j < m)%nat ->
      ~ nth (i * m + j) (flat im') 0 < 0.
Proof.
  revert im. induction rows as [|i rows IH]; intros im Hs Hl Hrows.
  - exists im. repeat split; try assumption; try reflexivity.
    + intros k. now left.
    + intros i j [].
  - apply Forall_cons in Hrows as [Hi Hrows]. cbn [clamp_rows].
    destruct (clamp_row_spec (seq 0 m) im i Hs Hl Hi)
      as (im1 & Hrun1 & Hs1 & Hl1 & Hc1 & Hnn1).
    { apply List.Forall_forall. intros j Hj. apply in_seq in Hj. lia. }
    rewrite Hrun1. cbn [result_bind].
    destruct (IH im1 Hs1 Hl1 Hrows) as (im' & Hrun & Hs' & Hl' & Hc & Hnn).
    exists im'. split; [exact Hrun|]. split; [exact Hs'|].
    split; [exact Hl'|]. split.
    + intros k.
      destruct (Hc k) as [Heq|(H0 & Hneg & i' & j' & Hi' & Hj' & Hk)];
        destruct (Hc1 k) as [Heq1|(H01 & Hneg1 & j1 & Hj1 & Hk1)].
      * left. congruence.
      * right. rewrite Heq, H01. split; [reflexivity|].
        split; [exact Hneg1|]. exists i, j1.
        apply in_seq in Hj1. split; [now left|]. split; [lia | exact Hk1].
      * right. split; [exact H0|]. split; [now rewrite <- Heq1|].
        exists i', j'. split; [now right|]. now split.
      * rewrite H01 in Hneg. lra.
    + intros i' j Hi' Hj. destruct Hi' as [<-|Hi'].
      * destruct (Hc (i * m + j)%nat) as [Heq|(H0 & _)]; [|lra].
        rewrite Heq. apply Hnn1. apply in_seq. lia.
      * now apply Hnn.
Qed.

End ClampLoops.

(** For a background of the shape of the image, the two loops of
    [subtract_reference] visit every pixel: the result has the shape of
    the image and holds [z - bg] where that is not negative and 0
    elsewhere. *)
Theorem subtract_reference_clamps (z bg : ndarray) :
  shape bg = shape z ->
  exists im,
    subtract_reference z bg = Ok im /\
    shape im = shape z /\ wf_ndarray im /\
    forall i j, (i < nrows z)%nat -> (j < ncols z)%nat ->
      get im i j = Rmax (get z i j - get bg i j) 0.
Proof.
  intros Hshape. unfold subtract_reference.
  destruct (broadcast2_same_shape Rminus z bg Hshape)
    as (im0 & Hrun0 & Hs0 & Hl0 & Hget0).
  rewrite Hrun0. cbn [result_bind].
  assert (Hs0' : shape im0 = (nrows z, ncols z))
    by (rewrite Hs0; unfold nrows, ncols; now destruct (shape z)).
  destruct (clamp_rows_spec (nrows z) (ncols z) (seq 0 (nrows z)) im0
              Hs0' Hl0) as (im & Hrun & Hs & Hl & Hc & Hnn).
  { apply List.Forall_forall. intros i Hi. apply in_seq in Hi. lia. }
  exists im. split; [exact Hrun|].
  split; [rewrite Hs; unfold nrows, ncols; now destruct (shape z)|].
  split; [unfold wf_ndarray, nrows, ncols; now rewrite Hs, Hl|].
  intros i j Hi Hj.
  specialize (Hget0 i j Hi Hj).
  unfold get, ncols in Hget0 |- *. rewrite Hs0' in Hget0. rewrite Hs.
  cbn [snd] in Hget0 |- *.
  specialize (Hnn i j ltac:(apply in_seq; lia) Hj).
  unfold get, ncols. rewrite <- Hget0.
  destruct (Hc (i * snd (shape z) + j)%nat) as [Heq|(H0 & Hneg & _)];
    unfold ncols in *.
  - rewrite Heq in Hnn |- *. rewrite Rmax_left; [reflexivity|lra].
  - rewrite H0. rewrite Rmax_right; [reflexivity|lra].
Qed.

Lemma subtract_reference_clamps_witness :
  exists im,
    subtract_reference square_array square_array = Ok im /\
    shape im = shape square_array /\ wf_ndarray im /\
    forall i j, (i < nrows square_array)%nat -> (j < ncols square_array)%nat ->
      get im i j = Rmax (get square_array i j - get square_array i j) 0.
Proof.
  apply (subtract_reference_clamps square_array square_array).
  reflexivity.
Defined.

End BackgroundFacts.

(** * Difference of Gaussians, gain normalisation, circular masks *)

Module CorrectionsFacts.
Import Numpy NumpyFacts NumpyMore NumpyMoreFacts Corrections Examples.

Section SubtractBackgroundDog.

Variable gaussian_filter : ndarray -> R -> ndarray.

Hypothesis gaussian_filter_shape :
  forall z sigma, shape (gaussian_filter z sigma) = shape z.

(** On an image of floats, for a Gaussian filter that keeps the shape,
    the difference-of-Gaussians background removal returns an array of
    the shape of the image with no negative entry: where the narrow
    blur exceeds the wide blur a pixel holds [z - blur_max], clipped at
    0, and elsewhere it holds [- blur_max], clipped at 0. *)
Theorem subtract_background_dog_values (z : ndarray)
    (sigma_min sigma_max : R) :
  exists out,
    subtract_background_dog gaussian_filter z sigma_min sigma_max = Ok out /\
    shape out = shape z /\
    Forall (fun v => 0 <= v) (flat out) /\
    forall i j, (i < nrows z)%nat -> (j < ncols z)%nat ->
      get out i j
      = if Rlt_dec (get (gaussian_filter z sigma_max) i j)
                   (get (gaussian_filter z sigma_min) i j)
        then Rmax (get z i j - get (gaussian_filter z sigma_max) i j) 0
        else Rmax (0 - get (gaussian_filter z sigma_max) i j) 0.
Proof.
  unfold subtract_background_dog.
  set (blur_max := gaussian_filter z sigma_max).
  set (blur_min := gaussian_filter z sigma_min).
  assert (Hmax : shape blur_max = shape z) by apply gaussian_filter_shape.
  assert (Hmin : shape blur_min = shape z) by apply gaussian_filter_shape.
  unfold greater. rewrite Hmin, Hmax, broadcast_shape_same.
  cbn [result_bind]. unfold where_scalar. cbn [bshape bflat].
  rewrite broadcast_shape_same. cbn [result_bind].
  set (kept := mk_ndarray (shape z) _).
  destruct (broadcast2_same_shape Rminus kept blur_max)
    as (diff & Hrun & Hs & Hl & Hget); [exact Hmax|].
  rewrite Hrun. cbn [result_bind].
  exists (maximum0 diff). split; [reflexivity|].
  split; [exact Hs|]. split.
  - unfold maximum0. cbn [flat]. apply List.Forall_forall.
    intros v Hv. apply in_map_iff in Hv as (x & <- & _). apply Rmax_r.
  - intros i j Hi Hj.
    pose proof (in_range_flat _ _ _ _ Hi Hj) as Hin.
    unfold get at 1, maximum0, ncols at 1. cbn [shape flat].
    rewrite (EllipseFacts.nth_map_in _ _ 0)
      by (rewrite Hs; cbn [shape kept]; fold (ncols z);
          rewrite Hl; exact Hin).
    specialize (Hget i j Hi Hj).
    unfold get at 1, ncols at 1 in Hget. rewrite Hget.
    assert (Hkept : get kept i j
              = if Rlt_dec (get blur_max i j) (get blur_min i j)
                then get z i j else 0).
    { unfold get at 1, kept, ncols at 1. cbn [shape flat].
      fold (ncols z). fold (nrows z).
      rewrite nth_tabulate by assumption.
      rewrite bindex_in_range by assumption. fold (ncols z).
      rewrite (nth_table _ _ _ false) by assumption.
      rewrite !bget_in_range
        by (unfold nrows, ncols; rewrite ?Hmin, ?Hmax; assumption).
      destruct (Rlt_dec (get blur_max i j) (get blur_min i j));
        reflexivity. }
    rewrite Hkept.
    destruct (Rlt_dec (get blur_max i j) (get blur_min i j)); reflexivity.
Qed.

End SubtractBackgroundDog.

Lemma mean_nonempty (l : list R) :
  l <> [] -> mean l = Some (Rsum l / INR (length l)).
Proof.
  destruct l; [congruence | reflexivity].
Qed.

(** With dark and bright references of one shape, at a pixel where the
    two references differ the dark reference itself normalises to 0 and
    the bright reference to the mean of [bref - dref]; at a pixel where
    they agree the result is not a finite number. *)
Theorem gain_normalise_references (dref bref : ndarray) (i j : nat) :
  shape bref = shape dref ->
  (i < nrows dref)%nat -> (j < ncols dref)%nat ->
  exists gain of_dark of_bright,
    broadcast2 Rminus bref dref = Ok gain /\
    gain_normalise dref dref bref = Ok of_dark /\
    gain_normalise bref dref bref = Ok of_bright /\
    (get bref i j <> get dref i j ->
     fget of_dark i j = Some 0 /\
     fget of_bright i j
     = Some (Rsum (flat gain) / INR (length (flat gain)))) /\
    (get bref i j = get dref i j ->
     fget of_dark i j = None /\ fget of_bright i j = None).
Proof.
  intros Hs Hi Hj.
  pose proof (in_range_flat _ _ _ _ Hi Hj) as Hin.
  destruct (broadcast2_same_shape Rminus dref dref eq_refl)
    as (dd & Hdd & Hsdd & Hldd & Hgdd).
  assert (Hs' : shape dref = shape bref) by now symmetry.
  assert (Hib : (i < nrows bref)%nat) by (unfold nrows; now rewrite Hs).
  assert (Hjb : (j < ncols bref)%nat) by (unfold ncols; now rewrite Hs).
  destruct (broadcast2_same_shape Rminus bref dref Hs')
    as (gain & Hgain & Hsg & Hlg & Hgg).
  assert (Hsg' : shape gain = shape dref) by congruence.
  assert (Hne : flat gain <> []).
  { intros Hnil. rewrite Hnil in Hlg. simpl in Hlg.
    unfold nrows, ncols in Hlg, Hin. rewrite Hs in Hlg. lia. }
  exists gain. unfold gain_normalise. rewrite Hdd, Hgain.
  cbn [result_bind]. unfold divide.
  rewrite Hsdd, Hsg, Hs, broadcast_shape_same. cbn [result_bind].
  do 2 eexists. split; [reflexivity|]. split; [reflexivity|].
  split; [reflexivity|].
  assert (Hcell : forall (num : ndarray),
            shape num = shape dref ->
            fget (fscale
                    (mk_farray (shape dref)
                       (table (fst (shape dref)) (snd (shape dref))
                          (fun i j =>
                             if Req_dec_T (bget gain i j) 0 then None
                             else Some (bget num i j / bget gain i j))))
                    (mean (flat gain))) i j
            = if Req_dec_T (get bref i j - get dref i j) 0 then None
              else Some (get num i j / (get bref i j - get dref i j)
                         * (Rsum (flat gain) / INR (length (flat gain))))).
  { intros num Hnum. unfold fget, fscale. cbn [fshape fflat].
    rewrite (EllipseFacts.nth_map_in _ _ None)
      by (rewrite length_table; exact Hin).
    rewrite nth_table by assumption.
    rewrite !bget_in_range
      by (unfold nrows, ncols; rewrite ?Hsg', ?Hnum; assumption).
    rewrite (Hgg i j Hib Hjb), (mean_nonempty _ Hne).
    destruct (Req_dec_T (get bref i j - get dref i j) 0); reflexivity. }
  rewrite (Hcell dd Hsdd), (Hcell gain Hsg').
  rewrite (Hgdd i j Hi Hj), (Hgg i j Hib Hjb).
  destruct (Req_dec_T (get bref i j - get dref i j) 0) as [Hz|Hnz]; split.
  - intros Hd. lra.
  - intros _. split; reflexivity.
  - intros _. split; f_equal.
    + unfold Rdiv. ring.
    + set (M := Rsum (flat gain) / INR (length (flat gain))).
      field. exact Hnz.
  - intros Hd. lra.
Qed.

Lemma pow2_le_abs (a b : R) : Rabs a <= Rabs b -> a ^ 2 <= b ^ 2.
Proof.
  intros H. rewrite <- (pow2_abs a), <- (pow2_abs b).
  pose proof (Rabs_pos a). nra.
Qed.

(** A circular mask grows with the size of the radius, whatever its
    sign: a pixel inside the mask of radius [r1] is inside the mask of
    every radius [r2] with [|r1| <= |r2|], for the same centre. *)
Theorem circular_mask_monotone (shape : nat * nat) (r1 r2 : R)
    (center : option (R * R)) (i j : nat) :
  Rabs r1 <= Rabs r2 ->
  (i < fst shape)%nat -> (j < snd shape)%nat ->
  bool_get (circular_mask shape r1 center) i j = true ->
  bool_get (circular_mask shape r2 center) i j = true.
Proof.
  intros Hr Hi Hj. destruct shape as [l_x l_y]. cbn [fst snd] in Hi, Hj.
  apply pow2_le_abs in Hr.
  unfold circular_mask, bool_get.
  destruct (match center with
            | Some c => c
            | None => (INR l_x / 2, INR l_y / 2)
            end) as [x y].
  cbn [bshape bflat snd].
  rewrite !nth_table by assumption.
  destruct (Rlt_dec _ (r1 ^ 2)) as [H1|]; [|discriminate].
  destruct (Rlt_dec _ (r2 ^ 2)) as [|H2]; [reflexivity|]. lra.
Qed.

Lemma subtract_background_dog_values_witness :
  exists out,
    subtract_background_dog (fun z _ => z) square_array 1 2 = Ok out /\
    shape out = shape square_array /\
    Forall (fun v => 0 <= v) (flat out) /\
    forall i j, (i < nrows square_array)%nat -> (j < ncols square_array)%nat ->
      get out i j
      = if Rlt_dec (get square_array i j) (get square_array i j)
        then Rmax (get square_array i j - get square_array i j) 0
        else Rmax (0 - get square_array i j) 0.
Proof.
  apply (subtract_background_dog_values (fun z _ => z)
           (fun z _ => eq_refl) square_array 1 2).
Defined.

Lemma gain_normalise_references_witness :
  exists gain of_dark of_bright,
    broadcast2 Rminus square_array (mk_ndarray (2, 2)%nat [0; 0; 0; 0])
    = Ok gain /\
    gain_normalise (mk_ndarray (2, 2)%nat [0; 0; 0; 0])
      (mk_ndarray (2, 2)%nat [0; 0; 0; 0]) square_array = Ok of_dark /\
    gain_normalise square_array (mk_ndarray (2, 2)%nat [0; 0; 0; 0])
      square_array = Ok of_bright /\
    (get square_array 0 1 <> get (mk_ndarray (2, 2)%nat [0; 0; 0; 0]) 0 1 ->
     fget of_dark 0 1 = Some 0 /\
     fget of_bright 0 1
     = Some (Rsum (flat gain) / INR (length (flat gain)))) /\
    (get square_array 0 1 = get (mk_ndarray (2, 2)%nat [0; 0; 0; 0]) 0 1 ->
     fget of_dark 0 1 = None /\ fget of_bright 0 1 = None).
Proof.
  apply (gain_normalise_references (mk_ndarray (2, 2)%nat [0; 0; 0; 0])
           square_array 0 1).
  - reflexivity.
  - cbv [nrows shape fst]. lia.
  - cbv [ncols shape snd]. lia.
Defined.

Lemma circular_mask_monotone_witness :
  bool_get (circular_mask (3, 3)%nat (-2) None) 1 1 = true.
Proof.
  apply (circular_mask_monotone (3, 3)%nat 1 (-2) None 1 1).
  - rewrite Rabs_R1, Rabs_left by lra. lra.
  - cbn. lia.
  - cbn. lia.
  - unfold circular_mask, bool_get. cbn [bshape bflat snd table].
    cbn. destruct (Rlt_dec _ _) as [|Hn]; [reflexivity|].
    exfalso. apply Hn. lra.
Defined.

End CorrectionsFacts.

(** * Dead pixels *)

Module RemoveDeadFacts.
Import Numpy NumpyFacts NumpyMore NumpyMoreFacts BeamCenterEstimators
  Indexing Corrections ReferenceCircleFacts CorrectionsFacts Examples ExamplesMore.

Lemma nth_insert_eq_any {A : Type} (l : list A) (k : nat) (v d : A) :
  (k < length l)%nat -> nth k (<[k := v]> l) d = v.
Proof.
  revert k. induction l as [|x l IH]; intros [|k] Hk; simpl in *; try lia.
  - reflexivity.
  - apply IH. lia.
Qed.

Lemma nth_insert_ne_any {A : Type} (l : list A) (k k' : nat) (v d : A) :
  k <> k' -> nth k' (<[k := v]> l) d = nth k' l d.
Proof.
  revert k k'. induction l as [|x l IH]; intros [|k] [|k'] Hk;
    simpl; try reflexivity; try lia.
  apply IH. lia.
Qed.

(** The dead pixels the theorems speak of: pairs of indices that are
    not negative and lie within the image. *)
Local Abbreviation valid_pixels z deadpixels :=
  (Forall (fun p : Z * Z =>
             (0 <= fst p < Z.of_nat (nrows z))%Z
             /\ (0 <= snd p < Z.of_nat (ncols z))%Z) deadpixels).

Local Abbreviation listed deadpixels p q :=
  (In (Z.of_nat p, Z.of_nat q) deadpixels).

Lemma fget_copy_float (z : ndarray) (p q : nat) :
  wf_ndarray z -> (p < nrows z)%nat -> (q < ncols z)%nat ->
  fget (copy_float z) p q = Some (get z p q).
Proof.
  intros Hwf Hp Hq. unfold fget, copy_float, get. cbn [fshape fflat].
  fold (ncols z).
  apply (EllipseFacts.nth_map_in Some _ 0).
  rewrite Hwf. now apply in_range_flat.
Qed.

(** One assignment [z_bar[i, j] = v] at a valid pixel. *)
Lemma fset_valid (a : farray) (n m : nat) (i j : Z) (v : option R) :
  fshape a = (n, m) -> length (fflat a) = (n * m)%nat ->
  (0 <= i < Z.of_nat n)%Z -> (0 <= j < Z.of_nat m)%Z ->
  exists a',
    fset a i j v = Ok a' /\
    fshape a' = (n, m) /\ length (fflat a') = (n * m)%nat /\
    forall p q, (p < n)%nat -> (q < m)%nat ->
      fget a' p q
      = if decide (Z.of_nat p = i /\ Z.of_nat q = j) then v else fget a p q.
Proof.
  intros Hs Hl Hi Hj. unfold fset. rewrite Hs. cbn [fst snd].
  destruct (normalize_index_in_bounds n i) as [-> _];
    [unfold index_in_bounds; lia|].
  destruct (normalize_index_in_bounds m j) as [-> _];
    [unfold index_in_bounds; lia|].
  cbn [result_bind]. eexists. split; [reflexivity|].
  split; [reflexivity|]. split; [cbn [fflat]; now rewrite length_insert|].
  intros p q Hp Hq. unfold fget. cbn [fshape fflat]. rewrite ?Hs. cbn [snd].
  unfold wrap_index.
  destruct (Z.ltb_spec i 0); [lia|]. destruct (Z.ltb_spec j 0); [lia|].
  destruct (decide (Z.of_nat p = i /\ Z.of_nat q = j)) as [[<- <-]|Hne].
  - rewrite !Nat2Z.id. apply nth_insert_eq_any.
    rewrite Hl. now apply in_range_flat.
  - apply nth_insert_ne_any. intros Heq. apply Hne.
    destruct (Nat.div_mod_unique m (Z.to_nat i) p (Z.to_nat j) q)
      as [Hqi Hqj]; lia.
Qed.

Lemma average_dead_spec (z : ndarray) (d : Z) (deadpixels : list (Z * Z))
    (z_bar : farray) :
  fshape z_bar = (nrows z, ncols z) ->
  length (fflat z_bar) = (nrows z * ncols z)%nat ->
  valid_pixels z deadpixels ->
  exists out,
    average_dead z z_bar deadpixels d = Ok out /\
    fshape out = (nrows z, ncols z) /\
    forall p q, (p < nrows z)%nat -> (q < ncols z)%nat ->
      (listed deadpixels p q ->
       fget out p q
       = mean (slice2 z (Z.of_nat p - d) (Z.of_nat p + d + 1)
                 (Z.of_nat q - d) (Z.of_nat q + d + 1))) /\
      (~ listed deadpixels p q -> fget out p q = fget z_bar p q).
Proof.
  revert z_bar.
  induction deadpixels as [|[i j] rest IH]; intros z_bar Hs Hl Hvalid.
  - exists z_bar. split; [reflexivity|]. split; [exact Hs|].
    intros p q _ _. split; [intros []|reflexivity].
  - apply Forall_cons in Hvalid as [[Hi Hj] Hvalid]. cbn [fst snd] in Hi, Hj.
    cbn [average_dead].
    destruct (fset_valid z_bar _ _ i j
                (mean (slice2 z (i - d) (i + d + 1) (j - d) (j + d + 1)))
                Hs Hl Hi Hj) as (zb1 & Hrun1 & Hs1 & Hl1 & Hget1).
    rewrite Hrun1. cbn [result_bind].
    destruct (IH zb1 Hs1 Hl1 Hvalid) as (out & Hrun & Hso & Hout).
    exists out. split; [exact Hrun|]. split; [exact Hso|].
    intros p q Hp Hq. destruct (Hout p q Hp Hq) as [Hin Hnot].
    specialize (Hget1 p q Hp Hq). split.
    + intros [Heq|Hrest].
      * destruct (Classical_Prop.classic (listed rest p q)) as [Hr|Hr];
          [now apply Hin|].
        injection Heq as Hi' Hj'. subst i j.
        rewrite (Hnot Hr), Hget1.
        destruct (decide _) as [_|Hne]; [reflexivity|].
        exfalso. now apply Hne.
      * now apply Hin.
    + intros Hno. rewrite Hnot by (intros Hr; apply Hno; now right).
      rewrite Hget1. destruct (decide _) as [[<- <-]|_]; [|reflexivity].
      exfalso. apply Hno. now left.
Qed.

Lemma nan_dead_spec (n m : nat) (deadpixels : list (Z * Z))
    (z_bar : farray) :
  fshape z_bar = (n, m) -> length (fflat z_bar) = (n * m)%nat ->
  Forall (fun p : Z * Z =>
            (0 <= fst p < Z.of_nat n)%Z /\ (0 <= snd p < Z.of_nat m)%Z)
    deadpixels ->
  exists out,
    nan_dead z_bar deadpixels = Ok out /\
    fshape out = (n, m) /\
    forall p q, (p < n)%nat -> (q < m)%nat ->
      (listed deadpixels p q -> fget out p q = None) /\
      (~ listed deadpixels p q -> fget out p q = fget z_bar p q).
Proof.
  revert z_bar.
  induction deadpixels as [|[i j] rest IH]; intros z_bar Hs Hl Hvalid.
  - exists z_bar. split; [reflexivity|]. split; [exact Hs|].
    intros p q _ _. split; [intros []|reflexivity].
  - apply Forall_cons in Hvalid as [[Hi Hj] Hvalid]. cbn [fst snd] in Hi, Hj.
    cbn [nan_dead].
    destruct (fset_valid z_bar _ _ i j None Hs Hl Hi Hj)
      as (zb1 & Hrun1 & Hs1 & Hl1 & Hget1).
    rewrite Hrun1. cbn [result_bind].
    destruct (IH zb1 Hs1 Hl1 Hvalid) as (out & Hrun & Hso & Hout).
    exists out. split; [exact Hrun|]. split; [exact Hso|].
    intros p q Hp Hq. destruct (Hout p q Hp Hq) as [Hin Hnot].
    specialize (Hget1 p q Hp Hq). split.
    + intros [Heq|Hrest].
      * destruct (Classical_Prop.classic (listed rest p q)) as [Hr|Hr];
          [now apply Hin|].
        injection Heq as Hi' Hj'. subst i j.
        rewrite (Hnot Hr), Hget1.
        destruct (decide _) as [_|Hne]; [reflexivity|].
        exfalso. now apply Hne.
      * now apply Hin.
    + intros Hno. rewrite Hnot by (intros Hr; apply Hno; now right).
      rewrite Hget1. destruct (decide _) as [[<- <-]|_]; [|reflexivity].
      exfalso. apply Hno. now left.
Qed.

Lemma length_block {A : Type} (f : nat -> nat -> A) (s1 s2 n m : nat) :
  length (flat_map (fun a => map (f a) (seq s2 m)) (seq s1 n)) = (n * m)%nat.
Proof.
  revert s1. induction n as [|n IH]; intros s1; [reflexivity|].
  cbn [seq flat_map]. rewrite length_app, length_map, length_seq, IH. lia.
Qed.

Lemma firstn_seq_le (k start len : nat) :
  (k <= len)%nat -> firstn k (seq start len) = seq start k.
Proof.
  revert start len. induction k as [|k IH]; intros start [|len] Hk;
    try reflexivity; try lia.
  cbn. f_equal. apply IH. lia.
Qed.

Lemma slice_seq_inside (n lo len : nat) :
  (lo + len <= n)%nat ->
  slice (seq 0 n) (Z.of_nat lo) (Z.of_nat lo + Z.of_nat len) = seq lo len.
Proof.
  intros Hb. unfold slice, slice_bound. rewrite length_seq.
  destruct (Z.ltb_spec (Z.of_nat lo) 0); [lia|].
  destruct (Z.ltb_spec (Z.of_nat lo + Z.of_nat len) 0); [lia|].
  replace (Z.to_nat (Z.min (Z.of_nat lo) (Z.of_nat n))) with lo by lia.
  replace (Z.to_nat _) with len by lia.
  rewrite skipn_seq. apply firstn_seq_le. lia.
Qed.

Lemma slice_seq_wrapped (n : nat) (lo hi : Z) :
  (lo < 0)%Z -> (0 <= hi <= Z.of_nat n + lo)%Z ->
  slice (seq 0 n) lo hi = [].
Proof.
  intros Hlo Hhi. unfold slice, slice_bound. rewrite length_seq.
  destruct (Z.ltb_spec lo 0); [|lia].
  destruct (Z.ltb_spec hi 0); [lia|].
  replace (Z.to_nat (Z.min hi (Z.of_nat n) - Z.max 0 (Z.of_nat n + lo)))
    with 0%nat by lia.
  reflexivity.
Qed.

(** On an image of floats, with ['average'] and valid dead pixels,
    [remove_dead] returns an array of the shape of the image in which
    every pixel that is not listed keeps its value, and every listed
    pixel at least [d] pixels away from all four borders holds the mean
    of the [(2d+1) x (2d+1)] block of the input around it, the dead
    pixel's own value included. *)
Theorem remove_dead_average_interior (z : ndarray)
    (deadpixels : list (Z * Z)) (d : nat) :
  wf_ndarray z -> valid_pixels z deadpixels ->
  exists out,
    remove_dead z deadpixels "average" (Z.of_nat d) = Ok out /\
    fshape out = (nrows z, ncols z) /\
    forall p q, (p < nrows z)%nat -> (q < ncols z)%nat ->
      (~ listed deadpixels p q -> fget out p q = Some (get z p q)) /\
      (listed deadpixels p q ->
       (d <= p)%nat -> (p + d < nrows z)%nat ->
       (d <= q)%nat -> (q + d < ncols z)%nat ->
       fget out p q
       = Some (Rsum (flat_map
                       (fun a => map (fun b => get z a b)
                                   (seq (q - d) (2 * d + 1)))
                       (seq (p - d) (2 * d + 1)))
               / INR ((2 * d + 1) * (2 * d + 1)))).
Proof.
  intros Hwf Hvalid. unfold remove_dead. cbn [String.eqb Ascii.eqb Bool.eqb].
  destruct (average_dead_spec z (Z.of_nat d) deadpixels (copy_float z))
    as (out & Hrun & Hs & Hout).
  - unfold copy_float, nrows, ncols. cbn [fshape]. now destruct (shape z).
  - unfold copy_float. cbn [fflat]. rewrite length_map. exact Hwf.
  - exact Hvalid.
  - exists out. split; [exact Hrun|]. split; [exact Hs|].
    intros p q Hp Hq. destruct (Hout p q Hp Hq) as [Hin Hnot]. split.
    + intros Hno. rewrite (Hnot Hno). now apply fget_copy_float.
    + intros Hl Hp1 Hp2 Hq1 Hq2. rewrite (Hin Hl). unfold slice2.
      replace (Z.of_nat p - Z.of_nat d)%Z with (Z.of_nat (p - d)) by lia.
      replace (Z.of_nat q - Z.of_nat d)%Z with (Z.of_nat (q - d)) by lia.
      replace (Z.of_nat p + Z.of_nat d + 1)%Z
        with (Z.of_nat (p - d) + Z.of_nat (2 * d + 1))%Z by lia.
      replace (Z.of_nat q + Z.of_nat d + 1)%Z
        with (Z.of_nat (q - d) + Z.of_nat (2 * d + 1))%Z by lia.
      rewrite !slice_seq_inside by lia.
      set (block := flat_map _ _).
      assert (Hlen : length block = ((2 * d + 1) * (2 * d + 1))%nat)
        by (subst block; apply length_block).
      rewrite mean_nonempty; [now rewrite Hlen|].
      intros Hnil. rewrite Hnil in Hlen. simpl in Hlen. lia.
Qed.

(** On an image of floats, with ['average'] and valid dead pixels, a
    listed pixel fewer than [d] rows below the top border of an image
    of at least [2d+1] rows does not get an average: the row slice
    [z[i-d : i+d+1]] starts at a negative index, which counts from the
    bottom, the slice is empty and the pixel becomes nan. *)
Theorem remove_dead_average_top_edge (z : ndarray)
    (deadpixels : list (Z * Z)) (d p q : nat) :
  wf_ndarray z -> valid_pixels z deadpixels ->
  listed deadpixels p q ->
  (p < d)%nat -> (2 * d + 1 <= nrows z)%nat ->
  exists out,
    remove_dead z deadpixels "average" (Z.of_nat d) = Ok out /\
    fget out p q = None.
Proof.
  intros Hwf Hvalid Hl Hp Hrows.
  assert (Hpq : (p < nrows z)%nat /\ (q < ncols z)%nat).
  { pose proof (proj1 (List.Forall_forall _ _) Hvalid _ Hl) as [H1 H2].
    cbn [fst snd] in H1, H2. lia. }
  unfold remove_dead. cbn [String.eqb Ascii.eqb Bool.eqb].
  destruct (average_dead_spec z (Z.of_nat d) deadpixels (copy_float z))
    as (out & Hrun & Hs & Hout).
  - unfold copy_float, nrows, ncols. cbn [fshape]. now destruct (shape z).
  - unfold copy_float. cbn [fflat]. rewrite length_map. exact Hwf.
  - exact Hvalid.
  - exists out. split; [exact Hrun|].
    destruct (Hout p q (proj1 Hpq) (proj2 Hpq)) as [Hin _].
    rewrite (Hin Hl). unfold slice2.
    rewrite (slice_seq_wrapped (nrows z) (Z.of_nat p - Z.of_nat d)
               (Z.of_nat p + Z.of_nat d + 1)) by lia.
    reflexivity.
Qed.

(** On an image of floats, with ['nan'] and valid dead pixels, every
    listed pixel becomes nan and every other pixel keeps its value. *)
Theorem remove_dead_nan (z : ndarray) (deadpixels : list (Z * Z)) (d : Z) :
  wf_ndarray z -> valid_pixels z deadpixels ->
  exists out,
    remove_dead z deadpixels "nan" d = Ok out /\
    fshape out = (nrows z, ncols z) /\
    forall p q, (p < nrows z)%nat -> (q < ncols z)%nat ->
      (listed deadpixels p q -> fget out p q = None) /\
      (~ listed deadpixels p q -> fget out p q = Some (get z p q)).
Proof.
  intros Hwf Hvalid. unfold remove_dead. cbn [String.eqb Ascii.eqb Bool.eqb].
  destruct (nan_dead_spec (nrows z) (ncols z) deadpixels (copy_float z))
    as (out & Hrun & Hs & Hout).
  - unfold copy_float, nrows, ncols. cbn [fshape]. now destruct (shape z).
  - unfold copy_float. cbn [fflat]. rewrite length_map. exact Hwf.
  - exact Hvalid.
  - exists out. split; [exact Hrun|]. split; [exact Hs|].
    intros p q Hp Hq. destruct (Hout p q Hp Hq) as [Hin Hnot].
    split; [exact Hin|].
    intros Hno. rewrite (Hnot Hno). now apply fget_copy_float.
Qed.

(** A [deadvalue] other than ['average'] and ['nan'] raises
    [NotImplementedError], whatever the image and the pixel list. *)
Lemma remove_dead_unknown_method (z : ndarray)
    (deadpixels : list (Z * Z)) (deadvalue : string) (d : Z) :
  deadvalue <> "average"%string -> deadvalue <> "nan"%string ->
  remove_dead z deadpixels deadvalue d = Raise NotImplementedError.
Proof.
  intros Havg Hnan. unfold remove_dead.
  destruct (String.eqb_spec deadvalue "average"); [contradiction|].
  destruct (String.eqb_spec deadvalue "nan"); [contradiction|].
  reflexivity.
Qed.

Lemma remove_dead_average_interior_witness :
  exists out,
    remove_dead ramp_array [(1, 1)%Z] "average" (Z.of_nat 1) = Ok out /\
    fshape out = (nrows ramp_array, ncols ramp_array) /\
    forall p q, (p < nrows ramp_array)%nat -> (q < ncols ramp_array)%nat ->
      (~ listed [(1, 1)%Z] p q -> fget out p q = Some (get ramp_array p q)) /\
      (listed [(1, 1)%Z] p q ->
       (1 <= p)%nat -> (p + 1 < nrows ramp_array)%nat ->
       (1 <= q)%nat -> (q + 1 < ncols ramp_array)%nat ->
       fget out p q
       = Some (Rsum (flat_map
                       (fun a => map (fun b => get ramp_array a b)
                                   (seq (q - 1) (2 * 1 + 1)))
                       (seq (p - 1) (2 * 1 + 1)))
               / INR ((2 * 1 + 1) * (2 * 1 + 1)))).
Proof.
  apply (remove_dead_average_interior ramp_array [(1, 1)%Z] 1).
  - reflexivity.
  - repeat constructor; cbn; lia.
Defined.

Lemma remove_dead_average_top_edge_witness :
  exists out,
    remove_dead ramp_array [(0, 1)%Z] "average" (Z.of_nat 1) = Ok out /\
    fget out 0 1 = None.
Proof.
  apply (remove_dead_average_top_edge ramp_array [(0, 1)%Z] 1 0 1).
  - reflexivity.
  - repeat constructor; cbn; lia.
  - now left.
  - lia.
  - cbn. lia.
Defined.

Lemma remove_dead_nan_witness :
  exists out,
    remove_dead ramp_array [(0, 1)%Z; (2, 2)%Z] "nan" 1 = Ok out /\
    fshape out = (nrows ramp_array, ncols ramp_array) /\
    forall p q, (p < nrows ramp_array)%nat -> (q < ncols ramp_array)%nat ->
      (listed [(0, 1)%Z; (2, 2)%Z] p q -> fget out p q = None) /\
      (~ listed [(0, 1)%Z; (2, 2)%Z] p q ->
       fget out p q = Some (get ramp_array p q)).
Proof.
  apply (remove_dead_nan ramp_array [(0, 1)%Z; (2, 2)%Z] 1).
  - reflexivity.
  - repeat constructor; cbn; lia.
Defined.

End RemoveDeadFacts.

(** * Radial average *)

Module RadialAverageFacts.
Import Numpy NumpyFacts NumpyMore NumpyMoreFacts Corrections Examples.

Lemma floor_spec (x : R) : IZR (floor x) <= x < IZR (floor x) + 1.
Proof.
  unfold floor. rewrite minus_IZR. destruct (archimed x) as [H1 H2].
  split; lra.
Qed.

Lemma rint_nonneg (x : R) : - (1 / 2) <= x -> (0 <= rint x)%Z.
Proof.
  intros Hx. destruct (floor_spec x) as [Hlo Hhi]. unfold rint.
  assert (Hf : (-1 <= floor x)%Z).
  { apply le_IZR. apply Rnot_lt_le. intros Hlt.
    assert (IZR (floor x) <= -2)
      by (apply IZR_le; apply lt_IZR in Hlt; lia).
    lra. }
  destruct (Z.eq_dec (floor x) (-1)%Z) as [Heq|Hne].
  - rewrite Heq in *.
    destruct (Rlt_dec _ (1 / 2)) as [Hd|_]; [lra|].
    destruct (Rlt_dec (1 / 2) _); cbn; lia.
  - destruct (Rlt_dec _ _); [lia|].
    destruct (Rlt_dec _ _); [lia|].
    destruct (Z.even _); lia.
Qed.

Lemma Forall_table {A : Type} (P : A -> Prop) (n m : nat)
    (f : nat -> nat -> A) :
  (forall i j, P (f i j)) -> Forall P (table n m f).
Proof.
  intros H. apply List.Forall_forall. intros v Hv.
  apply in_flat_map in Hv as (i & _ & Hv).
  apply in_map_iff in Hv as (j & <- & _). apply H.
Qed.

(** The bin of a pixel: its distance from the geometric centre of the
    image, shifted by a half and rounded. *)
Local Abbreviation radial_bins z :=
  (table (nrows z) (ncols z)
     (fun y x =>
        rint (sqrt ((INR x - (INR (ncols z) / 2 - 0.5)) ^ 2
                    + (INR y - (INR (nrows z) / 2 - 0.5)) ^ 2) - 0.5))).

Lemma radial_bins_nonneg (z : ndarray) :
  Forall (fun v => (0 <= v)%Z) (radial_bins z).
Proof.
  apply Forall_table. intros i j. apply rint_nonneg.
  pose proof (sqrt_pos ((INR j - (INR (ncols z) / 2 - 0.5)) ^ 2
                        + (INR i - (INR (nrows z) / 2 - 0.5)) ^ 2)).
  lra.
Qed.

Lemma existsb_negative_false (x : list Z) :
  Forall (fun v => (0 <= v)%Z) x -> existsb (fun v => (v <? 0)%Z) x = false.
Proof.
  induction 1 as [|v x Hv _ IH]; [reflexivity|].
  cbn [existsb]. rewrite IH.
  destruct (Z.ltb_spec v 0); [lia | reflexivity].
Qed.

Lemma amax_upper (x : list Z) : Forall (fun v => (v <= amax x)%Z) x.
Proof.
  induction x as [|v x IH]; constructor.
  - unfold amax. cbn [fold_right]. lia.
  - eapply List.Forall_impl; [|exact IH]. intros a Ha. cbn beta in *.
    unfold amax in *. cbn [fold_right]. lia.
Qed.

Lemma bincount_ok (x : list Z) (weights : list R) :
  Forall (fun v => (0 <= v)%Z) x -> length x = length weights ->
  bincount x weights
  = Ok (map (fun k => bin_sum (Z.of_nat k) x weights)
          (seq 0 (Z.to_nat (amax x + 1)))).
Proof.
  intros Hx Hl. unfold bincount.
  rewrite (existsb_negative_false _ Hx), Hl, Nat.eqb_refl. reflexivity.
Qed.

Lemma zip_with_map_same {A B C D : Type} (g : B -> C -> D) (f1 : A -> B)
    (f2 : A -> C) (l : list A) :
  zip_with g (map f1 l) (map f2 l) = map (fun k => g (f1 k) (f2 k)) l.
Proof.
  induction l as [|a l IH]; [reflexivity|]. cbn. now rewrite IH.
Qed.

Local Abbreviation ones x := (map (fun _ : Z => 1) x).

Lemma bin_count_nonneg (k : Z) (x : list Z) : 0 <= bin_sum k x (ones x).
Proof.
  induction x as [|v x IH]; cbn [bin_sum map]; [lra|].
  destruct (Z.eqb v k); lra.
Qed.

Lemma bin_sum_bounds (k : Z) (lo hi : R) (x : list Z) (w : list R) :
  length x = length w -> Forall (fun v => lo <= v <= hi) w ->
  lo * bin_sum k x (ones x) <= bin_sum k x w <= hi * bin_sum k x (ones x).
Proof.
  revert w. induction x as [|v x IH]; intros [|w0 w] Hl Hw;
    cbn [bin_sum map]; try discriminate; [lra|].
  apply Forall_cons in Hw as [Hw0 Hw]. injection Hl as Hl.
  specialize (IH w Hl Hw).
  destruct (Z.eqb v k); lra.
Qed.

Lemma bin_sum_empty_bin (k : Z) (x : list Z) (w : list R) :
  length x = length w -> bin_sum k x (ones x) = 0 -> bin_sum k x w = 0.
Proof.
  revert w. induction x as [|v x IH]; intros [|w0 w] Hl Hc;
    cbn [bin_sum map] in *; try discriminate; [reflexivity|].
  injection Hl as Hl. pose proof (bin_count_nonneg k x) as Hn.
  destruct (Z.eqb v k); [lra|].
  rewrite (IH w Hl); lra.
Qed.

Lemma nan_to_num_div_times_count (t n : R) :
  (n = 0 -> t = 0) -> nan_to_num_div t n * n = t.
Proof.
  intros Hz. unfold nan_to_num_div.
  destruct (Req_dec_T n 0) as [H0|Hnz].
  - rewrite (Hz H0), H0. destruct (Req_dec_T 0 0); [lra | contradiction].
  - field. exact Hnz.
Qed.

Lemma Rsum_map_plus {A : Type} (a b : A -> R) (l : list A) :
  Rsum (map (fun k => a k + b k) l) = Rsum (map a l) + Rsum (map b l).
Proof.
  induction l as [|k l IH]; cbn [map Rsum fold_right]; [lra|].
  fold (Rsum (map (fun k => a k + b k) l)).
  fold (Rsum (map a l)). fold (Rsum (map b l)). rewrite IH. lra.
Qed.

Lemma Rsum_map_zero {A : Type} (l : list A) :
  Rsum (map (fun _ => 0) l) = 0.
Proof.
  induction l as [|k l IH]; cbn [map Rsum fold_right]; [reflexivity|].
  fold (Rsum (map (fun _ : A => 0) l)). rewrite IH. lra.
Qed.

Lemma Rsum_indicator_below (v : Z) (w : R) (n s : nat) :
  (v < Z.of_nat s)%Z ->
  Rsum (map (fun k => if Z.eqb v (Z.of_nat k) then w else 0) (seq s n)) = 0.
Proof.
  revert s. induction n as [|n IH]; intros s Hv; [reflexivity|].
  cbn [seq map Rsum fold_right].
  fold (Rsum (map (fun k => if Z.eqb v (Z.of_nat k) then w else 0)
                (seq (S s) n))).
  rewrite IH by lia. destruct (Z.eqb_spec v (Z.of_nat s)); [lia | lra].
Qed.

Lemma Rsum_indicator_inside (v : Z) (w : R) (n s : nat) :
  (Z.of_nat s <= v < Z.of_nat (s + n))%Z ->
  Rsum (map (fun k => if Z.eqb v (Z.of_nat k) then w else 0) (seq s n)) = w.
Proof.
  revert s. induction n as [|n IH]; intros s Hv; [lia|].
  cbn [seq map Rsum fold_right].
  fold (Rsum (map (fun k => if Z.eqb v (Z.of_nat k) then w else 0)
                (seq (S s) n))).
  destruct (Z.eqb_spec v (Z.of_nat s)) as [Heq|Hne].
  - rewrite Rsum_indicator_below by lia. lra.
  - rewrite IH by lia. lra.
Qed.

(** The bins partition the weights: summed over all bins, the bin sums
    give the sum of the weights. *)
Lemma Rsum_bin_sum (N : nat) (x : list Z) (w : list R) :
  length x = length w ->
  Forall (fun v => (0 <= v < Z.of_nat N)%Z) x ->
  Rsum (map (fun k => bin_sum (Z.of_nat k) x w) (seq 0 N)) = Rsum w.
Proof.
  revert w. induction x as [|v x IH]; intros [|w0 w] Hl Hx;
    try discriminate.
  - cbn [bin_sum]. apply Rsum_map_zero.
  - apply Forall_cons in Hx as [Hv Hx]. injection Hl as Hl.
    cbn [bin_sum].
    rewrite (Rsum_map_plus
               (fun k => if Z.eqb v (Z.of_nat k) then w0 else 0)
               (fun k => bin_sum (Z.of_nat k) x w)).
    rewrite Rsum_indicator_inside by (cbn; lia).
    rewrite (IH w Hl Hx). reflexivity.
Qed.

Lemma radial_average_unmasked (z : ndarray) :
  wf_ndarray z ->
  radial_average z None
  = Ok (map (fun k =>
               nan_to_num_div
                 (bin_sum (Z.of_nat k) (radial_bins z) (flat z))
                 (bin_sum (Z.of_nat k) (radial_bins z)
                    (ones (radial_bins z))))
          (seq 0 (Z.to_nat (amax (radial_bins z) + 1)))).
Proof.
  intros Hwf. unfold radial_average. cbn [fst snd].
  unfold bincount_counts.
  rewrite !bincount_ok;
    try apply radial_bins_nonneg;
    try (now rewrite length_map);
    try (rewrite length_table; symmetry; exact Hwf).
  cbn [result_bind]. now rewrite zip_with_map_same.
Qed.

(** Without a mask, the radial average of a well-formed image never
    raises, and averaging keeps bounds.  When every pixel lies in
    [[lo, hi]], the entry of the profile for a bin that holds pixels
    lies in [[lo, hi]], and the entry for a bin without pixels is the 0
    that [np.nan_to_num] puts in the place of 0/0. *)
Theorem radial_average_bounds (z : ndarray) (lo hi : R) :
  wf_ndarray z ->
  Forall (fun v => lo <= v <= hi) (flat z) ->
  exists profile counts,
    radial_average z None = Ok profile /\
    bincount_counts (radial_bins z) = Ok counts /\
    length profile = length counts /\
    forall k, (k < length profile)%nat ->
      (nth k counts 0 = 0 -> nth k profile 0 = 0) /\
      (nth k counts 0 <> 0 ->
       0 < nth k counts 0 /\ lo <= nth k profile 0 <= hi).
Proof.
  intros Hwf Hz. rewrite (radial_average_unmasked z Hwf).
  unfold bincount_counts.
  rewrite bincount_ok;
    [|apply radial_bins_nonneg | now rewrite length_map].
  do 2 eexists. split; [reflexivity|]. split; [reflexivity|].
  split; [now rewrite !length_map|].
  assert (Hl : length (radial_bins z) = length (flat z))
    by (rewrite length_table; symmetry; exact Hwf).
  intros k Hk. rewrite length_map, length_seq in Hk.
  rewrite !nth_map_seq by exact Hk. cbn [Nat.add].
  pose proof (bin_count_nonneg (Z.of_nat k) (radial_bins z)) as Hn.
  pose proof (bin_sum_bounds (Z.of_nat k) lo hi (radial_bins z) (flat z)
                Hl Hz) as Hb.
  set (n := bin_sum (Z.of_nat k) (radial_bins z) (ones (radial_bins z)))
    in *.
  set (t := bin_sum (Z.of_nat k) (radial_bins z) (flat z)) in *.
  unfold nan_to_num_div. split.
  - intros Hz0. destruct (Req_dec_T n 0) as [_|Hnz]; [|contradiction].
    rewrite Hz0 in Hb. destruct (Req_dec_T t 0); [reflexivity | lra].
  - intros Hnz. destruct (Req_dec_T n 0) as [?|_]; [contradiction|].
    assert (Hpos : 0 < n) by lra. split; [exact Hpos|]. split.
    + apply (Rmult_le_reg_r n); [exact Hpos|].
      unfold Rdiv. rewrite Rmult_assoc, Rinv_l by exact Hnz. lra.
    + apply (Rmult_le_reg_r n); [exact Hpos|].
      unfold Rdiv. rewrite Rmult_assoc, Rinv_l by exact Hnz. lra.
Qed.

(** Without a mask, the profile weighted by the number of pixels in
    each bin adds up to the sum of all pixels of the image. *)
Theorem radial_average_preserves_total (z : ndarray) :
  wf_ndarray z ->
  exists profile counts,
    radial_average z None = Ok profile /\
    bincount_counts (radial_bins z) = Ok counts /\
    length profile = length counts /\
    Rsum (zip_with Rmult profile counts) = Rsum (flat z).
Proof.
  intros Hwf. rewrite (radial_average_unmasked z Hwf).
  unfold bincount_counts.
  rewrite bincount_ok;
    [|apply radial_bins_nonneg | now rewrite length_map].
  do 2 eexists. split; [reflexivity|]. split; [reflexivity|].
  split; [now rewrite !length_map|].
  assert (Hl : length (radial_bins z) = length (flat z))
    by (rewrite length_table; symmetry; exact Hwf).
  rewrite zip_with_map_same.
  rewrite <- (Rsum_bin_sum (Z.to_nat (amax (radial_bins z) + 1))
                (radial_bins z) (flat z) Hl).
  - f_equal. apply map_ext. intros k.
    apply nan_to_num_div_times_count.
    now apply bin_sum_empty_bin.
  - pose proof (radial_bins_nonneg z) as Hn.
    pose proof (amax_upper (radial_bins z)) as Hu.
    apply List.Forall_forall. intros v Hv.
    pose proof (proj1 (List.Forall_forall _ _) Hn v Hv).
    pose proof (proj1 (List.Forall_forall _ _) Hu v Hv).
    cbn beta in *. lia.
Qed.

Lemma radial_average_bounds_witness :
  exists profile counts,
    radial_average square_array None = Ok profile /\
    bincount_counts (radial_bins square_array) = Ok counts /\
    length profile = length counts /\
    forall k, (k < length profile)%nat ->
      (nth k counts 0 = 0 -> nth k profile 0 = 0) /\
      (nth k counts 0 <> 0 ->
       0 < nth k counts 0 /\ 1 <= nth k profile 0 <= 4).
Proof.
  apply (radial_average_bounds square_array 1 4).
  - reflexivity.
  - repeat constructor; cbn; lra.
Defined.

Lemma radial_average_preserves_total_witness :
  exists profile counts,
    radial_average square_array None = Ok profile /\
    bincount_counts (radial_bins square_array) = Ok counts /\
    length profile = length counts /\
    Rsum (zip_with Rmult profile counts) = Rsum (flat square_array).
Proof.
  apply (radial_average_preserves_total square_array). reflexivity.
Defined.

End RadialAverageFacts.

(** * Cross-correlation estimator: a circle that leaves the image *)

Module CrossCorrelationMore.
Import Numpy NumpyFacts BeamCenterEstimators Indexing ReferenceCircleFacts
  CrossCorrelationFacts Examples ExamplesMore.

Section CrossCorrelation.

Variable ellipse_perimeter : Z -> Z -> Z -> Z -> list (Z * Z).
Variable register_translation :
  ndarray -> ndarray -> Z -> result (list R * R * R).
Variable single : R -> R.

(** When the circle of the first radius, drawn around the rounded
    image centre, has a perimeter point that is not a valid index of
    the image, the first pass of the loop fails in [reference_circle]
    and the whole call raises [IndexError]; nothing is registered. *)
Theorem find_beam_offset_cross_correlation_circle_leaves_image
    (z : ndarray) (radius_start radius_finish : Z) (p : Z * Z) :
  (radius_start < radius_finish)%Z ->
  In p (ellipse_perimeter (Z.of_nat (round_half (nrows z)))
          (Z.of_nat (round_half (ncols z))) radius_start radius_start) ->
  ~ point_in_bounds (nrows z, ncols z) p ->
  find_beam_offset_cross_correlation ellipse_perimeter register_translation
    single z radius_start radius_finish = Raise IndexError.
Proof.
  intros Hr Hp Hbad. unfold find_beam_offset_cross_correlation.
  rewrite length_arange.
  destruct (Z.to_nat (radius_finish - radius_start)) as [|n] eqn:Hn; [lia|].
  cbn [seq radius_loop].
  rewrite nth_error_arange by lia. cbn [result_bind].
  replace (radius_start + Z.of_nat 0)%Z with radius_start by lia.
  unfold windowed_registration at 1, reference_circle.
  rewrite (draw_circles_out_of_bounds ellipse_perimeter _ radius_start _
             (Z.of_nat (round_half (nrows z)),
              Z.of_nat (round_half (ncols z))) p);
    [reflexivity | now left | exact Hp | exact Hbad].
Qed.

End CrossCorrelation.

Lemma find_beam_offset_cross_correlation_circle_leaves_image_witness :
  find_beam_offset_cross_correlation axis_points constant_registration
    (fun e => e) square_array 4 8 = Raise IndexError.
Proof.
  apply (find_beam_offset_cross_correlation_circle_leaves_image axis_points
           constant_registration (fun e => e) square_array 4 8 (5, 1)%Z).
  - lia.
  - cbn. right. now left.
  - unfold point_in_bounds, index_in_bounds. cbn. lia.
Defined.

End CrossCorrelationMore.
